(** * smart.py: the scan-output analysis pipeline and the scan loop

    A shallow embedding of [src/hello_world/smart.py]:
    [calculate_entropy], [analyze_scan_output], [extract_features],
    [perform_ml_analysis], [interpret_address] and the scanning loop of
    [main].

    Modelling conventions.
    - A Python [str] is a [string]; its characters are the 256 code points
      of [ascii].  In that range the regex class [\d] is exactly [0-9].
    - The interpreter is CPython 3.11 or later with its default settings,
      and [statistics] is the module of that version.
    - A Python [int] is a [Z] (unbounded), a [len] is a [nat].  [int(x)]
      on a run of decimal digits raises [ValueError] when the run has more
      than [sys.get_int_max_str_digits()] = 4300 digits; [int(x, 16)] has
      no such limit.  The [int]s that are turned into text are lengths of
      lists (below [sys.maxsize]) and sizes that [int(x)] has accepted, so
      their conversion never meets the limit and [str] is total on them.
    - A Python [float] is a real number of [R]: there is no rounding.  The
      range of the floats is modelled: an exact quotient or root that is
      turned into a [float] raises [OverflowError] when its nearest
      [float] would be beyond the largest finite one ([to_float]).
    - A call that can raise returns a [result]; the exception classes that
      the source can meet are the constructors of [exn].  A
      [KeyboardInterrupt] is not one of them: it is not an [Exception],
      and it is the user, not a call, that raises it ([interruption]).
    - [re.findall] scans from left to right and returns the non-overlapping
      matches; the three patterns with a repetition have the shape
      literal, greedy run of a character class, literal, where the
      literal after the run starts with a character outside the class, so
      the greedy run is the only candidate and backtracking never helps.
    - A [dict] is an association list in insertion order; the iteration
      order of a [set] of strings is a parameter ([set_order]).
    - The statements appended to [insights] are the constructors of
      [insight]; [render] gives their text, with the conversions of a
      [float] to text as parameters.
    - The launched process and the operating system are the answers they
      give to the calls of one cycle ([target_behaviour]); what the loop
      prints is a list of [event]s; the user interrupts the loop at one
      point of one cycle ([interruption]). *)

From Stdlib Require Import List String Ascii Bool Arith ZArith Lia.
From Stdlib Require DecimalString HexadecimalString.
From Stdlib Require Import Permutation Sorted.
From Stdlib Require Import Reals Lra.
Import ListNotations.

Set Implicit Arguments.

(** ** Exceptions *)

Inductive exn : Type :=
| ZeroDivisionError
| StatisticsError
| ValueError
| OverflowError
| ProcessLookupError
| TimeoutExpired (captured : string)
| OtherError (msg : string).

Inductive result (A : Type) : Type :=
| Ok (a : A)
| Raise (e : exn).

Arguments Ok {A} a.
Arguments Raise {A} e.

Definition rbind {A B} (r : result A) (k : A -> result B) : result B :=
  match r with
  | Ok a => k a
  | Raise e => Raise e
  end.

Declare Scope result_scope.
Delimit Scope result_scope with result.
Notation "x <- c ;; k" := (rbind c (fun x => k))
  (at level 61, c at next level, right associativity) : result_scope.

(** [[f(x) for x in l]] when [f] can raise: the elements are converted
    from left to right and the first failure leaves the comprehension. *)
Fixpoint map_result (A B : Type) (f : A -> result B) (l : list A)
  : result (list B) :=
  match l with
  | [] => Ok []
  | x :: l' =>
      (y <- f x ;; ys <- map_result f l' ;; Ok (y :: ys))%result
  end.

(** ** Text scanning: the regular expressions of the source *)

Module Re.

Local Open Scope string_scope.

Definition is_digit (c : ascii) : bool :=
  let n := nat_of_ascii c in (48 <=? n)%nat && (n <=? 57)%nat.

Definition is_hexdigit (c : ascii) : bool :=
  let n := nat_of_ascii c in
  is_digit c
  || ((65 <=? n)%nat && (n <=? 70)%nat)
  || ((97 <=? n)%nat && (n <=? 102)%nat).

(** A literal of the pattern matched at the current position; the rest of
    the text is returned. *)
Fixpoint strip_prefix (p s : string) : option string :=
  match p with
  | EmptyString => Some s
  | String a p' =>
      match s with
      | String b s' => if Ascii.eqb a b then strip_prefix p' s' else None
      | EmptyString => None
      end
  end.

(** The greedy run [c+] / [c*] of a character class. *)
Fixpoint span (f : ascii -> bool) (s : string) : string * string :=
  match s with
  | EmptyString => (EmptyString, EmptyString)
  | String c s' =>
      if f c then let (run, rest) := span f s' in (String c run, rest)
      else (EmptyString, s)
  end.

(** A matcher tries the pattern at the start of the text and answers with
    what [findall] reports (the group if the pattern has one, the whole
    match otherwise) and the length of the match. *)
Definition matcher := string -> option (string * nat).

(** [lit1 (cls+) lit2], reporting the run when [group] is set. *)
Definition match_run (group : bool) (lit1 : string) (cls : ascii -> bool)
    (lit2 : string) : matcher :=
  fun s =>
    match strip_prefix lit1 s with
    | None => None
    | Some s1 =>
        let (run, s2) := span cls s1 in
        match run with
        | EmptyString => None
        | String _ _ =>
            match strip_prefix lit2 s2 with
            | None => None
            | Some _ =>
                let whole := lit1 ++ run ++ lit2 in
                Some (if group then run else whole, String.length whole)
            end
        end
    end.

Definition match_literal (lit : string) : matcher :=
  fun s =>
    match strip_prefix lit s with
    | None => None
    | Some _ => Some (lit, String.length lit)
    end.

(** [re.findall]: at a position inside the previous match ([skip] > 0)
    nothing is tried; elsewhere the pattern is tried, and on a match the
    scan resumes at the end of the match. *)
Fixpoint findall_skip (m : matcher) (skip : nat) (s : string) : list string :=
  match s with
  | EmptyString => []
  | String _ s' =>
      match skip with
      | S k => findall_skip m k s'
      | O =>
          match m s with
          | Some (g, len) => g :: findall_skip m (Nat.pred len) s'
          | None => findall_skip m 0 s'
          end
      end
  end.

Definition findall (m : matcher) (s : string) : list string :=
  findall_skip m 0 s.

(** r'Iteration (\d+):' *)
Definition re_iteration : matcher := match_run true "Iteration " is_digit ":".
(** r'Caught segmentation fault' *)
Definition re_segfault : matcher := match_literal "Caught segmentation fault".
(** r'Allocating (\d+) bytes' *)
Definition re_allocating : matcher :=
  match_run true "Allocating " is_digit " bytes".
(** r'0x[0-9a-fA-F]+' *)
Definition re_hex : matcher := match_run false "0x" is_hexdigit "".

(** [needle in hay] on strings. *)
Fixpoint contains (needle hay : string) : bool :=
  match strip_prefix needle hay with
  | Some _ => true
  | None =>
      match hay with
      | EmptyString => false
      | String _ hay' => contains needle hay'
      end
  end.

End Re.

(** ** Integers out of text *)

Definition digit_val (c : ascii) : Z :=
  let n := Z.of_nat (nat_of_ascii c) in
  if (48 <=? n)%Z && (n <=? 57)%Z then (n - 48)%Z
  else if (65 <=? n)%Z && (n <=? 70)%Z then (n - 55)%Z
  else if (97 <=? n)%Z && (n <=? 102)%Z then (n - 87)%Z
  else 0%Z.

Fixpoint digits_acc (base : Z) (acc : Z) (s : string) : Z :=
  match s with
  | EmptyString => acc
  | String c s' => digits_acc base (acc * base + digit_val c)%Z s'
  end.

(** The number that a run of decimal digits writes. *)
Definition decimal_value (s : string) : Z := digits_acc 10%Z 0%Z s.

(** [sys.get_int_max_str_digits()] *)
Definition int_max_str_digits : nat := 4300.

(** [int(x)] on a run of decimal digits: every digit counts towards the
    limit, leading zeros included. *)
Definition int10 (s : string) : result Z :=
  if (int_max_str_digits <? String.length s)%nat then Raise ValueError
  else Ok (decimal_value s).

(** [int(addr, 16)] on a token ['0x' hexdigit+]. *)
Definition int16 (s : string) : Z :=
  match Re.strip_prefix "0x" s with
  | Some ds => digits_acc 16%Z 0%Z ds
  | None => digits_acc 16%Z 0%Z s
  end.

Definition LF : string := String (ascii_of_nat 10) EmptyString.


(** [str(n)] for an [int]. *)
Definition str_int (z : Z) : string :=
  DecimalString.NilEmpty.string_of_int (Z.to_int z).

Definition str_len (n : nat) : string := str_int (Z.of_nat n).

Fixpoint zeros (n : nat) : string :=
  match n with
  | O => EmptyString
  | S k => String "0" (zeros k)
  end.

(** [sep.join(lines)] *)
Fixpoint join (sep : string) (lines : list string) : string :=
  match lines with
  | [] => EmptyString
  | [l] => l
  | l :: ls => (l ++ sep ++ join sep ls)%string
  end.

(** ** Python numbers *)

(** The value of an expression that is an [int] on some inputs and a
    [float] on others. *)
Inductive pynum : Type :=
| PyInt (z : Z)
| PyFloat (r : R).

(** The reals from which the nearest [float] is beyond the largest finite
    one, [(2 - 2^-52) * 2^1023]: the midpoint between it and [2^1024]
    rounds to even, that is upwards. *)
Definition float_limit : R := IZR (2 ^ 1024 - 2 ^ 970).

Definition in_float_range (x : R) : Prop := (Rabs x < float_limit)%R.

(** The [float] of an exact value. *)
Definition to_float (x : R) : result R :=
  if Rlt_dec (Rabs x) float_limit then Ok x else Raise OverflowError.

(** [a / b] on two [int]s: true division, the correctly rounded quotient. *)
Definition truediv (a b : Z) : result R :=
  if (b =? 0)%Z then Raise ZeroDivisionError else to_float (IZR a / IZR b).

(** [math.log2] *)
Definition log2 (x : R) : result R :=
  if Rle_dec x 0 then Raise ValueError else Ok (ln x / ln 2)%R.

(** An [int] under the format specification [016x]: lower-case
    hexadecimal digits, padded with zeros to 16 characters, the sign
    included. *)
Definition hex16 (z : Z) : string :=
  let ds := HexadecimalString.NilEmpty.string_of_uint
              (N.to_hex_uint (Z.to_N (Z.abs z))) in
  (if (z <? 0)%Z
   then String "-" (zeros (15 - String.length ds)) ++ ds
   else zeros (16 - String.length ds) ++ ds)%string.

(** Format specification [016x]: defined on [int] only; on a [float] the
    format code [x] is refused with a [ValueError]. *)
Definition format_016x (v : pynum) : result string :=
  match v with
  | PyInt z => Ok (hex16 z)
  | PyFloat _ => Raise ValueError
  end.

(** [sum], [min], [max] on a list of [int]s. *)
Definition py_sum (l : list Z) : Z := fold_left Z.add l 0%Z.

Definition py_min (l : list Z) : Z :=
  match l with
  | [] => 0%Z
  | x :: l' => fold_left Z.min l' x
  end.

Definition py_max (l : list Z) : Z :=
  match l with
  | [] => 0%Z
  | x :: l' => fold_left Z.max l' x
  end.

(** [sorted(l, key=key)]: a stable sort. *)
Fixpoint insert_by (A : Type) (key : A -> Z) (x : A) (l : list A) : list A :=
  match l with
  | [] => [x]
  | y :: l' => if (key x <=? key y)%Z then x :: l else y :: insert_by key x l'
  end.

Definition sorted (A : Type) (key : A -> Z) (l : list A) : list A :=
  fold_right (insert_by key) [] l.

(** The elements of a collection without repetition, in the order in
    which they first appear. *)
Fixpoint dedup (A : Type) (eqb : A -> A -> bool) (l : list A) : list A :=
  match l with
  | [] => []
  | x :: l' => x :: filter (fun y => negb (eqb x y)) (dedup eqb l')
  end.

(** [len(set(l))] for a list of [int]s. *)
Definition len_set (l : list Z) : nat := List.length (dedup Z.eqb l).

(** ** The [statistics] module on lists of [int]s *)

Module Statistics.

(** The module computes with exact fractions and converts at the end:
    a fraction that is an integer gives an [int], another one the
    nearest [float]. *)
Definition convert (v : pynum) : result pynum :=
  match v with
  | PyInt z => Ok (PyInt z)
  | PyFloat r => (x <- to_float r ;; Ok (PyFloat x))%result
  end.

(** The value of [mean] on data that is not empty: the exact quotient,
    an [int] when it is integral and a [float] otherwise. *)
Definition mean_num (data : list Z) : pynum :=
  let n := Z.of_nat (List.length data) in
  let total := py_sum data in
  if (total mod n =? 0)%Z then PyInt (total / n)
  else PyFloat (IZR total / IZR n).

Definition mean (data : list Z) : result pynum :=
  if (List.length data <? 1)%nat then Raise StatisticsError
  else convert (mean_num data).

(** The sum of the squared deviations from the mean. *)
Definition sum_sq_dev (data : list Z) : R :=
  let m := (IZR (py_sum data) / INR (List.length data))%R in
  fold_right (fun x acc => ((IZR x - m) * (IZR x - m) + acc)%R) 0%R data.

(** The value of [stdev] on two data points or more: the square root
    of the sample variance (divisor n - 1). *)
Definition stdev_num (data : list Z) : R :=
  sqrt (sum_sq_dev data / INR (List.length data - 1)).

Definition stdev (data : list Z) : result R :=
  if (List.length data <? 2)%nat then Raise StatisticsError
  else to_float (stdev_num data).

(** The value of [median] on data that is not empty: the middle element
    of the sorted data, or the true division by 2 of the sum of the two
    middle elements, a [float]. *)
Definition median_num (data : list Z) : pynum :=
  let data := sorted (fun x => x) data in
  let n := List.length data in
  if Nat.odd n then PyInt (nth (n / 2) data 0%Z)
  else
    let i := (n / 2)%nat in
    PyFloat (IZR (nth (i - 1) data 0%Z + nth i data 0%Z) / 2).

Definition median (data : list Z) : result pynum :=
  if (List.length data =? 0)%nat then Raise StatisticsError
  else convert (median_num data).

End Statistics.

(** ** Dictionaries used as counters *)

(** A [dict] keeps its keys in insertion order. *)
Module Dict.
Section ForKeys.
Variable K : Type.
Variable eqb : K -> K -> bool.

Definition t := list (K * nat).

  (** [d.get(k, default)] *)
Fixpoint get (k : K) (default : nat) (d : t) : nat :=
    match d with
    | [] => default
    | (k', v) :: d' => if eqb k k' then v else get k default d'
    end.

  (** [d[k] = v] *)
Fixpoint set (k : K) (v : nat) (d : t) : t :=
    match d with
    | [] => [(k, v)]
    | (k', v') :: d' =>
        if eqb k k' then (k', v) :: d' else (k', v') :: set k v d'
    end.

Definition values (d : t) : list nat := map snd d.

(** d[x] = d.get(x, 0) + 1 *)
Definition count_step (d : t) (x : K) : t := set x (get x 0 d + 1) d.

(** for x in xs: d[x] = d.get(x, 0) + 1 *)
Definition count_all (xs : list K) : t := fold_left count_step xs [].
End ForKeys.
End Dict.

(** ** calculate_entropy *)

Local Open Scope result_scope.

Definition calculate_entropy (address_list : list Z) : result R :=
  match address_list with
  | [] => Ok 0%R
  | _ :: _ =>
      let total := List.length address_list in
      let frequency := Dict.count_all Z.eqb address_list in
      fold_left
        (fun acc count =>
           entropy <- acc ;;
           p <- truediv (Z.of_nat count) (Z.of_nat total) ;;
           l <- log2 p ;;
           Ok (entropy - p * l)%R)
        (Dict.values frequency) (Ok 0%R)
  end.

(** ** extract_features *)

Definition extract_features (output : string) : result (list R) :=
  let iteration_matches := Re.findall Re.re_iteration output in
  let num_iterations := List.length iteration_matches in
  let segfault_matches := Re.findall Re.re_segfault output in
  let num_segfaults := List.length segfault_matches in
  segfault_ratio <-
    (if (0 <? num_iterations)%nat
     then truediv (Z.of_nat num_segfaults) (Z.of_nat num_iterations)
     else Ok 0%R) ;;
  let allocation_matches := Re.findall Re.re_allocating output in
  allocation_sizes <- map_result int10 allocation_matches ;;
  alloc <-
    match allocation_sizes with
    | _ :: _ =>
        avg_alloc <- truediv (py_sum allocation_sizes)
                       (Z.of_nat (List.length allocation_sizes)) ;;
        stdev_alloc <-
          (if (1 <? List.length allocation_sizes)%nat
           then Statistics.stdev allocation_sizes
           else Ok 0%R) ;;
        Ok (avg_alloc, stdev_alloc)
    | [] => Ok (0%R, 0%R)
    end ;;
  let hex_addresses := Re.findall Re.re_hex output in
  hex <-
    match hex_addresses with
    | _ :: _ =>
        let addresses_int := map int16 hex_addresses in
        hex_entropy <- calculate_entropy addresses_int ;;
        Ok (hex_entropy, len_set addresses_int)
    | [] => Ok (0%R, 0%nat)
    end ;;
  Ok [segfault_ratio; fst alloc; snd alloc; fst hex; INR (snd hex)].

(** ** interpret_address *)

Definition interpret_address (addr : Z) : string :=
  if (addr =? 0)%Z then "NULL pointer"
  else if (0x7ff000000000 <=? addr)%Z && (addr <=? 0x7fffffffffff)%Z
  then "Likely a stack address"
  else if (0x400000 <=? addr)%Z && (addr <? 0x800000)%Z
  then "Likely an address in the code (text) segment"
  else if (0x100000000 <=? addr)%Z && (addr <? 0x7ff000000000)%Z
  then "Likely a heap or global variable address"
  else "Unknown memory region".

(** ** The statements of the analysis report *)

(** One constructor for each statement that [analyze_scan_output] can
    append to [insights]; the arguments are the values that the statement
    interpolates. *)
Inductive insight : Type :=
| TotalIterations (n : nat)
| SegfaultCount (n : nat)
| SuccessfulIterations (z : Z)
| SegfaultRatio (r : R)
| NoIterationsDetected
| AverageAlloc (r : R)
| AllocRange (lo hi : Z)
| StdevAlloc (r : R)
| MedianAlloc (m : pynum)
| InsufficientAllocStats
| NoAllocData
| TotalHex (n : nat)
| UniqueHex (n : nat)
| AverageHex (formatted : string)
| MedianHex (formatted : string)
| StdevHex (r : R)
| InsufficientHexStats
| HexEntropy (r : R)
| NotEnoughHexData
| NoHexFound
| RepetitiveAlert
| RepeatedAddress (addr : string) (count : nat)
| NoRepetitive
| HighSegfaultWarning
| SegfaultWithinLimits
| InterpretationsHeader
| Interpretation (addr : string) (meaning : string)
| NullPointerInsight
| NoAddressesForInterpretation
| NullPageMapped
| NullPageFailed
| NullPageNotDetected.

(** ** Mutable state in the presence of exceptions *)

(** A computation reads and updates a state of type [S] (the list
    [insights], the variables of the loop) and returns or raises; what it
    has done to the state stays done when it raises. *)
Definition State (S A : Type) : Type := S -> S * result A.

Definition mret (S A : Type) (a : A) : State S A := fun s => (s, Ok a).

Definition mbind (S A B : Type) (c : State S A) (k : A -> State S B)
  : State S B :=
  fun s =>
    match c s with
    | (s', Ok a) => k a s'
    | (s', Raise e) => (s', Raise e)
    end.

Definition get (S : Type) : State S S := fun s => (s, Ok s).

Definition modify (S : Type) (f : S -> S) : State S unit :=
  fun s => (f s, Ok tt).

Definition lift (S A : Type) (r : result A) : State S A := fun s => (s, r).

(** try: body / except Exception: handler *)
Definition try_except (S A : Type) (body : State S A)
    (handler : exn -> State S A) : State S A :=
  fun s =>
    match body s with
    | (s', Ok a) => (s', Ok a)
    | (s', Raise e) => handler e s'
    end.

Arguments mret {S A} a.
Arguments get {S}.
Arguments lift {S A} r.

Declare Scope state_scope.
Delimit Scope state_scope with state.
Notation "x <- c ;; k" := (mbind c (fun x => k))
  (at level 61, c at next level, right associativity) : state_scope.
Notation "c ;;; k" := (mbind c (fun _ => k))
  (at level 61, right associativity) : state_scope.

(** The state of [analyze_scan_output] is the list [insights]. *)
Definition M (A : Type) : Type := State (list insight) A.

(** insights.append(i) *)
Definition append (i : insight) : M unit := modify (fun ins => ins ++ [i]).

Fixpoint for_each (A : Type) (f : A -> M unit) (l : list A) : M unit :=
  match l with
  | [] => mret tt
  | x :: l' => mbind (f x) (fun _ => for_each f l')
  end.

(** ** Iteration order of a [set] of strings *)

(** The order in which a [set] of [str] is iterated is not fixed by the
    language; all that is known is that every element comes exactly
    once. *)
Record set_order : Type := {
  iter_set : list string -> list string;
  iter_set_perm :
    forall l, Permutation (iter_set l) (dedup String.eqb l)
}.

Definition first_seen_order : set_order :=
  {| iter_set := dedup String.eqb;
     iter_set_perm := fun l => Permutation_refl _ |}.

(** ** analyze_scan_output *)

Section Analysis.
Variable so : set_order.

Local Open Scope state_scope.

Definition scan_insights (output : string) : M unit :=
    (* 1. Iteration Count Analysis *)
    let iteration_matches := Re.findall Re.re_iteration output in
    let num_iterations := List.length iteration_matches in
    append (TotalIterations num_iterations) ;;;
    (* 2. Segmentation Fault Analysis *)
    let segfault_matches := Re.findall Re.re_segfault output in
    let num_segfaults := List.length segfault_matches in
    append (SegfaultCount num_segfaults) ;;;
    (if (0 <? num_iterations)%nat then
       let success_iterations :=
         (Z.of_nat num_iterations - Z.of_nat num_segfaults)%Z in
       segfault_ratio <-
         lift (truediv (Z.of_nat num_segfaults) (Z.of_nat num_iterations)) ;;
       append (SuccessfulIterations success_iterations) ;;;
       append (SegfaultRatio segfault_ratio)
     else append NoIterationsDetected) ;;;
    (* 3. Memory Allocation Analysis *)
    let allocation_matches := Re.findall Re.re_allocating output in
    (allocation_sizes <- lift (map_result int10 allocation_matches) ;;
     match allocation_sizes with
     | _ :: _ =>
         avg_alloc <-
           lift (truediv (py_sum allocation_sizes)
                   (Z.of_nat (List.length allocation_sizes))) ;;
         let min_alloc := py_min allocation_sizes in
         let max_alloc := py_max allocation_sizes in
         append (AverageAlloc avg_alloc) ;;;
         append (AllocRange min_alloc max_alloc) ;;;
         if (1 <? List.length allocation_sizes)%nat then
           stdev_alloc <- lift (Statistics.stdev allocation_sizes) ;;
           median_alloc <- lift (Statistics.median allocation_sizes) ;;
           append (StdevAlloc stdev_alloc) ;;;
           append (MedianAlloc median_alloc)
         else append InsufficientAllocStats
     | [] => append NoAllocData
     end) ;;;
    (* 4. Hexadecimal Address Analysis *)
    let hex_addresses := Re.findall Re.re_hex output in
    match hex_addresses with
    | _ :: _ =>
        let addresses_int := map int16 hex_addresses in
        append (TotalHex (List.length hex_addresses)) ;;;
        append (UniqueHex (len_set addresses_int)) ;;;
        if (1 <? List.length addresses_int)%nat then
          try_except
            (avg_addr <- lift (Statistics.mean addresses_int) ;;
             std_dev_addr <- lift (Statistics.stdev addresses_int) ;;
             median_addr <- lift (Statistics.median addresses_int) ;;
             avg_text <- lift (format_016x avg_addr) ;;
             append (AverageHex avg_text) ;;;
             median_text <- lift (format_016x median_addr) ;;
             append (MedianHex median_text) ;;;
             append (StdevHex std_dev_addr))
            (fun _ => append InsufficientHexStats) ;;;
          entropy <- lift (calculate_entropy addresses_int) ;;
          append (HexEntropy entropy)
        else append NotEnoughHexData
    | [] => append NoHexFound
    end ;;;
    (* 5. Repetitive Hex Address Detection *)
    let address_frequency := Dict.count_all String.eqb hex_addresses in
    let repeated_addresses :=
      filter (fun item => (10 <? snd item)%nat) address_frequency in
    match repeated_addresses with
    | _ :: _ =>
        append RepetitiveAlert ;;;
        for_each (fun item => append (RepeatedAddress (fst item) (snd item)))
          repeated_addresses
    | [] => append NoRepetitive
    end ;;;
    (* 6. Advanced Warning Checks *)
    high <-
      (if (0 <? num_iterations)%nat then
         ratio <-
           lift (truediv (Z.of_nat num_segfaults) (Z.of_nat num_iterations)) ;;
         mret (if Rgt_dec ratio (3 / 10) then true else false)
       else mret false) ;;
    (if high : bool then append HighSegfaultWarning
     else append SegfaultWithinLimits) ;;;
    (* 7. Memory Address Interpretations *)
    match hex_addresses with
    | _ :: _ =>
        append InterpretationsHeader ;;;
        let unique_hex_addresses := sorted int16 (iter_set so hex_addresses) in
        for_each
          (fun addr =>
             let interpretation := interpret_address (int16 addr) in
             append (Interpretation addr interpretation))
          unique_hex_addresses ;;;
        if existsb (String.eqb "0x0") hex_addresses
        then append NullPointerInsight
        else mret tt
    | [] => append NoAddressesForInterpretation
    end ;;;
    (* 8. Null Page Mapping Check *)
    if Re.contains "(DEBUG) Successfully mapped null page" output
    then append NullPageMapped
    else if Re.contains "(DEBUG) Null page mapping attempt failed" output
    then append NullPageFailed
    else append NullPageNotDetected.

  (** The list [insights] at the end of [analyze_scan_output]. *)
Definition insights_of (output : string) : result (list insight) :=
    match scan_insights output [] with
    | (insights, Ok _) => Ok insights
    | (_, Raise e) => Raise e
    end.
End Analysis.

(** ** The text of the report *)

Section Report.
Variable so : set_order.
  (** The conversions of a [float] to text: format specifications [.2f]
      and [.2%], and [str]. *)
Variable fmt_2f : R -> string.
Variable fmt_2pct : R -> string.
Variable str_float : R -> string.

Local Open Scope string_scope.

Definition str_num (v : pynum) : string :=
    match v with
    | PyInt z => str_int z
    | PyFloat r => str_float r
    end.

Definition render (i : insight) : string :=
    match i with
    | TotalIterations n => "Total iterations completed: " ++ str_len n
    | SegfaultCount n =>
        "Number of segmentation faults encountered: " ++ str_len n
    | SuccessfulIterations z =>
        "Successful iterations without segmentation fault: " ++ str_int z
    | SegfaultRatio r => "Segmentation fault ratio: " ++ fmt_2pct r
    | NoIterationsDetected =>
        "No iterations detected for segfault ratio calculation."
    | AverageAlloc r =>
        "Average allocated memory size: " ++ fmt_2f r ++ " bytes"
    | AllocRange lo hi =>
        "Memory allocation range: " ++ str_int lo ++ " - " ++ str_int hi
        ++ " bytes"
    | StdevAlloc r =>
        "Standard deviation of allocated memory sizes: " ++ fmt_2f r
        ++ " bytes"
    | MedianAlloc m => "Median allocated memory size: " ++ str_num m ++ " bytes"
    | InsufficientAllocStats =>
        "Insufficient data for advanced allocation statistics."
    | NoAllocData => "No allocation size data found."
    | TotalHex n => "Total hex addresses extracted: " ++ str_len n
    | UniqueHex n => "Unique hex addresses: " ++ str_len n
    | AverageHex t => "Average hex address value: 0x" ++ t
    | MedianHex t => "Median hex address value: 0x" ++ t
    | StdevHex r => "Standard deviation of hex address values: " ++ fmt_2f r
    | InsufficientHexStats =>
        "Insufficient data for advanced hex address statistics."
    | HexEntropy r => "Entropy of hex address distribution: " ++ fmt_2f r
    | NotEnoughHexData => "Not enough hex address data to compute statistics."
    | NoHexFound => "No hex addresses found in the output."
    | RepetitiveAlert =>
        "Alert: The following hex addresses appear very frequently (possibly indicating a stable memory region):"
    | RepeatedAddress addr count =>
        "  " ++ addr ++ " appeared " ++ str_len count ++ " times"
    | NoRepetitive => "No highly repetitive hex address patterns detected."
    | HighSegfaultWarning =>
        "Warning: High frequency of segmentation faults detected. This may indicate unstable memory operations."
    | SegfaultWithinLimits =>
        "Segmentation fault frequency appears within expected limits."
    | InterpretationsHeader => "Memory Address Interpretations:"
    | Interpretation addr meaning => "  " ++ addr ++ " -> " ++ meaning
    | NullPointerInsight =>
        "Red Team Insight: NULL pointer (0x0) detected. May indicate potential for null pointer dereference exploits."
    | NoAddressesForInterpretation =>
        "No memory addresses available for interpretation."
    | NullPageMapped =>
        "Red Team Insight: Null page mapping successful. Exploits leveraging null pointer dereference may be feasible."
    | NullPageFailed =>
        "Red Team Warning: Null page mapping failed. OS-level protections appear active."
    | NullPageNotDetected =>
        "Red Team Warning: Null page mapping not detected. OS-level protections appear active."
    end.

Definition analyze_scan_output (output : string) : result string :=
    (insights <- insights_of so output ;;
     let analysis_report := join LF (map render insights) in
     Ok analysis_report)%result.
End Report.

(** ** perform_ml_analysis *)

Section MachineLearning.
  (** [IsolationForest] is [None] when the import failed.  Otherwise it
      stands for [IsolationForest(contamination=0.1, random_state=42)]
      fitted on its first argument and asked to predict its second one;
      the answer is -1 or 1, or an exception. *)
Variable IsolationForest : option (list (list R) -> list R -> result Z).
Variable str_vector : list R -> string.
Variable str_exn : exn -> string.

Local Open Scope string_scope.

Definition perform_ml_analysis (feature_vector : list R)
      (aggregated_features : list (list R)) : string :=
    match IsolationForest with
    | None =>
        "Machine Learning Module not available. Skipping ML-based anomaly detection."
    | Some fit_predict =>
        let ml_insights :=
          if (10 <=? List.length aggregated_features)%nat then
            match fit_predict aggregated_features feature_vector with
            | Ok prediction =>
                [ if (prediction =? -1)%Z
                  then "Machine Learning Alert: Current scan cycle is anomalous."
                  else "Machine Learning Analysis: Current scan cycle appears normal.";
                  "(DEBUG) Aggregated training samples: "
                  ++ str_len (List.length aggregated_features);
                  "(DEBUG) Current feature vector: "
                  ++ str_vector feature_vector ]
            | Raise e =>
                [ "Machine Learning Analysis encountered an error: "
                  ++ str_exn e ]
            end
          else
            [ "Machine Learning Analysis: Not enough data for robust anomaly detection (need at least 10 cycles).";
              "(DEBUG) Aggregated training samples so far: "
              ++ str_len (List.length aggregated_features) ]
        in
        join LF ml_insights
    end.
End MachineLearning.

(** ** One cycle of the supervisor *)

(** What the launched process and the operating system answer to the
    calls of one cycle, in the order in which [main] makes them. *)
Record target_behaviour : Type := {
  on_launch : result unit;              (* subprocess.Popen(...) *)
  on_sigterm : result unit;             (* os.kill(pid, SIGTERM) *)
  on_communicate : result string;       (* proc.communicate(timeout=3) *)
  on_sigkill : result unit;             (* os.kill(pid, SIGKILL) *)
  on_communicate_forced : result string (* proc.communicate(timeout=3) *)
}.

Local Open Scope result_scope.

(** Lines 507-523 of [main]: the value of [stdout] after the termination
    of the process, or the exception that leaves the cycle. *)
Definition terminate_and_collect (b : target_behaviour) : result string :=
  _ <- match on_sigterm b with
       | Ok _ => Ok tt
       | Raise ProcessLookupError => Ok tt
       | Raise e => Raise e
       end ;;
  match on_communicate b with
  | Ok stdout => Ok stdout
  | Raise (TimeoutExpired _) =>
      match (_ <- on_sigkill b ;; on_communicate_forced b) with
      | Ok stdout => Ok stdout
      | Raise _ => Ok EmptyString
      end
  | Raise e => Raise e
  end.

Definition run_cycle (b : target_behaviour) : result string :=
  _ <- on_launch b ;;
  terminate_and_collect b.

(** ** The scanning loop of [main] *)

(** What the loop prints: the prints that carry the data of a cycle and
    the messages that end the loop.  The [(DEBUG)] lines of the
    supervisor, the headings and the separators carry nothing that the
    properties need and are left out. *)
Inductive event : Type :=
| CycleBanner (cycle : nat)
| RawOutput (stdout : string)
| AnalysisReport (report : string)
| FeatureVector (v : list R)
| MLReport (report : string)
| QuitMessage
| CycleFooter
| InterruptMessage.

(** The variables of the loop, and the console. *)
Record loop_state : Type := {
  aggregated_features : list (list R);
  cycle : nat;
  console : list event
}.

Definition initial_state : loop_state :=
  {| aggregated_features := []; cycle := 0; console := [] |}.

Definition print (e : event) : State loop_state unit :=
  modify (fun st =>
            {| aggregated_features := aggregated_features st;
               cycle := cycle st;
               console := console st ++ [e] |}).

(** aggregated_features.append(v) *)
Definition append_features (v : list R) : State loop_state unit :=
  modify (fun st =>
            {| aggregated_features := aggregated_features st ++ [v];
               cycle := cycle st;
               console := console st |}).

(** cycle += 1 *)
Definition next_cycle : State loop_state unit :=
  modify (fun st =>
            {| aggregated_features := aggregated_features st;
               cycle := cycle st + 1;
               console := console st |}).

(** How the body of [while True] is left: it falls through to the next
    iteration, it executes [break], or a [KeyboardInterrupt] reaches
    it. *)
Inductive control : Type := Next | Break | KeyboardInterrupt.

(** The points of the body at which the variables of the loop and the
    console can be told apart when the user interrupts it. *)
Inductive interrupt_point : Type :=
| WhileSupervising  (* lines 501-523: launch, sleep, termination, collection *)
| WhileAnalysing    (* the text is printed: line 530 *)
| WhileExtracting   (* the report is printed: line 534 *)
| BeforeAppending   (* the vector is printed: line 537 *)
| WhileLearning     (* the vector is appended: line 538 *)
| WhileComparing    (* the learning report is printed: lines 542-545 *)
| AfterVerdict.     (* the quit message or the footer is printed *)

Definition interrupt_point_eqb (p q : interrupt_point) : bool :=
  match p, q with
  | WhileSupervising, WhileSupervising
  | WhileAnalysing, WhileAnalysing
  | WhileExtracting, WhileExtracting
  | BeforeAppending, BeforeAppending
  | WhileLearning, WhileLearning
  | WhileComparing, WhileComparing
  | AfterVerdict, AfterVerdict => true
  | _, _ => false
  end.

(** Whether the vector of the cycle is already in the history when the
    body is interrupted at a point: it is appended on line 538. *)
Definition vector_appended_before (p : interrupt_point) : bool :=
  match p with
  | WhileLearning | WhileComparing | AfterVerdict => true
  | _ => false
  end.

(** Where the user interrupts the loop once the processes of [targets]
    have had their cycles: before the banner of the next cycle (at the
    head of the loop or in the [time.sleep(2)] that precedes it), or at a
    point of the next cycle, run against one more process. *)
Inductive interruption : Type :=
| AtLoopHead
| InCycle (b : target_behaviour) (p : interrupt_point).

(** Lines 542-547: the test that ends the loop. *)
Definition converged (aggregated : list (list R)) : bool :=
  if (2 <=? List.length aggregated)%nat then
    let tolerance := (1 / 1000000)%R in
    let last := nth (List.length aggregated - 1) aggregated [] in
    let previous := nth (List.length aggregated - 2) aggregated [] in
    let differences :=
      map (fun xy => Rabs (fst xy - snd xy)) (combine last previous) in
    forallb (fun d => if Rlt_dec d tolerance then true else false) differences
  else false.

Inductive loop_exit : Type :=
| Converged
| Interrupted
| Propagated (e : exn).

Section Loop.
Variable so : set_order.
Variable fmt_2f fmt_2pct str_float : R -> string.
Variable IsolationForest : option (list (list R) -> list R -> result Z).
Variable str_vector : list R -> string.
Variable str_exn : exn -> string.

Local Open Scope state_scope.

(** The rest of the body from the point [p] on: the interrupt arrives
    there, or the body goes on. *)
Definition from_point (interrupt : option interrupt_point)
    (p : interrupt_point) (rest : State loop_state control)
  : State loop_state control :=
  match interrupt with
  | Some q => if interrupt_point_eqb p q then mret KeyboardInterrupt else rest
  | None => rest
  end.

(** The body of [while True]. *)
Definition scan_cycle (interrupt : option interrupt_point)
    (b : target_behaviour) : State loop_state control :=
  st <- get ;;
  print (CycleBanner (cycle st)) ;;;
  from_point interrupt WhileSupervising (
  stdout <- lift (run_cycle b) ;;
  print (RawOutput stdout) ;;;
  from_point interrupt WhileAnalysing (
  analysis_report <-
    lift (analyze_scan_output so fmt_2f fmt_2pct str_float stdout) ;;
  print (AnalysisReport analysis_report) ;;;
  from_point interrupt WhileExtracting (
  feature_vector <- lift (extract_features stdout) ;;
  print (FeatureVector feature_vector) ;;;
  from_point interrupt BeforeAppending (
  append_features feature_vector ;;;
  from_point interrupt WhileLearning (
  st <- get ;;
  let ml_report :=
    perform_ml_analysis IsolationForest str_vector str_exn
      feature_vector (aggregated_features st) in
  print (MLReport ml_report) ;;;
  from_point interrupt WhileComparing (
  if converged (aggregated_features st) then
    print QuitMessage ;;;
    from_point interrupt AfterVerdict (mret Break)
  else
    print CycleFooter ;;;
    from_point interrupt AfterVerdict (next_cycle ;;; mret Next))))))).

(** try: while True: body / except KeyboardInterrupt: print(...) *)
Definition leave_cycle (outcome : loop_state * result control)
    (continue : loop_state -> loop_state * loop_exit)
  : loop_state * loop_exit :=
  match outcome with
  | (st', Raise e) => (st', Propagated e)
  | (st', Ok Break) => (st', Converged)
  | (st', Ok Next) => continue st'
  | (st', Ok KeyboardInterrupt) =>
      (fst (print InterruptMessage st'), Interrupted)
  end.

(** The loop, run against the behaviours of the processes it launches
    one after the other; when they are exhausted the user interrupts
    the loop, at the point that [stop] gives. *)
Fixpoint scan_loop (targets : list target_behaviour) (stop : interruption)
    (st : loop_state) : loop_state * loop_exit :=
  match targets with
  | [] =>
      match stop with
      | AtLoopHead => (fst (print InterruptMessage st), Interrupted)
      | InCycle b p =>
          leave_cycle (scan_cycle (Some p) b st)
            (fun st' => (fst (print InterruptMessage st'), Interrupted))
      end
  | b :: rest =>
      leave_cycle (scan_cycle None b st) (scan_loop rest stop)
  end.

(** The cycles that have been started: the banners on the console. *)
Definition cycles_started (st : loop_state) : list nat :=
  flat_map (fun e => match e with CycleBanner n => [n] | _ => [] end)
    (console st).
End Loop.

(** ** Definitions used to state the properties *)

Definition Rsum (l : list R) : R := fold_right Rplus 0%R l.

(** The number of occurrences of [k] in [l]. *)
Fixpoint occ (A : Type) (eqb : A -> A -> bool) (k : A) (l : list A) : nat :=
  match l with
  | [] => 0
  | x :: l' => (if eqb k x then 1 else 0) + occ eqb k l'
  end.

(** The base-2 logarithm of a positive real. *)
Definition Rlog2 (x : R) : R := (ln x / ln 2)%R.

(** The entropy as the specification words it: with [n] the number of
    items and [f] the frequency map, minus the sum over the keys [k] of
    [f] of [(f[k]/n) * log2 (f[k]/n)]. *)
Definition entropy_formula (values : list Z) : R :=
  let n := List.length values in
  let f := fun k => occ Z.eqb k values in
  (- Rsum (map (fun k => (INR (f k) / INR n) * Rlog2 (INR (f k) / INR n))
             (dedup Z.eqb values)))%R.

(** One term of that sum, for an item that occurs [count] times among
    [total] items. *)
Definition plogp (total count : nat) : R :=
  (INR count / INR total * Rlog2 (INR count / INR total))%R.

(** The signals that the scans read off a text. *)
Definition iteration_count (output : string) : nat :=
  List.length (Re.findall Re.re_iteration output).

Definition recovery_count (output : string) : nat :=
  List.length (Re.findall Re.re_segfault output).

Definition allocation_sizes (output : string) : list Z :=
  map decimal_value (Re.findall Re.re_allocating output).

Definition hex_tokens (output : string) : list string :=
  Re.findall Re.re_hex output.

Definition address_tokens (output : string) : list Z :=
  map int16 (hex_tokens output).

(** The five features as functions of the signals. *)
Definition ratio_value (output : string) : R :=
  if (0 <? iteration_count output)%nat
  then (INR (recovery_count output) / INR (iteration_count output))%R
  else 0%R.

Definition mean_alloc_value (output : string) : R :=
  match allocation_sizes output with
  | [] => 0%R
  | _ :: _ =>
      (IZR (py_sum (allocation_sizes output))
       / INR (List.length (allocation_sizes output)))%R
  end.

Definition stdev_alloc_value (output : string) : R :=
  if (1 <? List.length (allocation_sizes output))%nat
  then Statistics.stdev_num (allocation_sizes output)
  else 0%R.

(** A value of the [statistics] module that is an [int], or a [float]
    within the range of the floats. *)
Definition representable (v : pynum) : Prop :=
  match v with
  | PyInt _ => True
  | PyFloat r => in_float_range r
  end.

(** The texts on which [extract_features] returns: every allocation size
    is written with at most 4300 digits, and the ratio, the mean and the
    deviation are within the range of the floats. *)
Definition features_defined (output : string) : Prop :=
  in_float_range (ratio_value output)
  /\ Forall (fun digits => (String.length digits <= int_max_str_digits)%nat)
       (Re.findall Re.re_allocating output)
  /\ in_float_range (mean_alloc_value output)
  /\ in_float_range (stdev_alloc_value output).

(** The texts on which [analyze_scan_output] returns: in addition, the
    median of the allocation sizes is within the range of the floats. *)
Definition analysis_defined (output : string) : Prop :=
  features_defined output
  /\ representable (Statistics.median_num (allocation_sizes output)).

(** The number of positions of [hay] at which [needle] occurs. *)
Fixpoint occurrences (needle hay : string) : nat :=
  ((match Re.strip_prefix needle hay with Some _ => 1 | None => 0 end)
   + match hay with
     | EmptyString => 0
     | String _ hay' => occurrences needle hay'
     end)%nat.

(** An allocation size of 400 digits, beyond the range of the floats. *)
Definition huge_size_digits : string :=
  "9999999999999999999999999999999999999999999999999999999999999999999999999999999999999999999999999999999999999999999999999999999999999999999999999999999999999999999999999999999999999999999999999999999999999999999999999999999999999999999999999999999999999999999999999999999999999999999999999999999999999999999999999999999999999999999999999999999999999999999999999999999999999999999999999999999999999999".

Definition huge_allocation_text : string :=
  ("Allocating " ++ huge_size_digits ++ " bytes")%string.

(** The address tokens of scenario C, followed by that allocation. *)
Definition scenario_C_overflow_text : string :=
  ("0xdeadbeef 0xdeadbeef 0xdeadbeef 0x0 0xdeadbeef 0xdeadbeef 0xdeadbeef 0xdeadbeef 0xdeadbeef 0xdeadbeef "
   ++ huge_allocation_text)%string.

(** The token [0x0], followed by that allocation. *)
Definition null_token_overflow_text : string :=
  ("0x0 " ++ huge_allocation_text)%string.

(** A text with two iteration markers, one recovery and three address
    tokens. *)
Definition sample_output : string :=
  ("Iteration 0: Caught segmentation fault" ++ LF
   ++ "Iteration 1: leaked 0x7ffd10 0x0 0x0" ++ LF
   ++ "(DEBUG) Null page mapping attempt failed")%string.

(** The text of scenario B. *)
Definition scenario_B_text : string :=
  ("Allocating 1024 bytes" ++ LF ++ "Allocating 3072 bytes" ++ LF)%string.

(** A process whose output is the same in every cycle. *)
Definition steady_output : string :=
  ("Iteration 0:" ++ LF ++ "Allocating 1024 bytes" ++ LF)%string.

Definition steady_target : target_behaviour :=
  {| on_launch := Ok tt;
     on_sigterm := Ok tt;
     on_communicate := Ok steady_output;
     on_sigkill := Ok tt;
     on_communicate_forced := Ok EmptyString |}.

(** A process that outlives both signals: each collection of its output
    times out, with the text read so far in the exception. *)
Definition stubborn_target : target_behaviour :=
  {| on_launch := Ok tt;
     on_sigterm := Ok tt;
     on_communicate := Raise (TimeoutExpired "Iteration 0:");
     on_sigkill := Ok tt;
     on_communicate_forced :=
       Raise (TimeoutExpired "Iteration 0: Allocating 1024 bytes") |}.

(** *** The report, block by block

    The statements that each numbered block of [analyze_scan_output]
    leaves in [insights], written as lists; [insights_of_report] below
    proves that the code appends exactly these. *)

Definition ratio_lines (num_iterations num_segfaults : nat) : list insight :=
  if (0 <? num_iterations)%nat then
    [ SuccessfulIterations (Z.of_nat num_iterations - Z.of_nat num_segfaults);
      SegfaultRatio (INR num_segfaults / INR num_iterations) ]
  else [NoIterationsDetected].

Definition allocation_lines (sizes : list Z) : list insight :=
  match sizes with
  | [] => [NoAllocData]
  | _ :: _ =>
      [ AverageAlloc (IZR (py_sum sizes) / INR (List.length sizes));
        AllocRange (py_min sizes) (py_max sizes) ]
      ++ (if (1 <? List.length sizes)%nat
          then [ StdevAlloc (Statistics.stdev_num sizes);
                 MedianAlloc (Statistics.median_num sizes) ]
          else [InsufficientAllocStats])
  end.

(** What the [try] block and its handler append: the three statistics
    are computed before anything is appended, and the first statement is
    appended before the second is formatted. *)
Definition hex_stat_lines (addresses_int : list Z) : list insight :=
  match Statistics.mean addresses_int, Statistics.stdev addresses_int,
        Statistics.median addresses_int with
  | Ok (PyInt avg), Ok std_dev, Ok (PyInt med) =>
      [ AverageHex (hex16 avg); MedianHex (hex16 med); StdevHex std_dev ]
  | Ok (PyInt avg), Ok _, Ok (PyFloat _) =>
      [ AverageHex (hex16 avg); InsufficientHexStats ]
  | _, _, _ => [InsufficientHexStats]
  end.

Definition hex_lines (tokens : list string) : list insight :=
  match tokens with
  | [] => [NoHexFound]
  | _ :: _ =>
      [ TotalHex (List.length tokens);
        UniqueHex (len_set (map int16 tokens)) ]
      ++ (if (1 <? List.length (map int16 tokens))%nat
          then hex_stat_lines (map int16 tokens)
               ++ [HexEntropy (entropy_formula (map int16 tokens))]
          else [NotEnoughHexData])
  end.

Definition repeated_addresses (tokens : list string) : Dict.t string :=
  filter (fun item => (10 <? snd item)%nat) (Dict.count_all String.eqb tokens).

Definition repetition_lines (tokens : list string) : list insight :=
  match repeated_addresses tokens with
  | [] => [NoRepetitive]
  | _ :: _ =>
      RepetitiveAlert
      :: map (fun item => RepeatedAddress (fst item) (snd item))
           (repeated_addresses tokens)
  end.

Definition high_ratio (num_iterations num_segfaults : nat) : bool :=
  if (0 <? num_iterations)%nat then
    if Rgt_dec (INR num_segfaults / INR num_iterations) (3 / 10)
    then true else false
  else false.

Definition warning_lines (num_iterations num_segfaults : nat) : list insight :=
  if high_ratio num_iterations num_segfaults
  then [HighSegfaultWarning] else [SegfaultWithinLimits].

Definition interpretation_lines (so : set_order) (tokens : list string)
  : list insight :=
  match tokens with
  | [] => [NoAddressesForInterpretation]
  | _ :: _ =>
      [InterpretationsHeader]
      ++ map (fun addr => Interpretation addr (interpret_address (int16 addr)))
           (sorted int16 (iter_set so tokens))
      ++ (if existsb (String.eqb "0x0") tokens
          then [NullPointerInsight] else [])
  end.

Definition null_page_lines (output : string) : list insight :=
  if Re.contains "(DEBUG) Successfully mapped null page" output
  then [NullPageMapped]
  else if Re.contains "(DEBUG) Null page mapping attempt failed" output
  then [NullPageFailed]
  else [NullPageNotDetected].

Definition report_lines (so : set_order) (output : string) : list insight :=
  [TotalIterations (iteration_count output)]
  ++ [SegfaultCount (recovery_count output)]
  ++ ratio_lines (iteration_count output) (recovery_count output)
  ++ allocation_lines (allocation_sizes output)
  ++ hex_lines (hex_tokens output)
  ++ repetition_lines (hex_tokens output)
  ++ warning_lines (iteration_count output) (recovery_count output)
  ++ interpretation_lines so (hex_tokens output)
  ++ null_page_lines output.

(** The numbered block of the source that appends a statement. *)
Definition block_of (i : insight) : nat :=
  match i with
  | TotalIterations _ => 1
  | SegfaultCount _ | SuccessfulIterations _ | SegfaultRatio _
  | NoIterationsDetected => 2
  | AverageAlloc _ | AllocRange _ _ | StdevAlloc _ | MedianAlloc _
  | InsufficientAllocStats | NoAllocData => 3
  | TotalHex _ | UniqueHex _ | AverageHex _ | MedianHex _ | StdevHex _
  | InsufficientHexStats | HexEntropy _ | NotEnoughHexData | NoHexFound => 4
  | RepetitiveAlert | RepeatedAddress _ _ | NoRepetitive => 5
  | HighSegfaultWarning | SegfaultWithinLimits => 6
  | InterpretationsHeader | Interpretation _ _ | NullPointerInsight
  | NoAddressesForInterpretation => 7
  | NullPageMapped | NullPageFailed | NullPageNotDetected => 8
  end.

(** [c] appends [ls] to [insights] and returns [a]. *)
Definition emits (A : Type) (c : M A) (a : A) (ls : list insight) : Prop :=
  forall ins, c ins = (ins ++ ls, Ok a).

(** [c] raises [e], whatever it has appended before. *)
Definition fails (A : Type) (c : M A) (e : exn) : Prop :=
  forall ins, exists ins', c ins = (ins', Raise e).

(** Every character of [s] is in the class [f]. *)
Fixpoint all_chars (f : ascii -> bool) (s : string) : bool :=
  match s with
  | EmptyString => true
  | String c s' => f c && all_chars f s'
  end.

(** The addresses that the report interprets, in the order of the
    report. *)
Definition interpreted_addresses (insights : list insight) : list string :=
  flat_map (fun i => match i with Interpretation addr _ => [addr] | _ => [] end)
    insights.

(** The feature vector of a text. *)
Definition feature_values (output : string) : list R :=
  [ ratio_value output; mean_alloc_value output; stdev_alloc_value output;
    entropy_formula (address_tokens output);
    INR (len_set (address_tokens output)) ].

(** Two vectors of five elements that the convergence test takes for
    equal. *)
Definition within_tolerance (v w : list R) : Prop :=
  forall i, (i < 5)%nat -> (Rabs (nth i v 0 - nth i w 0) < 1 / 1000000)%R.

(** * Properties *)

(** ** The range of the floats *)

Lemma float_limit_Z (z : Z) :
  (z <? 2 ^ 1024 - 2 ^ 970)%Z = true -> (IZR z < float_limit)%R.
Proof. intros H. apply IZR_lt. now apply Z.ltb_lt. Qed.

Lemma in_float_range_le (x : R) (z : Z) :
  (z <? 2 ^ 1024 - 2 ^ 970)%Z = true -> (Rabs x <= IZR z)%R ->
  in_float_range x.
Proof.
  intros Hz Hx. unfold in_float_range.
  eapply Rle_lt_trans; [exact Hx | now apply float_limit_Z].
Qed.

Lemma in_float_range_unit (x : R) : (0 <= x <= 1)%R -> in_float_range x.
Proof.
  intros Hx. apply (@in_float_range_le x 1); [reflexivity |].
  rewrite Rabs_pos_eq; lra.
Qed.

Lemma in_float_range_0 : in_float_range 0.
Proof. apply in_float_range_unit. lra. Qed.

Lemma in_float_range_dec (x : R) : {in_float_range x} + {~ in_float_range x}.
Proof. unfold in_float_range. apply Rlt_dec. Qed.

Lemma to_float_ok (x : R) : in_float_range x -> to_float x = Ok x.
Proof.
  intros H. unfold to_float.
  destruct (Rlt_dec (Rabs x) float_limit); [reflexivity | contradiction].
Qed.

Lemma to_float_overflow (x : R) :
  ~ in_float_range x -> to_float x = Raise OverflowError.
Proof.
  intros H. unfold to_float.
  destruct (Rlt_dec (Rabs x) float_limit); [contradiction | reflexivity].
Qed.

Lemma to_float_inv (x y : R) :
  to_float x = Ok y -> y = x /\ in_float_range x.
Proof.
  unfold to_float. destruct (Rlt_dec (Rabs x) float_limit); [| discriminate].
  intros H. inversion H. subst. split; [reflexivity | assumption].
Qed.

Lemma to_float_raise (x : R) (e : exn) :
  to_float x = Raise e -> e = OverflowError /\ ~ in_float_range x.
Proof.
  unfold to_float. destruct (Rlt_dec (Rabs x) float_limit); [discriminate |].
  intros H. inversion H. subst. split; [reflexivity | assumption].
Qed.

Lemma to_float_0 : to_float 0 = Ok 0%R.
Proof. apply to_float_ok, in_float_range_0. Qed.

(** ** Results and true division *)

Lemma truediv_nat (a b : nat) :
  b <> 0%nat ->
  truediv (Z.of_nat a) (Z.of_nat b) = to_float (INR a / INR b).
Proof.
  intros Hb. unfold truediv.
  destruct (Z.eqb_spec (Z.of_nat b) 0) as [E | _]; [lia |].
  now rewrite !INR_IZR_INZ.
Qed.

Lemma truediv_Z_nat (a : Z) (b : nat) :
  b <> 0%nat -> truediv a (Z.of_nat b) = to_float (IZR a / INR b).
Proof.
  intros Hb. unfold truediv.
  destruct (Z.eqb_spec (Z.of_nat b) 0) as [E | _]; [lia |].
  now rewrite INR_IZR_INZ.
Qed.

(** A frequency is within the range of the floats. *)
Lemma frequency_in_float_range (count total : nat) :
  (1 <= count <= total)%nat -> in_float_range (INR count / INR total).
Proof.
  intros [H1 H2]. apply in_float_range_unit.
  assert (Ht : (0 < INR total)%R) by (apply lt_0_INR; lia).
  assert (Hc : (0 < INR count)%R) by (apply lt_0_INR; lia).
  apply le_INR in H2. split.
  - left. now apply Rdiv_lt_0_compat.
  - apply Rmult_le_reg_r with (INR total); [assumption |].
    unfold Rdiv. rewrite Rmult_assoc, Rinv_l by lra. lra.
Qed.

(** ** Comprehensions that can raise *)

Lemma map_result_ok (A B : Type) (f : A -> result B) (g : A -> B)
    (l : list A) :
  (forall x, In x l -> f x = Ok (g x)) -> map_result f l = Ok (map g l).
Proof.
  induction l as [| x l IH]; intros H; [reflexivity |].
  cbn [map_result map]. rewrite (H x) by now left. cbn [rbind].
  rewrite IH by (intros y Hy; apply H; now right). reflexivity.
Qed.

Lemma int10_ok (digits : string) :
  (String.length digits <= int_max_str_digits)%nat ->
  int10 digits = Ok (decimal_value digits).
Proof.
  intros H. unfold int10.
  destruct (Nat.ltb_spec int_max_str_digits (String.length digits));
    [lia | reflexivity].
Qed.

Lemma int10_too_long (digits : string) :
  (int_max_str_digits < String.length digits)%nat ->
  int10 digits = Raise ValueError.
Proof.
  intros H. unfold int10.
  destruct (Nat.ltb_spec int_max_str_digits (String.length digits));
    [reflexivity | lia].
Qed.

(** The sizes are parsed when every run of digits is within the limit,
    and the comprehension raises [ValueError] otherwise. *)
Lemma map_int10_ok (tokens : list string) :
  Forall (fun digits => (String.length digits <= int_max_str_digits)%nat)
    tokens ->
  map_result int10 tokens = Ok (map decimal_value tokens).
Proof.
  intros H. apply map_result_ok. intros x Hx. apply int10_ok.
  rewrite Forall_forall in H. now apply H.
Qed.

Lemma map_int10_raise (tokens : list string) :
  ~ Forall (fun digits => (String.length digits <= int_max_str_digits)%nat)
      tokens ->
  map_result int10 tokens = Raise ValueError.
Proof.
  induction tokens as [| t ts IH]; intros H; [exfalso; apply H; constructor |].
  cbn [map_result].
  destruct (Nat.le_gt_cases (String.length t) int_max_str_digits) as [Ht | Ht].
  - rewrite int10_ok by assumption. cbn [rbind]. rewrite IH; [reflexivity |].
    intros Hts. apply H. now constructor.
  - now rewrite int10_too_long.
Qed.

Lemma sizes_parsed_dec (tokens : list string) :
  {Forall (fun digits => (String.length digits <= int_max_str_digits)%nat)
     tokens}
  + {~ Forall (fun digits => (String.length digits <= int_max_str_digits)%nat)
       tokens}.
Proof. apply Forall_dec. intros x. apply le_dec. Qed.

Lemma log2_pos (x : R) : (0 < x)%R -> log2 x = Ok (Rlog2 x).
Proof.
  intros Hx. unfold log2. destruct (Rle_dec x 0) as [H | _]; [lra | reflexivity].
Qed.

Lemma ln2_pos : (0 < ln 2)%R.
Proof. rewrite <- ln_1. apply ln_increasing; lra. Qed.

(** ** Collections without repetition *)

Section Collections.
Variable K : Type.
Variable eqb : K -> K -> bool.
Hypothesis eqb_eq : forall x y, eqb x y = true <-> x = y.

Lemma eqb_refl_K (x : K) : eqb x x = true.
Proof. now apply eqb_eq. Qed.

Lemma eqb_neq_K (x y : K) : x <> y -> eqb x y = false.
Proof.
  intros H. destruct (eqb x y) eqn:E; [| reflexivity].
  now apply eqb_eq in E.
Qed.

Lemma eqb_false_K (x y : K) : eqb x y = false -> x <> y.
Proof. intros E ->. now rewrite eqb_refl_K in E. Qed.

Lemma dedup_In (l : list K) (x : K) : In x (dedup eqb l) <-> In x l.
Proof.
  induction l as [| y l IH]; simpl; [tauto |].
  rewrite filter_In, IH. split.
  - intros [-> | [H _]]; auto.
  - intros [-> | H]; [now left |].
    destruct (eqb y x) eqn:E.
    + left. now apply eqb_eq.
    + right. now split.
Qed.

Lemma dedup_NoDup (l : list K) : NoDup (dedup eqb l).
Proof.
  induction l as [| y l IH]; simpl; constructor.
  - rewrite filter_In. intros [_ H]. now rewrite eqb_refl_K in H.
  - now apply NoDup_filter.
Qed.

Lemma occ_pos (k : K) (l : list K) : In k l -> (1 <= occ eqb k l)%nat.
Proof.
  induction l as [| x l IH]; simpl; [tauto |].
  intros [-> | H]; [rewrite eqb_refl_K; lia |].
  specialize (IH H). lia.
Qed.

Lemma occ_le_length (k : K) (l : list K) : (occ eqb k l <= List.length l)%nat.
Proof.
  induction l as [| x l IH]; simpl; [lia |]. destruct (eqb k x); lia.
Qed.

Lemma occ_zero (k : K) (l : list K) : ~ In k l -> occ eqb k l = 0%nat.
Proof.
  induction l as [| x l IH]; simpl; [reflexivity |].
  intros H. rewrite eqb_neq_K by (intros ->; tauto). apply IH. tauto.
Qed.

Lemma occ_app (k : K) (l1 l2 : list K) :
  occ eqb k (l1 ++ l2) = (occ eqb k l1 + occ eqb k l2)%nat.
Proof. induction l1 as [| x l1 IH]; simpl; [reflexivity | rewrite IH; lia]. Qed.

Lemma occ_NoDup (k : K) (l : list K) :
  NoDup l -> In k l -> occ eqb k l = 1%nat.
Proof.
  induction 1 as [| x l Hx Hl IH]; simpl; [tauto |].
  intros [-> | Hk].
  - rewrite eqb_refl_K, occ_zero; auto.
  - rewrite eqb_neq_K by (intros ->; tauto). now apply IH.
Qed.

Lemma occ_In (k : K) (l : list K) : occ eqb k l <> 0%nat -> In k l.
Proof.
  induction l as [| x l IH]; simpl; [congruence |].
  destruct (eqb k x) eqn:E.
  - intros _. left. symmetry. now apply eqb_eq.
  - intros H. right. now apply IH.
Qed.

(** *** The counter of [Dict.count_all] *)

Lemma get_set_same (k : K) (v dflt : nat) (d : Dict.t K) :
  Dict.get eqb k dflt (Dict.set eqb k v d) = v.
Proof.
  induction d as [| [k' v'] d IH]; simpl.
  - now rewrite eqb_refl_K.
  - destruct (eqb k k') eqn:E; simpl; now rewrite E.
Qed.

Lemma get_set_other (k k' : K) (v dflt : nat) (d : Dict.t K) :
  k <> k' -> Dict.get eqb k' dflt (Dict.set eqb k v d) = Dict.get eqb k' dflt d.
Proof.
  intros Hk. induction d as [| [k0 v0] d IH]; simpl.
  - rewrite eqb_neq_K; auto.
  - destruct (eqb k k0) eqn:E; simpl.
    + apply eqb_eq in E; subst k0. rewrite eqb_neq_K; auto.
    + now rewrite IH.
Qed.

Lemma keys_set_In (k k' : K) (v : nat) (d : Dict.t K) :
  In k' (map fst (Dict.set eqb k v d)) <-> k' = k \/ In k' (map fst d).
Proof.
  induction d as [| [k0 v0] d IH]; simpl.
  - intuition.
  - destruct (eqb k k0) eqn:E; simpl.
    + apply eqb_eq in E; subst k0. intuition.
    + rewrite IH. intuition.
Qed.

Lemma keys_set_NoDup (k : K) (v : nat) (d : Dict.t K) :
  NoDup (map fst d) -> NoDup (map fst (Dict.set eqb k v d)).
Proof.
  induction d as [| [k0 v0] d IH]; simpl; intros H.
  - constructor; [tauto | constructor].
  - inversion H as [| ? ? Hnotin Hd]; subst.
    destruct (eqb k k0) eqn:E; simpl.
    + now constructor.
    + constructor; [| now apply IH].
      rewrite keys_set_In. intros [-> | Hin]; [| tauto].
      now rewrite eqb_refl_K in E.
Qed.

Lemma count_fold_get (k : K) (xs : list K) (d : Dict.t K) :
  Dict.get eqb k 0 (fold_left (Dict.count_step eqb) xs d)
  = (Dict.get eqb k 0 d + occ eqb k xs)%nat.
Proof.
  revert d. induction xs as [| x xs IH]; intros d; simpl; [lia |].
  rewrite IH. unfold Dict.count_step at 1.
  destruct (eqb k x) eqn:E.
  - apply eqb_eq in E; subst x. rewrite get_set_same. lia.
  - rewrite get_set_other by (intros ->; now rewrite eqb_refl_K in E). lia.
Qed.

Lemma count_fold_keys_In (k : K) (xs : list K) (d : Dict.t K) :
  In k (map fst (fold_left (Dict.count_step eqb) xs d)) <-> In k (map fst d) \/ In k xs.
Proof.
  revert d. induction xs as [| x xs IH]; intros d; simpl; [tauto |].
  rewrite IH. unfold Dict.count_step. rewrite keys_set_In. intuition.
Qed.

Lemma count_fold_keys_NoDup (xs : list K) (d : Dict.t K) :
  NoDup (map fst d) -> NoDup (map fst (fold_left (Dict.count_step eqb) xs d)).
Proof.
  revert d. induction xs as [| x xs IH]; intros d H; simpl; [assumption |].
  apply IH. now apply keys_set_NoDup.
Qed.

Lemma values_by_get (d : Dict.t K) :
  NoDup (map fst d) ->
  Dict.values d = map (fun k => Dict.get eqb k 0 d) (map fst d).
Proof.
  induction d as [| [k v] d IH]; simpl; intros H; [reflexivity |].
  inversion H as [| ? ? Hnotin Hd]; subst.
  rewrite eqb_refl_K. f_equal.
  rewrite IH by assumption.
  apply map_ext_in. intros k' Hk'.
  rewrite eqb_neq_K; [reflexivity |]. intros ->. tauto.
Qed.

(** The counter built by the loop holds, for each distinct item, the
    number of its occurrences. *)
Lemma count_all_values (xs : list K) :
  Dict.values (Dict.count_all eqb xs)
  = map (fun k => occ eqb k xs) (map fst (Dict.count_all eqb xs)).
Proof.
  unfold Dict.count_all.
  rewrite values_by_get by (apply count_fold_keys_NoDup; constructor).
  apply map_ext. intros k. now rewrite count_fold_get.
Qed.

Lemma count_all_keys (xs : list K) :
  Permutation (map fst (Dict.count_all eqb xs)) (dedup eqb xs).
Proof.
  unfold Dict.count_all.
  apply NoDup_Permutation.
  - apply count_fold_keys_NoDup. constructor.
  - apply dedup_NoDup.
  - intros k. rewrite count_fold_keys_In, dedup_In. simpl. tauto.
Qed.

Lemma count_all_entry (xs : list K) (k : K) (v : nat) :
  In (k, v) (Dict.count_all eqb xs) -> In k xs /\ v = occ eqb k xs.
Proof.
  intros H.
  assert (Hk : In k (map fst (Dict.count_all eqb xs)))
    by (apply in_map_iff; now exists (k, v)).
  split.
  - apply (Permutation_in _ (count_all_keys xs)) in Hk.
    exact (proj1 (dedup_In xs k) Hk).
  - assert (Hnd : NoDup (map fst (Dict.count_all eqb xs))).
    { unfold Dict.count_all.
      apply count_fold_keys_NoDup. constructor. }
    assert (G : forall d : Dict.t K,
               NoDup (map fst d) -> In (k, v) d -> Dict.get eqb k 0 d = v).
    { induction d as [| [k0 v0] d IH]; simpl; [tauto |].
      intros Hd [E | Hin].
      - inversion E; subst. now rewrite eqb_refl_K.
      - inversion Hd as [| ? ? Hnotin Hd']; subst.
        rewrite eqb_neq_K; [now apply IH |].
        intros ->. apply Hnotin. apply in_map_iff. now exists (k0, v). }
    rewrite <- (G _ Hnd H).
    unfold Dict.count_all. now rewrite count_fold_get.
Qed.

Lemma dict_entry_of_key (k : K) (d : Dict.t K) :
  In k (map fst d) -> In (k, Dict.get eqb k 0 d) d.
Proof.
  induction d as [| [k0 v0] d IH]; simpl; [tauto |].
  destruct (eqb k k0) eqn:E.
  - intros _. left. apply eqb_eq in E. now subst.
  - intros [-> | H]; [now rewrite eqb_refl_K in E |]. right. now apply IH.
Qed.

Lemma count_all_entry_iff (xs : list K) (k : K) (v : nat) :
  In (k, v) (Dict.count_all eqb xs) <-> In k xs /\ v = occ eqb k xs.
Proof.
  split; [apply count_all_entry |]. intros [Hk ->].
  assert (Hkey : In k (map fst (Dict.count_all eqb xs)))
    by (unfold Dict.count_all; rewrite count_fold_keys_In; now right).
  apply dict_entry_of_key in Hkey.
  unfold Dict.count_all in Hkey at 1. rewrite count_fold_get in Hkey.
  exact Hkey.
Qed.

End Collections.

(** ** calculate_entropy *)

Lemma Rsum_perm (l l' : list R) : Permutation l l' -> Rsum l = Rsum l'.
Proof. induction 1; simpl; lra. Qed.

Lemma Rsum_const (A : Type) (c : R) (l : list A) :
  Rsum (map (fun _ => c) l) = (INR (List.length l) * c)%R.
Proof.
  induction l as [| x l IH]; [simpl; lra |].
  change (Rsum (map (fun _ => c) (x :: l))) with (c + Rsum (map (fun _ => c) l))%R.
  rewrite IH. change (List.length (x :: l)) with (S (List.length l)).
  rewrite S_INR. lra.
Qed.

Lemma entropy_fold (total : nat) (vs : list nat) (e0 : R) :
  total <> 0%nat ->
  Forall (fun v => (1 <= v <= total)%nat) vs ->
  fold_left
    (fun acc count =>
       entropy <- acc ;;
       p <- truediv (Z.of_nat count) (Z.of_nat total) ;;
       l <- log2 p ;;
       Ok (entropy - p * l)%R)
    vs (Ok e0)
  = Ok (e0 - Rsum (map (plogp total) vs))%R.
Proof.
  intros Ht Hvs. revert e0.
  induction Hvs as [| v vs Hv _ IH]; intros e0; simpl.
  - f_equal. lra.
  - rewrite truediv_nat by assumption.
    rewrite to_float_ok by now apply frequency_in_float_range.
    simpl. rewrite log2_pos.
    + simpl. rewrite IH. f_equal. unfold plogp. lra.
    + apply Rdiv_lt_0_compat; apply lt_0_INR; lia.
Qed.

Lemma plogp_nonpos (total count : nat) :
  (1 <= count <= total)%nat -> (plogp total count <= 0)%R.
Proof.
  intros [H1 H2]. unfold plogp, Rlog2.
  assert (Ht : (0 < INR total)%R) by (apply lt_0_INR; lia).
  assert (Hc : (0 < INR count)%R) by (apply lt_0_INR; lia).
  assert (Hle : (INR count <= INR total)%R) by (apply le_INR; lia).
  assert (Hp : (0 < INR count / INR total)%R) by now apply Rdiv_lt_0_compat.
  assert (Hp1 : (INR count / INR total <= 1)%R).
  { apply Rmult_le_reg_r with (INR total); [assumption |].
    unfold Rdiv. rewrite Rmult_assoc, Rinv_l by lra. lra. }
  assert (Hln : (ln (INR count / INR total) <= 0)%R).
  { rewrite <- ln_1. destruct Hp1 as [Hlt | ->]; [| lra].
    left. now apply ln_increasing. }
  pose proof ln2_pos as H2'.
  assert (Hq : (ln (INR count / INR total) / ln 2 <= 0)%R).
  { unfold Rdiv at 1. rewrite <- (Rmult_0_l (/ ln 2)).
    apply Rmult_le_compat_r; [| assumption].
    left. now apply Rinv_0_lt_compat. }
  rewrite <- (Rmult_0_r (INR count / INR total)).
  apply Rmult_le_compat_l; lra.
Qed.

Lemma Rsum_nonpos (l : list R) :
  Forall (fun x => (x <= 0)%R) l -> (Rsum l <= 0)%R.
Proof. induction 1; simpl; lra. Qed.

(** The value computed by the loops of [calculate_entropy] is the sum of
    the specification, and no call made on the way raises. *)
Lemma calculate_entropy_formula (values : list Z) :
  calculate_entropy values = Ok (entropy_formula values).
Proof.
  destruct values as [| x l] eqn:E.
  - simpl. unfold entropy_formula. simpl. f_equal. lra.
  - rewrite <- E. assert (Hne : List.length values <> 0%nat) by (subst; simpl; lia).
    assert (Hcalc : calculate_entropy values
      = fold_left
          (fun acc count =>
             entropy <- acc ;;
             p <- truediv (Z.of_nat count) (Z.of_nat (List.length values)) ;;
             l <- log2 p ;;
             Ok (entropy - p * l)%R)
          (Dict.values (Dict.count_all Z.eqb values)) (Ok 0%R))
      by (subst; reflexivity).
    rewrite Hcalc, entropy_fold; [| assumption |].
    + f_equal. unfold entropy_formula.
      rewrite (count_all_values Z.eqb Z.eqb_eq), map_map.
      rewrite (Rsum_perm
                 (Permutation_map
                    (fun k => plogp (List.length values) (occ Z.eqb k values))
                    (count_all_keys Z.eqb Z.eqb_eq values))).
      unfold plogp. lra.
    + rewrite (count_all_values Z.eqb Z.eqb_eq).
      apply Forall_forall. intros v Hv.
      apply in_map_iff in Hv as [k [<- Hk]].
      split; [| apply occ_le_length].
      apply (occ_pos Z.eqb Z.eqb_eq).
      apply (Permutation_in _ (count_all_keys Z.eqb Z.eqb_eq values)) in Hk.
      exact (proj1 (dedup_In Z.eqb Z.eqb_eq values k) Hk).
Qed.

Lemma entropy_formula_nonneg (values : list Z) :
  (0 <= entropy_formula values)%R.
Proof.
  unfold entropy_formula.
  enough (Rsum (map (fun k => plogp (List.length values) (occ Z.eqb k values))
                  (dedup Z.eqb values)) <= 0)%R by (unfold plogp in *; lra).
  apply Rsum_nonpos, Forall_forall. intros t Ht.
  apply in_map_iff in Ht as [k [<- Hk]].
  apply plogp_nonpos. split.
  - apply (occ_pos Z.eqb Z.eqb_eq).
    exact (proj1 (dedup_In Z.eqb Z.eqb_eq values k) Hk).
  - apply occ_le_length.
Qed.

Lemma entropy_formula_distinct (values : list Z) :
  values <> [] -> NoDup values ->
  entropy_formula values = Rlog2 (INR (List.length values)).
Proof.
  intros Hne Hnd. unfold entropy_formula.
  set (n := List.length values).
  assert (Hn : (0 < INR n)%R).
  { apply lt_0_INR. subst n. destruct values; [congruence | simpl; lia]. }
  rewrite (map_ext_in _ (fun _ => (1 / INR n * Rlog2 (1 / INR n))%R)).
  - rewrite Rsum_const.
    assert (Hlen : List.length (dedup Z.eqb values) = n).
    { apply Permutation_length, NoDup_Permutation;
        [apply (dedup_NoDup Z.eqb Z.eqb_eq) | assumption |].
      intros k. apply (dedup_In Z.eqb Z.eqb_eq). }
    rewrite Hlen. unfold Rlog2.
    replace (1 / INR n)%R with (/ INR n)%R by lra.
    rewrite ln_Rinv by assumption.
    field. split; [| lra]. pose proof ln2_pos. lra.
  - intros k Hk.
    rewrite (@occ_NoDup _ Z.eqb Z.eqb_eq k values Hnd)
      by exact (proj1 (dedup_In Z.eqb Z.eqb_eq values k) Hk).
    reflexivity.
Qed.

(** C6. [calculate_entropy] returns 0.0 on the empty sequence and on a
    sequence of one item; on a sequence of [n] items with frequency map
    [f] it returns minus the sum over the keys of [(f[k]/n) * log2
    (f[k]/n)] and so never raises; on [n >= 1] pairwise distinct items it
    returns [log2 n]. *)
Theorem calculate_entropy_contract :
  calculate_entropy [] = Ok 0%R
  /\ (forall x, calculate_entropy [x] = Ok 0%R)
  /\ (forall values, calculate_entropy values = Ok (entropy_formula values))
  /\ (forall values,
        values <> [] -> NoDup values ->
        calculate_entropy values = Ok (Rlog2 (INR (List.length values)))).
Proof.
  split; [reflexivity |]. split; [| split].
  - intros x. rewrite calculate_entropy_formula, entropy_formula_distinct.
    + simpl. unfold Rlog2. rewrite ln_1. f_equal. lra.
    + discriminate.
    + constructor; [simpl; tauto | constructor].
  - apply calculate_entropy_formula.
  - intros values Hne Hnd.
    now rewrite calculate_entropy_formula, entropy_formula_distinct.
Qed.

Lemma calculate_entropy_contract_witness :
  calculate_entropy [10; 20; 30; 40]%Z = Ok (Rlog2 (INR 4)).
Proof.
  apply (proj2 (proj2 (proj2 calculate_entropy_contract)) [10; 20; 30; 40]%Z).
  - discriminate.
  - repeat constructor; simpl; intuition discriminate.
Defined.

(** ** extract_features *)

Lemma entropy_formula_nil : entropy_formula [] = 0%R.
Proof. unfold entropy_formula. simpl. lra. Qed.

Lemma stdev_ok (data : list Z) :
  (1 <? List.length data)%nat = true ->
  Statistics.stdev data = to_float (Statistics.stdev_num data).
Proof.
  intros H. apply Nat.ltb_lt in H. unfold Statistics.stdev.
  destruct (Nat.ltb_spec (List.length data) 2); [lia | reflexivity].
Qed.

(** The guarded division of the two counts is the conversion of the
    exact ratio. *)
Lemma ratio_step (ni ns : nat) :
  (if (0 <? ni)%nat then truediv (Z.of_nat ns) (Z.of_nat ni) else Ok 0%R)
  = to_float (if (0 <? ni)%nat then INR ns / INR ni else 0).
Proof.
  destruct (Nat.ltb_spec 0 ni); [apply truediv_nat; lia |].
  now rewrite to_float_0.
Qed.

(** The mean and the deviation of the sizes are the conversions of the
    exact values. *)
Lemma alloc_step (sizes : list Z) :
  match sizes with
  | _ :: _ =>
      avg_alloc <- truediv (py_sum sizes) (Z.of_nat (List.length sizes)) ;;
      stdev_alloc <-
        (if (1 <? List.length sizes)%nat
         then Statistics.stdev sizes else Ok 0%R) ;;
      Ok (avg_alloc, stdev_alloc)
  | [] => Ok (0%R, 0%R)
  end
  = (m <- to_float
            match sizes with
            | [] => 0
            | _ :: _ => IZR (py_sum sizes) / INR (List.length sizes)
            end ;;
     s <- to_float
            (if (1 <? List.length sizes)%nat
             then Statistics.stdev_num sizes else 0) ;;
     Ok (m, s)).
Proof.
  destruct sizes as [| z zs] eqn:E.
  - cbn [List.length Nat.ltb Nat.leb]. rewrite to_float_0. reflexivity.
  - rewrite <- E. rewrite truediv_Z_nat by (subst; simpl; lia).
    destruct (1 <? List.length sizes)%nat eqn:E1.
    + now rewrite stdev_ok.
    + now rewrite to_float_0.
Qed.

(** [extract_features] makes four steps that can raise, in this order;
    when all of them return, its vector is made of the five values of
    [feature_values]. *)
Lemma extract_features_eval (output : string) :
  extract_features output
  = (_ <- to_float (ratio_value output) ;;
     _ <- map_result int10 (Re.findall Re.re_allocating output) ;;
     _ <- to_float (mean_alloc_value output) ;;
     _ <- to_float (stdev_alloc_value output) ;;
     Ok (feature_values output)).
Proof.
  unfold extract_features, feature_values, ratio_value, mean_alloc_value,
    stdev_alloc_value, address_tokens, hex_tokens, allocation_sizes,
    iteration_count, recovery_count.
  set (ni := List.length (Re.findall Re.re_iteration output)).
  set (ns := List.length (Re.findall Re.re_segfault output)).
  set (tokens := Re.findall Re.re_allocating output).
  set (toks := Re.findall Re.re_hex output).
  clearbody ni ns tokens toks.
  rewrite ratio_step.
  destruct (to_float (if (0 <? ni)%nat then INR ns / INR ni else 0))
    as [r | e] eqn:Er; cbn [rbind]; [| reflexivity].
  apply to_float_inv in Er as [-> _].
  destruct (sizes_parsed_dec tokens) as [Hp | Hp];
    [rewrite (map_int10_ok Hp) | now rewrite (map_int10_raise Hp)].
  cbn [rbind]. rewrite alloc_step.
  set (sizes := map decimal_value tokens). clearbody sizes.
  destruct (to_float match sizes with
                     | [] => 0
                     | _ :: _ => IZR (py_sum sizes) / INR (List.length sizes)
                     end) as [m | e] eqn:Em; cbn [rbind]; [| reflexivity].
  apply to_float_inv in Em as [-> _].
  destruct (to_float (if (1 <? List.length sizes)%nat
                      then Statistics.stdev_num sizes else 0))
    as [sd | e] eqn:Es; cbn [rbind fst snd]; [| reflexivity].
  apply to_float_inv in Es as [-> _].
  destruct toks as [| t ts] eqn:E.
  - cbn [rbind fst snd map]. now rewrite entropy_formula_nil.
  - rewrite <- E. rewrite calculate_entropy_formula. reflexivity.
Qed.

Lemma extract_features_defined (output : string) :
  features_defined output ->
  extract_features output = Ok (feature_values output).
Proof.
  intros (Hr & Hp & Hm & Hs). rewrite extract_features_eval.
  rewrite (to_float_ok Hr), (map_int10_ok Hp), (to_float_ok Hm),
    (to_float_ok Hs).
  reflexivity.
Qed.

Lemma extract_features_undefined (output : string) :
  ~ features_defined output ->
  exists e, extract_features output = Raise e
            /\ (e = ValueError \/ e = OverflowError).
Proof.
  intros Hnot. rewrite extract_features_eval.
  destruct (in_float_range_dec (ratio_value output)) as [Hr | Hr];
    [rewrite (to_float_ok Hr)
    | rewrite (to_float_overflow Hr); exists OverflowError; auto].
  destruct (sizes_parsed_dec (Re.findall Re.re_allocating output))
    as [Hp | Hp];
    [rewrite (map_int10_ok Hp)
    | rewrite (map_int10_raise Hp); exists ValueError; auto].
  destruct (in_float_range_dec (mean_alloc_value output)) as [Hm | Hm];
    [rewrite (to_float_ok Hm)
    | rewrite (to_float_overflow Hm); exists OverflowError; auto].
  destruct (in_float_range_dec (stdev_alloc_value output)) as [Hs | Hs];
    [| rewrite (to_float_overflow Hs); exists OverflowError; auto].
  exfalso. apply Hnot. repeat split; assumption.
Qed.

Lemma features_defined_dec (output : string) :
  {features_defined output} + {~ features_defined output}.
Proof.
  unfold features_defined.
  destruct (in_float_range_dec (ratio_value output)); [| right; tauto].
  destruct (sizes_parsed_dec (Re.findall Re.re_allocating output));
    [| right; tauto].
  destruct (in_float_range_dec (mean_alloc_value output)); [| right; tauto].
  destruct (in_float_range_dec (stdev_alloc_value output)); [| right; tauto].
  left. tauto.
Qed.

Lemma extract_features_ok (output : string) (v : list R) :
  extract_features output = Ok v ->
  v = feature_values output /\ features_defined output.
Proof.
  intros H. destruct (features_defined_dec output) as [Hd | Hd].
  - rewrite (extract_features_defined Hd) in H. inversion H. now split.
  - destruct (extract_features_undefined Hd) as (e & He & _). congruence.
Qed.

Lemma extract_features_raise (output : string) (e : exn) :
  extract_features output = Raise e ->
  (e = ValueError \/ e = OverflowError) /\ ~ features_defined output.
Proof.
  intros H. destruct (features_defined_dec output) as [Hd | Hd].
  - rewrite (extract_features_defined Hd) in H. discriminate.
  - destruct (extract_features_undefined Hd) as (e' & He & Hk).
    split; [congruence | assumption].
Qed.

(** A text without allocation marker whose recovery markers are not more
    numerous than its iteration markers is within the domain. *)
Lemma features_defined_without_sizes (output : string) :
  Re.findall Re.re_allocating output = [] ->
  (recovery_count output <= iteration_count output)%nat ->
  features_defined output.
Proof.
  intros Hnone Hle. unfold features_defined, mean_alloc_value,
    stdev_alloc_value, allocation_sizes.
  rewrite Hnone. cbn [map List.length Nat.ltb Nat.leb].
  split; [| split; [constructor | split; apply in_float_range_0]].
  unfold ratio_value.
  destruct (Nat.ltb_spec 0 (iteration_count output));
    [| apply in_float_range_0].
  apply in_float_range_unit.
  assert (Hi : (0 < INR (iteration_count output))%R) by now apply lt_0_INR.
  apply le_INR in Hle. split.
  - apply Rmult_le_pos; [apply pos_INR |]. left. now apply Rinv_0_lt_compat.
  - apply Rmult_le_reg_r with (INR (iteration_count output)); [assumption |].
    unfold Rdiv. rewrite Rmult_assoc, Rinv_l by lra. lra.
Qed.

Lemma digit_val_nonneg (c : ascii) : (0 <= digit_val c)%Z.
Proof.
  unfold digit_val.
  repeat match goal with
         | |- context [if ?b then _ else _] => destruct b eqn:?
         end; lia.
Qed.

Lemma digits_acc_nonneg (base acc : Z) (s : string) :
  (0 <= base)%Z -> (0 <= acc)%Z -> (0 <= digits_acc base acc s)%Z.
Proof.
  intros Hb. revert acc.
  induction s as [| c s IH]; intros acc Ha; cbn [digits_acc].
  - assumption.
  - apply IH. apply Z.add_nonneg_nonneg.
    + now apply Z.mul_nonneg_nonneg.
    + apply digit_val_nonneg.
Qed.

Lemma sum_nonneg (l : list Z) :
  Forall (fun z => (0 <= z)%Z) l -> (0 <= py_sum l)%Z.
Proof.
  assert (G : forall (l : list Z) (a : Z),
             Forall (fun z => (0 <= z)%Z) l -> (a <= fold_left Z.add l a)%Z).
  { clear l. induction l as [| x l IH]; intros a H; simpl; [lia |].
    inversion H as [| ? ? Hx Hl]; subst. specialize (IH (a + x)%Z Hl). lia. }
  intros H. unfold py_sum. now apply G.
Qed.

Lemma allocation_sizes_nonneg (output : string) :
  Forall (fun z => (0 <= z)%Z) (allocation_sizes output).
Proof.
  unfold allocation_sizes. apply Forall_forall. intros z Hz.
  apply in_map_iff in Hz as [t [<- _]].
  unfold decimal_value. apply digits_acc_nonneg; lia.
Qed.

Lemma ratio_value_nonneg (output : string) : (0 <= ratio_value output)%R.
Proof.
  unfold ratio_value. destruct (Nat.ltb_spec 0 (iteration_count output)); [| lra].
  apply Rmult_le_pos; [apply pos_INR |].
  left. apply Rinv_0_lt_compat, lt_0_INR. assumption.
Qed.

Lemma ratio_value_le_1 (output : string) :
  (recovery_count output <= iteration_count output)%nat ->
  (ratio_value output <= 1)%R.
Proof.
  intros H. unfold ratio_value.
  destruct (Nat.ltb_spec 0 (iteration_count output)) as [Hpos |]; [| lra].
  apply lt_0_INR in Hpos. apply le_INR in H.
  apply Rmult_le_reg_r with (INR (iteration_count output)); [assumption |].
  unfold Rdiv. rewrite Rmult_assoc, Rinv_l by lra. lra.
Qed.

Lemma mean_alloc_value_nonneg (output : string) :
  (0 <= mean_alloc_value output)%R.
Proof.
  unfold mean_alloc_value.
  destruct (allocation_sizes output) as [| z zs] eqn:E; [lra |]. rewrite <- E.
  apply Rmult_le_pos.
  - apply IZR_le, sum_nonneg, allocation_sizes_nonneg.
  - left. apply Rinv_0_lt_compat, lt_0_INR. rewrite E. simpl. lia.
Qed.

Lemma stdev_alloc_value_nonneg (output : string) :
  (0 <= stdev_alloc_value output)%R.
Proof.
  unfold stdev_alloc_value, Statistics.stdev_num.
  destruct (1 <? _)%nat; [apply sqrt_pos | lra].
Qed.

(** C9. Every element of a feature vector that [extract_features]
    returns is non-negative, whatever the text. *)
Theorem extract_features_nonneg (output : string) (v : list R) :
  extract_features output = Ok v ->
  exists r m s e u : R,
    v = [r; m; s; e; u]
    /\ (0 <= r)%R /\ (0 <= m)%R /\ (0 <= s)%R /\ (0 <= e)%R /\ (0 <= u)%R.
Proof.
  intros H. apply extract_features_ok in H as [-> _].
  do 5 eexists. split; [reflexivity |].
  repeat split.
  - apply ratio_value_nonneg.
  - apply mean_alloc_value_nonneg.
  - apply stdev_alloc_value_nonneg.
  - apply entropy_formula_nonneg.
  - apply pos_INR.
Qed.

Lemma extract_features_nonneg_witness :
  exists r m s e u : R,
    extract_features "Iteration 0: Caught segmentation fault at 0x7ffd10 0x0"
    = Ok [r; m; s; e; u]
    /\ (0 <= r)%R /\ (0 <= m)%R /\ (0 <= s)%R /\ (0 <= e)%R /\ (0 <= u)%R.
Proof.
  assert (Hd : features_defined
                 "Iteration 0: Caught segmentation fault at 0x7ffd10 0x0").
  { apply features_defined_without_sizes; [reflexivity | vm_compute; lia]. }
  destruct (@extract_features_nonneg _ _ (extract_features_defined Hd))
    as (r & m & s & e & u & Hv & H).
  exists r, m, s, e, u. split; [| exact H].
  rewrite (extract_features_defined Hd). now f_equal.
Defined.

(** C1, as the code has it.  [extract_features] returns exactly on the
    texts of [features_defined], and raises [ValueError] or
    [OverflowError] on the others.  What it returns is a vector of five
    elements; the recovery ratio is non-negative, and it is at most 1
    when the recovery markers are not more numerous than the iteration
    markers; the ratio is 0 without iteration markers, the mean and the
    deviation are 0 without allocation sizes, the entropy and the number
    of distinct addresses are 0 without address tokens. *)
Theorem extract_features_vector (output : string) :
  ((exists v, extract_features output = Ok v) <-> features_defined output)
  /\ (forall e, extract_features output = Raise e ->
                e = ValueError \/ e = OverflowError)
  /\ (forall v,
        extract_features output = Ok v ->
        exists r m s e u : R,
          v = [r; m; s; e; u]
          /\ (0 <= r)%R
          /\ ((recovery_count output <= iteration_count output)%nat ->
              (r <= 1)%R)
          /\ (iteration_count output = 0%nat -> r = 0%R)
          /\ (allocation_sizes output = [] -> m = 0%R /\ s = 0%R)
          /\ (address_tokens output = [] -> e = 0%R /\ u = 0%R)).
Proof.
  split; [| split].
  - split.
    + intros [v H]. now apply extract_features_ok in H.
    + intros H. eexists. now apply extract_features_defined.
  - intros e H. now apply extract_features_raise in H.
  - intros v H. apply extract_features_ok in H as [-> _].
    do 5 eexists. split; [reflexivity |].
    split; [apply ratio_value_nonneg |].
    split; [apply ratio_value_le_1 |].
    split; [| split].
    + intros H. unfold ratio_value. now rewrite H.
    + intros H. unfold mean_alloc_value, stdev_alloc_value. now rewrite H.
    + intros H. rewrite H. split; [apply entropy_formula_nil | reflexivity].
Qed.

Lemma extract_features_vector_witness :
  exists r m s e u : R,
    extract_features "Iteration 0: Caught segmentation fault" = Ok [r; m; s; e; u]
    /\ (r <= 1)%R /\ m = 0%R /\ s = 0%R /\ e = 0%R /\ u = 0%R.
Proof.
  destruct (extract_features_vector "Iteration 0: Caught segmentation fault")
    as (Hiff & _ & Hv).
  assert (Hd : features_defined "Iteration 0: Caught segmentation fault")
    by (apply features_defined_without_sizes; [reflexivity | vm_compute; lia]).
  destruct (proj2 Hiff Hd) as [v Hret].
  destruct (Hv v Hret) as (r & m & s & e & u & -> & _ & Hle & _ & Halloc & Hhex).
  exists r, m, s, e, u. split; [exact Hret |].
  split; [apply Hle; vm_compute; lia |].
  destruct (Halloc eq_refl) as [Hm Hs]. destruct (Hhex eq_refl) as [He Hu].
  repeat split; assumption.
Defined.

(** C1 as stated fails: with one iteration marker and two recovery
    markers the recovery ratio is 2. *)
Lemma recovery_ratio_above_one :
  exists v : list R,
    extract_features
      "Iteration 0: Caught segmentation fault, Caught segmentation fault"
    = Ok v
    /\ nth 0 v 0%R = 2%R
    /\ ~ (0 <= nth 0 v 0 <= 1)%R.
Proof.
  set (text := "Iteration 0: Caught segmentation fault, Caught segmentation fault"%string).
  assert (Hi : iteration_count text = 1%nat) by reflexivity.
  assert (Hr : recovery_count text = 2%nat) by reflexivity.
  assert (Hratio : ratio_value text = 2%R).
  { unfold ratio_value. rewrite Hi, Hr. cbn [Nat.ltb Nat.leb INR]. lra. }
  assert (Hd : features_defined text).
  { unfold features_defined, mean_alloc_value, stdev_alloc_value.
    assert (Hnone : Re.findall Re.re_allocating text = []) by reflexivity.
    assert (Hsizes : allocation_sizes text = []) by reflexivity.
    rewrite Hratio, Hnone, Hsizes. cbn [List.length Nat.ltb Nat.leb].
    split; [| split; [constructor | split; apply in_float_range_0]].
    apply (@in_float_range_le 2 2); [reflexivity |].
    rewrite Rabs_pos_eq; lra. }
  exists (feature_values text). split; [now apply extract_features_defined |].
  unfold feature_values. cbn [nth]. rewrite Hratio. split; lra.
Qed.

Lemma huge_mean_out_of_range (output : string) :
  allocation_sizes output = [(10 ^ 400 - 1)%Z] ->
  ~ in_float_range (mean_alloc_value output).
Proof.
  intros Hsizes. unfold mean_alloc_value, in_float_range, float_limit.
  rewrite Hsizes. cbn [List.length INR].
  replace (py_sum [(10 ^ 400 - 1)%Z]) with (10 ^ 400 - 1)%Z by reflexivity.
  unfold Rdiv. rewrite Rinv_1, Rmult_1_r.
  rewrite Rabs_pos_eq by (apply IZR_le; vm_compute; discriminate).
  intros H. apply lt_IZR, Z.ltb_lt in H. vm_compute in H. discriminate.
Qed.

Lemma huge_size_parsed :
  Forall (fun digits => (String.length digits <= int_max_str_digits)%nat)
    [huge_size_digits].
Proof.
  constructor; [| constructor]. apply Nat.leb_le. vm_compute. reflexivity.
Qed.

(** A text without iteration marker whose only allocation size is the
    one of 400 digits: the mean raises [OverflowError]. *)
Lemma extract_features_huge (output : string) :
  iteration_count output = 0%nat ->
  Re.findall Re.re_allocating output = [huge_size_digits] ->
  extract_features output = Raise OverflowError
  /\ ~ features_defined output.
Proof.
  intros Hi Htok.
  assert (Hm : ~ in_float_range (mean_alloc_value output)).
  { apply huge_mean_out_of_range. unfold allocation_sizes. rewrite Htok.
    vm_compute. reflexivity. }
  split; [| intros (_ & _ & H & _); contradiction].
  rewrite extract_features_eval.
  assert (Hratio : ratio_value output = 0%R)
    by (unfold ratio_value; now rewrite Hi).
  rewrite Hratio, to_float_0. cbn [rbind].
  rewrite Htok, (map_int10_ok huge_size_parsed). cbn [rbind].
  now rewrite to_float_overflow.
Qed.

(** And it is not total: a size of 400 digits is beyond the range of the
    floats, and the mean raises [OverflowError]. *)
Lemma extract_features_overflow :
  extract_features huge_allocation_text = Raise OverflowError.
Proof. apply extract_features_huge; reflexivity. Qed.

(** ** Scenario B *)

Lemma sqrt_between (x lo hi : R) :
  (0 <= lo)%R -> (0 <= hi)%R -> (lo * lo <= x)%R -> (x < hi * hi)%R ->
  (lo <= sqrt x < hi)%R.
Proof.
  intros Hlo Hhi H1 H2. split.
  - rewrite <- (sqrt_square lo) at 1 by assumption. now apply sqrt_le_1_alt.
  - rewrite <- (sqrt_square hi) by assumption. apply sqrt_lt_1_alt. nra.
Qed.

(** ** The report of analyze_scan_output *)

Lemma emits_ret (A : Type) (a : A) : emits (mret a) a [].
Proof. intros ins. unfold mret. now rewrite app_nil_r. Qed.

Lemma emits_append (i : insight) : emits (append i) tt [i].
Proof. intros ins. reflexivity. Qed.

Lemma emits_bind (A B : Type) (c : M A) (k : A -> M B) (a : A) (b : B)
    (l1 l2 : list insight) :
  emits c a l1 -> emits (k a) b l2 -> emits (mbind c k) b (l1 ++ l2).
Proof.
  intros H1 H2 ins. unfold mbind. rewrite H1, H2. now rewrite app_assoc.
Qed.

Lemma emits_lift (A : Type) (r : result A) (a : A) :
  r = Ok a -> emits (lift r) a [].
Proof. intros -> ins. unfold lift. now rewrite app_nil_r. Qed.

Lemma emits_for_each (A : Type) (f : A -> insight) (l : list A) :
  emits (for_each (fun x => append (f x)) l) tt (map f l).
Proof.
  induction l as [| x l IH]; simpl.
  - apply emits_ret.
  - change (f x :: map f l) with ([f x] ++ map f l).
    eapply emits_bind; [apply emits_append | exact IH].
Qed.

Lemma emits_eq (A : Type) (c : M A) (a : A) (l l' : list insight) :
  emits c a l -> l = l' -> emits c a l'.
Proof. now intros H <-. Qed.

Lemma fails_lift (A : Type) (r : result A) (e : exn) :
  r = Raise e -> fails (lift r) e.
Proof. intros -> ins. now exists ins. Qed.

Lemma fails_bind_l (A B : Type) (c : M A) (k : A -> M B) (e : exn) :
  fails c e -> fails (mbind c k) e.
Proof.
  intros H ins. destruct (H ins) as [ins' E]. exists ins'.
  unfold mbind. now rewrite E.
Qed.

Lemma fails_bind_r (A B : Type) (c : M A) (k : A -> M B) (a : A)
    (l : list insight) (e : exn) :
  emits c a l -> fails (k a) e -> fails (mbind c k) e.
Proof. intros H1 H2 ins. unfold mbind. rewrite H1. apply H2. Qed.

Lemma convert_ok (v : pynum) :
  representable v -> Statistics.convert v = Ok v.
Proof.
  destruct v as [z | r]; [reflexivity |]. cbn [representable].
  intros H. unfold Statistics.convert. now rewrite to_float_ok.
Qed.

Lemma convert_overflow (v : pynum) :
  ~ representable v -> Statistics.convert v = Raise OverflowError.
Proof.
  destruct v as [z | r]; cbn [representable]; [tauto |].
  intros H. unfold Statistics.convert. now rewrite to_float_overflow.
Qed.

Lemma representable_dec (v : pynum) : {representable v} + {~ representable v}.
Proof. destruct v; [left; exact I | apply in_float_range_dec]. Qed.

Lemma median_ok (data : list Z) :
  data <> [] ->
  Statistics.median data = Statistics.convert (Statistics.median_num data).
Proof. destruct data; [congruence | reflexivity]. Qed.

Lemma mean_ok (data : list Z) :
  data <> [] ->
  Statistics.mean data = Statistics.convert (Statistics.mean_num data).
Proof. destruct data; [congruence | reflexivity]. Qed.

Local Open Scope state_scope.

Lemma emits_ratio_block (ni ns : nat) :
  in_float_range (if (0 <? ni)%nat then INR ns / INR ni else 0) ->
  emits
    (if (0 <? ni)%nat then
       segfault_ratio <- lift (truediv (Z.of_nat ns) (Z.of_nat ni)) ;;
       append (SuccessfulIterations (Z.of_nat ni - Z.of_nat ns)) ;;;
       append (SegfaultRatio segfault_ratio)
     else append NoIterationsDetected)
    tt (ratio_lines ni ns).
Proof.
  unfold ratio_lines. destruct (Nat.ltb_spec 0 ni); [| intros _; apply emits_append].
  intros Hr ins. unfold mbind, lift, append, modify.
  rewrite truediv_nat by lia. rewrite (to_float_ok Hr).
  now rewrite <- app_assoc.
Qed.

Lemma fails_ratio_block (ni ns : nat) :
  ~ in_float_range (if (0 <? ni)%nat then INR ns / INR ni else 0) ->
  fails
    (if (0 <? ni)%nat then
       segfault_ratio <- lift (truediv (Z.of_nat ns) (Z.of_nat ni)) ;;
       append (SuccessfulIterations (Z.of_nat ni - Z.of_nat ns)) ;;;
       append (SegfaultRatio segfault_ratio)
     else append NoIterationsDetected)
    OverflowError.
Proof.
  destruct (Nat.ltb_spec 0 ni) as [Hpos | Hpos];
    [| intros Hr; exfalso; apply Hr, in_float_range_0].
  intros Hr. apply fails_bind_l, fails_lift.
  rewrite truediv_nat by lia. now apply to_float_overflow.
Qed.

(** The statistics of the allocation sizes, once the sizes are parsed. *)
Lemma emits_allocation_stats (sizes : list Z) :
  in_float_range
    match sizes with
    | [] => 0
    | _ :: _ => IZR (py_sum sizes) / INR (List.length sizes)
    end ->
  in_float_range
    (if (1 <? List.length sizes)%nat then Statistics.stdev_num sizes else 0) ->
  representable (Statistics.median_num sizes) ->
  emits
    match sizes with
    | _ :: _ =>
        avg_alloc <-
          lift (truediv (py_sum sizes) (Z.of_nat (List.length sizes))) ;;
        append (AverageAlloc avg_alloc) ;;;
        append (AllocRange (py_min sizes) (py_max sizes)) ;;;
        if (1 <? List.length sizes)%nat then
          stdev_alloc <- lift (Statistics.stdev sizes) ;;
          median_alloc <- lift (Statistics.median sizes) ;;
          append (StdevAlloc stdev_alloc) ;;;
          append (MedianAlloc median_alloc)
        else append InsufficientAllocStats
    | [] => append NoAllocData
    end
    tt (allocation_lines sizes).
Proof.
  unfold allocation_lines.
  destruct sizes as [| z zs] eqn:E; [intros _ _ _; apply emits_append |].
  rewrite <- E. intros Hm Hs Hmed.
  assert (Hne : sizes <> []) by (subst; discriminate).
  assert (Hlen : List.length sizes <> 0%nat) by (subst; simpl; lia).
  intros ins. unfold mbind, lift, append, modify.
  rewrite truediv_Z_nat by assumption. rewrite (to_float_ok Hm).
  destruct (1 <? List.length sizes)%nat eqn:E1.
  - rewrite stdev_ok, median_ok by assumption.
    rewrite (to_float_ok Hs), (@convert_ok _ Hmed).
    now rewrite <- !app_assoc.
  - now rewrite <- !app_assoc.
Qed.

Lemma fails_allocation_stats (sizes : list Z) :
  ~ (in_float_range
       match sizes with
       | [] => 0
       | _ :: _ => IZR (py_sum sizes) / INR (List.length sizes)
       end
     /\ in_float_range
          (if (1 <? List.length sizes)%nat
           then Statistics.stdev_num sizes else 0)
     /\ representable (Statistics.median_num sizes)) ->
  fails
    match sizes with
    | _ :: _ =>
        avg_alloc <-
          lift (truediv (py_sum sizes) (Z.of_nat (List.length sizes))) ;;
        append (AverageAlloc avg_alloc) ;;;
        append (AllocRange (py_min sizes) (py_max sizes)) ;;;
        if (1 <? List.length sizes)%nat then
          stdev_alloc <- lift (Statistics.stdev sizes) ;;
          median_alloc <- lift (Statistics.median sizes) ;;
          append (StdevAlloc stdev_alloc) ;;;
          append (MedianAlloc median_alloc)
        else append InsufficientAllocStats
    | [] => append NoAllocData
    end
    OverflowError.
Proof.
  destruct sizes as [| z zs] eqn:E.
  - intros H. exfalso. apply H. cbn [List.length Nat.ltb Nat.leb].
    split; [apply in_float_range_0 | split; [apply in_float_range_0 |]].
    cbn. apply in_float_range_unit. lra.
  - rewrite <- E. intros Hnot.
    assert (Hne : sizes <> []) by (subst; discriminate).
    assert (Hlen : List.length sizes <> 0%nat) by (subst; simpl; lia).
    destruct (in_float_range_dec (IZR (py_sum sizes) / INR (List.length sizes)))
      as [Hm | Hm].
    + eapply fails_bind_r;
        [apply emits_lift; rewrite truediv_Z_nat by assumption;
         now apply to_float_ok |].
      eapply fails_bind_r; [apply emits_append |].
      eapply fails_bind_r; [apply emits_append |].
      destruct (1 <? List.length sizes)%nat eqn:E1.
      * destruct (in_float_range_dec (Statistics.stdev_num sizes)) as [Hs | Hs].
        -- eapply fails_bind_r;
             [apply emits_lift; rewrite stdev_ok by assumption;
              now apply to_float_ok |].
           apply fails_bind_l, fails_lift.
           rewrite median_ok by assumption. apply convert_overflow.
           intros Hmed. apply Hnot. tauto.
        -- apply fails_bind_l, fails_lift.
           rewrite stdev_ok by assumption. now apply to_float_overflow.
      * exfalso. apply Hnot.
        split; [assumption | split; [apply in_float_range_0 |]].
        apply Nat.ltb_ge in E1.
        destruct sizes as [| a [| c l]]; [congruence | exact I |].
        simpl in E1. lia.
    + apply fails_bind_l, fails_lift.
      rewrite truediv_Z_nat by assumption. now apply to_float_overflow.
Qed.

Lemma emits_hex_try (addresses_int : list Z) :
  emits
    (try_except
       (avg_addr <- lift (Statistics.mean addresses_int) ;;
        std_dev_addr <- lift (Statistics.stdev addresses_int) ;;
        median_addr <- lift (Statistics.median addresses_int) ;;
        avg_text <- lift (format_016x avg_addr) ;;
        append (AverageHex avg_text) ;;;
        median_text <- lift (format_016x median_addr) ;;
        append (MedianHex median_text) ;;;
        append (StdevHex std_dev_addr))
       (fun _ => append InsufficientHexStats))
    tt (hex_stat_lines addresses_int).
Proof.
  intros ins. unfold try_except, mbind, lift, append, modify, hex_stat_lines.
  destruct (Statistics.mean addresses_int) as [[avg | avg] | e1];
    destruct (Statistics.stdev addresses_int) as [sd | e2];
    destruct (Statistics.median addresses_int) as [[med | med] | e3];
    cbn [format_016x]; rewrite <- ?app_assoc; reflexivity.
Qed.

Lemma emits_hex_block (tokens : list string) :
  emits
    match tokens with
    | _ :: _ =>
        append (TotalHex (List.length tokens)) ;;;
        append (UniqueHex (len_set (map int16 tokens))) ;;;
        if (1 <? List.length (map int16 tokens))%nat then
          try_except
            (avg_addr <- lift (Statistics.mean (map int16 tokens)) ;;
             std_dev_addr <- lift (Statistics.stdev (map int16 tokens)) ;;
             median_addr <- lift (Statistics.median (map int16 tokens)) ;;
             avg_text <- lift (format_016x avg_addr) ;;
             append (AverageHex avg_text) ;;;
             median_text <- lift (format_016x median_addr) ;;
             append (MedianHex median_text) ;;;
             append (StdevHex std_dev_addr))
            (fun _ => append InsufficientHexStats) ;;;
          entropy <- lift (calculate_entropy (map int16 tokens)) ;;
          append (HexEntropy entropy)
        else append NotEnoughHexData
    | [] => append NoHexFound
    end
    tt (hex_lines tokens).
Proof.
  unfold hex_lines.
  destruct tokens as [| t ts] eqn:E; [apply emits_append |]. rewrite <- E.
  destruct (1 <? List.length (map int16 tokens))%nat eqn:E1.
  - eapply emits_eq.
    + eapply emits_bind; [apply emits_append |].
      eapply emits_bind; [apply emits_append |].
      eapply emits_bind; [apply emits_hex_try |].
      eapply emits_bind;
        [apply emits_lift, calculate_entropy_formula | apply emits_append].
    + reflexivity.
  - eapply emits_eq.
    + eapply emits_bind; [apply emits_append |].
      eapply emits_bind; [apply emits_append |].
      apply emits_append.
    + reflexivity.
Qed.

Lemma emits_repetition_block (tokens : list string) :
  emits
    match filter (fun item => (10 <? snd item)%nat)
            (Dict.count_all String.eqb tokens) with
    | _ :: _ =>
        append RepetitiveAlert ;;;
        for_each (fun item => append (RepeatedAddress (fst item) (snd item)))
          (filter (fun item => (10 <? snd item)%nat)
             (Dict.count_all String.eqb tokens))
    | [] => append NoRepetitive
    end
    tt (repetition_lines tokens).
Proof.
  unfold repetition_lines, repeated_addresses.
  destruct (filter _ _) as [| item items]; [apply emits_append |].
  change (RepetitiveAlert :: ?l) with ([RepetitiveAlert] ++ l).
  eapply emits_bind; [apply emits_append |].
  apply (emits_for_each (fun item => RepeatedAddress (fst item) (snd item))).
Qed.

Lemma emits_high_ratio (ni ns : nat) :
  in_float_range (if (0 <? ni)%nat then INR ns / INR ni else 0) ->
  emits
    (if (0 <? ni)%nat then
       ratio <- lift (truediv (Z.of_nat ns) (Z.of_nat ni)) ;;
       mret (if Rgt_dec ratio (3 / 10) then true else false)
     else mret false)
    (high_ratio ni ns) [].
Proof.
  unfold high_ratio. destruct (Nat.ltb_spec 0 ni); [| intros _; apply emits_ret].
  intros Hr ins. unfold mbind, lift, mret.
  rewrite truediv_nat by lia. rewrite (to_float_ok Hr). now rewrite app_nil_r.
Qed.

Lemma emits_warning_block (high : bool) :
  emits
    (if high then append HighSegfaultWarning else append SegfaultWithinLimits)
    tt (if high then [HighSegfaultWarning] else [SegfaultWithinLimits]).
Proof. destruct high; apply emits_append. Qed.

Lemma emits_interpretation_block (so : set_order) (tokens : list string) :
  emits
    match tokens with
    | _ :: _ =>
        append InterpretationsHeader ;;;
        for_each
          (fun addr =>
             append (Interpretation addr (interpret_address (int16 addr))))
          (sorted int16 (iter_set so tokens)) ;;;
        if existsb (String.eqb "0x0") tokens
        then append NullPointerInsight
        else mret tt
    | [] => append NoAddressesForInterpretation
    end
    tt (interpretation_lines so tokens).
Proof.
  unfold interpretation_lines.
  destruct tokens as [| t ts] eqn:E; [apply emits_append |]. rewrite <- E.
  eapply emits_bind; [apply emits_append |].
  eapply emits_bind.
  - apply (emits_for_each
             (fun addr => Interpretation addr (interpret_address (int16 addr)))).
  - destruct (existsb _ _); [apply emits_append | apply emits_ret].
Qed.

Lemma emits_null_page_block (output : string) :
  emits
    (if Re.contains "(DEBUG) Successfully mapped null page" output
     then append NullPageMapped
     else if Re.contains "(DEBUG) Null page mapping attempt failed" output
     then append NullPageFailed
     else append NullPageNotDetected)
    tt (null_page_lines output).
Proof.
  unfold null_page_lines.
  destruct (Re.contains _ output); [apply emits_append |].
  destruct (Re.contains _ output); apply emits_append.
Qed.

(** On a text of its domain [analyze_scan_output] raises nothing, and
    [insights] ends up holding the statements of the eight blocks, in
    order. *)
Lemma scan_insights_emits (so : set_order) (output : string) :
  analysis_defined output ->
  emits (scan_insights so output) tt (report_lines so output).
Proof.
  intros [(Hr & Hp & Hm & Hs) Hmed].
  unfold scan_insights, report_lines.
  eapply emits_bind; [apply emits_append |].
  eapply emits_bind; [apply emits_append |].
  eapply emits_bind; [apply emits_ratio_block; exact Hr |].
  eapply emits_bind.
  { eapply emits_eq.
    - eapply emits_bind; [apply emits_lift, (map_int10_ok Hp) |].
      apply emits_allocation_stats; [exact Hm | exact Hs | exact Hmed].
    - reflexivity. }
  eapply emits_bind; [apply emits_hex_block |].
  eapply emits_bind; [apply emits_repetition_block |].
  eapply emits_eq.
  - eapply emits_bind; [apply emits_high_ratio; exact Hr |].
    eapply emits_bind; [apply emits_warning_block |].
    eapply emits_bind;
      [apply emits_interpretation_block | apply emits_null_page_block].
  - reflexivity.
Qed.

(** On any other text it raises, at the ratio or in the block of the
    allocation sizes. *)
Lemma scan_insights_fails (so : set_order) (output : string) :
  ~ analysis_defined output ->
  exists e, fails (scan_insights so output) e
            /\ (e = ValueError \/ e = OverflowError).
Proof.
  intros Hnot. unfold scan_insights.
  destruct (in_float_range_dec (ratio_value output)) as [Hr | Hr].
  - destruct (sizes_parsed_dec (Re.findall Re.re_allocating output))
      as [Hp | Hp].
    + exists OverflowError. split; [| now right].
      eapply fails_bind_r; [apply emits_append |].
      eapply fails_bind_r; [apply emits_append |].
      eapply fails_bind_r; [apply emits_ratio_block; exact Hr |].
      apply fails_bind_l.
      eapply fails_bind_r; [apply emits_lift, (map_int10_ok Hp) |].
      apply fails_allocation_stats. intros (Hm & Hs & Hmed).
      apply Hnot. repeat split; assumption.
    + exists ValueError. split; [| now left].
      eapply fails_bind_r; [apply emits_append |].
      eapply fails_bind_r; [apply emits_append |].
      eapply fails_bind_r; [apply emits_ratio_block; exact Hr |].
      apply fails_bind_l, fails_bind_l, fails_lift.
      now apply map_int10_raise.
  - exists OverflowError. split; [| now right].
    eapply fails_bind_r; [apply emits_append |].
    eapply fails_bind_r; [apply emits_append |].
    apply fails_bind_l, fails_ratio_block. exact Hr.
Qed.

Lemma analysis_defined_dec (output : string) :
  {analysis_defined output} + {~ analysis_defined output}.
Proof.
  unfold analysis_defined.
  destruct (features_defined_dec output); [| right; tauto].
  destruct (representable_dec
              (Statistics.median_num (allocation_sizes output)));
    [left | right]; tauto.
Qed.

Lemma insights_of_report (so : set_order) (output : string) :
  analysis_defined output ->
  insights_of so output = Ok (report_lines so output).
Proof.
  intros Hd. unfold insights_of.
  now rewrite (scan_insights_emits so Hd []).
Qed.

Lemma insights_of_undefined (so : set_order) (output : string) :
  ~ analysis_defined output ->
  exists e, insights_of so output = Raise e
            /\ (e = ValueError \/ e = OverflowError).
Proof.
  intros Hnot. destruct (scan_insights_fails so Hnot) as (e & Hf & Hk).
  exists e. split; [| exact Hk]. unfold insights_of.
  destruct (Hf []) as [ins' E]. now rewrite E.
Qed.

(** What [analyze_scan_output] leaves in [insights] when it returns. *)
Lemma insights_of_ok (so : set_order) (output : string)
    (insights : list insight) :
  insights_of so output = Ok insights ->
  insights = report_lines so output /\ analysis_defined output.
Proof.
  intros H. destruct (analysis_defined_dec output) as [Hd | Hd].
  - rewrite (insights_of_report so Hd) in H. inversion H. now split.
  - destruct (insights_of_undefined so Hd) as (e & He & _). congruence.
Qed.

Lemma insights_of_raise (so : set_order) (output : string) (e : exn) :
  insights_of so output = Raise e ->
  (e = ValueError \/ e = OverflowError) /\ ~ analysis_defined output.
Proof.
  intros H. destruct (analysis_defined_dec output) as [Hd | Hd].
  - rewrite (insights_of_report so Hd) in H. discriminate.
  - destruct (insights_of_undefined so Hd) as (e' & He & Hk).
    split; [congruence | assumption].
Qed.

(** A text without allocation marker whose recovery markers are not more
    numerous than its iteration markers is analysed. *)
Lemma analysis_defined_without_sizes (output : string) :
  Re.findall Re.re_allocating output = [] ->
  (recovery_count output <= iteration_count output)%nat ->
  analysis_defined output.
Proof.
  intros Hnone Hle. split; [now apply features_defined_without_sizes |].
  unfold allocation_sizes. rewrite Hnone. cbn.
  apply in_float_range_unit. lra.
Qed.

(** *** Which block a statement of the report comes from *)

Ltac forall_block :=
  repeat (apply Forall_cons; [reflexivity |]); try apply Forall_nil.

Lemma ratio_lines_block (ni ns : nat) :
  Forall (fun i => block_of i = 2%nat) (ratio_lines ni ns).
Proof. unfold ratio_lines. destruct (0 <? ni)%nat; forall_block. Qed.

Lemma allocation_lines_block (sizes : list Z) :
  Forall (fun i => block_of i = 3%nat) (allocation_lines sizes).
Proof.
  unfold allocation_lines. destruct sizes as [| z zs]; [forall_block |].
  destruct (1 <? _)%nat; cbn [app]; forall_block.
Qed.

Lemma hex_stat_lines_block (ints : list Z) :
  Forall (fun i => block_of i = 4%nat) (hex_stat_lines ints).
Proof.
  unfold hex_stat_lines.
  destruct (Statistics.mean ints) as [[avg | avg] | e1];
    destruct (Statistics.stdev ints) as [sd | e2];
    destruct (Statistics.median ints) as [[med | med] | e3]; forall_block.
Qed.

Lemma hex_lines_block (tokens : list string) :
  Forall (fun i => block_of i = 4%nat) (hex_lines tokens).
Proof.
  unfold hex_lines. destruct tokens as [| t ts]; [forall_block |].
  apply Forall_app. split; [forall_block |].
  destruct (1 <? _)%nat; [| forall_block].
  apply Forall_app. split; [apply hex_stat_lines_block | forall_block].
Qed.

Lemma repetition_lines_block (tokens : list string) :
  Forall (fun i => block_of i = 5%nat) (repetition_lines tokens).
Proof.
  unfold repetition_lines.
  destruct (repeated_addresses tokens) as [| item items]; [forall_block |].
  apply Forall_cons; [reflexivity |].
  apply Forall_forall. intros i Hi. apply in_map_iff in Hi as [x [<- _]].
  reflexivity.
Qed.

Lemma warning_lines_block (ni ns : nat) :
  Forall (fun i => block_of i = 6%nat) (warning_lines ni ns).
Proof. unfold warning_lines. destruct (high_ratio ni ns); forall_block. Qed.

Lemma interpretation_lines_block (so : set_order) (tokens : list string) :
  Forall (fun i => block_of i = 7%nat) (interpretation_lines so tokens).
Proof.
  unfold interpretation_lines. destruct tokens as [| t ts]; [forall_block |].
  apply Forall_app. split; [forall_block |].
  apply Forall_app. split.
  - apply Forall_forall. intros i Hi. apply in_map_iff in Hi as [x [<- _]].
    reflexivity.
  - destruct (existsb _ _); forall_block.
Qed.

Lemma null_page_lines_block (output : string) :
  Forall (fun i => block_of i = 8%nat) (null_page_lines output).
Proof.
  unfold null_page_lines.
  destruct (Re.contains _ output); [forall_block |].
  destruct (Re.contains _ output); forall_block.
Qed.

Lemma not_in_block (k : nat) (l : list insight) (i : insight) :
  Forall (fun j => block_of j = k) l -> block_of i <> k -> ~ In i l.
Proof.
  intros Hl Hk Hin. rewrite Forall_forall in Hl. apply Hk. now apply Hl.
Qed.

Ltac other_block :=
  match goal with
  | H : In ?i ?l, Hb : block_of ?i = _ |- _ =>
      exfalso; revert H;
      first
        [ apply (@not_in_block _ _ _ (@ratio_lines_block _ _))
        | apply (@not_in_block _ _ _ (@allocation_lines_block _))
        | apply (@not_in_block _ _ _ (@hex_lines_block _))
        | apply (@not_in_block _ _ _ (@repetition_lines_block _))
        | apply (@not_in_block _ _ _ (@warning_lines_block _ _))
        | apply (@not_in_block _ _ _ (@interpretation_lines_block _ _))
        | apply (@not_in_block _ _ _ (@null_page_lines_block _)) ];
      rewrite Hb; discriminate
  end.

Lemma in_report_cases (so : set_order) (output : string) (i : insight) :
  In i (report_lines so output) <->
  i = TotalIterations (iteration_count output)
  \/ i = SegfaultCount (recovery_count output)
  \/ In i (ratio_lines (iteration_count output) (recovery_count output))
  \/ In i (allocation_lines (allocation_sizes output))
  \/ In i (hex_lines (hex_tokens output))
  \/ In i (repetition_lines (hex_tokens output))
  \/ In i (warning_lines (iteration_count output) (recovery_count output))
  \/ In i (interpretation_lines so (hex_tokens output))
  \/ In i (null_page_lines output).
Proof.
  unfold report_lines. rewrite !in_app_iff. simpl. intuition.
Qed.

Lemma in_report_allocation (so : set_order) (output : string) (i : insight) :
  block_of i = 3%nat ->
  (In i (report_lines so output)
   <-> In i (allocation_lines (allocation_sizes output))).
Proof.
  intros Hb. rewrite in_report_cases. split; [| tauto].
  intros [-> | [-> | [H | [H | [H | [H | [H | [H | H]]]]]]]];
    try discriminate; try assumption; other_block.
Qed.

Lemma in_report_hex (so : set_order) (output : string) (i : insight) :
  block_of i = 4%nat ->
  (In i (report_lines so output) <-> In i (hex_lines (hex_tokens output))).
Proof.
  intros Hb. rewrite in_report_cases. split; [| tauto].
  intros [-> | [-> | [H | [H | [H | [H | [H | [H | H]]]]]]]];
    try discriminate; try assumption; other_block.
Qed.

Lemma in_report_repetition (so : set_order) (output : string) (i : insight) :
  block_of i = 5%nat ->
  (In i (report_lines so output)
   <-> In i (repetition_lines (hex_tokens output))).
Proof.
  intros Hb. rewrite in_report_cases. split; [| tauto].
  intros [-> | [-> | [H | [H | [H | [H | [H | [H | H]]]]]]]];
    try discriminate; try assumption; other_block.
Qed.

Lemma in_report_interpretation (so : set_order) (output : string)
    (i : insight) :
  block_of i = 7%nat ->
  (In i (report_lines so output)
   <-> In i (interpretation_lines so (hex_tokens output))).
Proof.
  intros Hb. rewrite in_report_cases. split; [| tauto].
  intros [-> | [-> | [H | [H | [H | [H | [H | [H | H]]]]]]]];
    try discriminate; try assumption; other_block.
Qed.

(** C7. The text of scenario B yields the allocation sizes 1024 and 3072
    in that order, the mean 2048 and the sample standard deviation
    (divisor n - 1 = 1), which rounds to 1448.15; the report states the
    same mean and deviation. *)
Theorem scenario_B_allocations :
  allocation_sizes scenario_B_text = [1024; 3072]%Z
  /\ exists r s e u : R,
       extract_features scenario_B_text = Ok [r; 2048%R; s; e; u]
       /\ s = sqrt (((1024 - 2048) * (1024 - 2048)
                     + (3072 - 2048) * (3072 - 2048)) / (2 - 1))
       /\ (144815 / 100 <= s < 1448155 / 1000)%R
       /\ forall so : set_order,
            exists insights,
              insights_of so scenario_B_text = Ok insights
              /\ In (AverageAlloc 2048) insights
              /\ In (AllocRange 1024 3072) insights
              /\ In (StdevAlloc s) insights.
Proof.
  assert (Htok : Re.findall Re.re_allocating scenario_B_text
                 = ["1024"; "3072"]%string) by reflexivity.
  assert (Hsizes : allocation_sizes scenario_B_text = [1024; 3072]%Z)
    by reflexivity.
  split; [exact Hsizes |].
  assert (Hsd : Statistics.stdev_num [1024; 3072]%Z = sqrt 2097152).
  { unfold Statistics.stdev_num, Statistics.sum_sq_dev.
    replace (py_sum [1024; 3072]%Z) with 4096%Z by reflexivity.
    cbn [List.length fold_right Nat.sub INR]. f_equal. lra. }
  assert (Hs : stdev_alloc_value scenario_B_text = sqrt 2097152).
  { unfold stdev_alloc_value. rewrite Hsizes.
    cbn [List.length Nat.ltb Nat.leb]. exact Hsd. }
  assert (Hm : mean_alloc_value scenario_B_text = 2048%R).
  { unfold mean_alloc_value. rewrite Hsizes.
    replace (py_sum [1024; 3072]%Z) with 4096%Z by reflexivity.
    cbn [List.length INR]. lra. }
  assert (Hbounds : (144815 / 100 <= sqrt 2097152 < 1448155 / 1000)%R)
    by (apply sqrt_between; lra).
  assert (Hd : analysis_defined scenario_B_text).
  { split; [split; [| split; [| split]] |].
    - assert (Hr : ratio_value scenario_B_text = 0%R) by reflexivity.
      rewrite Hr. apply in_float_range_0.
    - rewrite Htok.
      repeat (constructor; [apply Nat.leb_le; reflexivity |]). constructor.
    - rewrite Hm. apply (@in_float_range_le 2048 2048); [reflexivity |].
      rewrite Rabs_pos_eq; lra.
    - rewrite Hs. apply (@in_float_range_le (sqrt 2097152) 1449);
        [reflexivity |].
      rewrite Rabs_pos_eq; lra.
    - rewrite Hsizes.
      assert (Hmed : Statistics.median_num [1024; 3072]%Z
                     = PyFloat (IZR 4096 / 2)) by reflexivity.
      rewrite Hmed. cbn [representable].
      apply (@in_float_range_le (IZR 4096 / 2) 2048); [reflexivity |].
      rewrite Rabs_pos_eq; lra. }
  exists (ratio_value scenario_B_text), (stdev_alloc_value scenario_B_text),
    (entropy_formula (address_tokens scenario_B_text)),
    (INR (len_set (address_tokens scenario_B_text))).
  split.
  { rewrite (extract_features_defined (proj1 Hd)). unfold feature_values.
    now rewrite Hm. }
  rewrite Hs. split; [f_equal; lra |].
  split; [exact Hbounds |].
  intros so. exists (report_lines so scenario_B_text).
  split; [now apply insights_of_report |].
  assert (Hlines : allocation_lines (allocation_sizes scenario_B_text)
    = [ AverageAlloc (IZR 4096 / INR 2); AllocRange 1024 3072;
        StdevAlloc (Statistics.stdev_num [1024; 3072]%Z);
        MedianAlloc (Statistics.median_num [1024; 3072]%Z) ])
    by reflexivity.
  repeat split; (apply in_report_allocation; [reflexivity |]);
    rewrite Hlines, Hsd.
  - left. f_equal. simpl. lra.
  - right. now left.
  - right. right. now left.
Qed.

(** ** The statistics of the address values in the report *)

Lemma insert_by_length (A : Type) (key : A -> Z) (x : A) (l : list A) :
  List.length (insert_by key x l) = S (List.length l).
Proof.
  induction l as [| y l IH]; [reflexivity |].
  cbn [insert_by]. destruct (key x <=? key y)%Z; cbn [List.length]; congruence.
Qed.

Lemma sorted_length (A : Type) (key : A -> Z) (l : list A) :
  List.length (sorted key l) = List.length l.
Proof.
  unfold sorted. induction l as [| x l IH]; [reflexivity |].
  cbn [fold_right List.length]. now rewrite insert_by_length, IH.
Qed.

Lemma median_num_even_is_float (data : list Z) :
  Nat.even (List.length data) = true ->
  exists r, Statistics.median_num data = PyFloat r.
Proof.
  intros He. unfold Statistics.median_num.
  rewrite sorted_length. unfold Nat.odd. rewrite He. cbn [negb]. eauto.
Qed.

Lemma median_even_not_int (data : list Z) (med : Z) :
  Nat.even (List.length data) = true ->
  Statistics.median data <> Ok (PyInt med).
Proof.
  intros He. unfold Statistics.median.
  destruct (List.length data =? 0)%nat; [discriminate |].
  destruct (median_num_even_is_float data He) as [r ->].
  unfold Statistics.convert. destruct (to_float r); discriminate.
Qed.

Lemma hex_lines_many (tokens : list string) :
  (1 < List.length tokens)%nat ->
  hex_lines tokens
  = [ TotalHex (List.length tokens); UniqueHex (len_set (map int16 tokens)) ]
    ++ hex_stat_lines (map int16 tokens)
    ++ [HexEntropy (entropy_formula (map int16 tokens))].
Proof.
  intros H. unfold hex_lines. rewrite length_map.
  destruct (Nat.ltb_spec 1 (List.length tokens)); [| lia].
  destruct tokens; [simpl in H; lia | reflexivity].
Qed.

(** A mean that is not an integer: nothing but the fallback statement
    comes out of the [try] block, whether the mean is turned into a
    [float] that the format code [x] refuses or is beyond the range of
    the floats. *)
Lemma hex_stat_lines_fractional_mean (ints : list Z) (r : R) :
  Statistics.mean_num ints = PyFloat r ->
  hex_stat_lines ints = [InsufficientHexStats].
Proof.
  intros H. unfold hex_stat_lines, Statistics.mean.
  destruct (List.length ints <? 1)%nat; [reflexivity |].
  rewrite H. unfold Statistics.convert.
  destruct (to_float r); cbn [rbind]; [| reflexivity].
  destruct (Statistics.stdev ints); [| reflexivity].
  destruct (Statistics.median ints) as [[med | med] | e]; reflexivity.
Qed.

(** With an even number of addresses the median is a [float], which the
    format code [x] refuses: the median and the deviation never reach the
    report and the fallback statement takes their place. *)
Lemma hex_statistics_lost_on_even_count (so : set_order) (output : string) :
  (1 <? List.length (hex_tokens output))%nat = true ->
  Nat.even (List.length (hex_tokens output)) = true ->
  In InsufficientHexStats (report_lines so output)
  /\ (forall t, ~ In (MedianHex t) (report_lines so output))
  /\ (forall r, ~ In (StdevHex r) (report_lines so output)).
Proof.
  intros Hlen Heven.
  assert (Hm : forall med,
             Statistics.median (map int16 (hex_tokens output))
             <> Ok (PyInt med))
    by (intros med; apply median_even_not_int; now rewrite length_map).
  assert (Hlines : hex_lines (hex_tokens output)
    = [ TotalHex (List.length (hex_tokens output));
        UniqueHex (len_set (map int16 (hex_tokens output))) ]
      ++ hex_stat_lines (map int16 (hex_tokens output))
      ++ [HexEntropy (entropy_formula (map int16 (hex_tokens output)))])
    by (apply hex_lines_many; now apply Nat.ltb_lt).
  assert (Hstat : forall i,
             In i (hex_stat_lines (map int16 (hex_tokens output))) ->
             i = InsufficientHexStats \/ exists t, i = AverageHex t).
  { intros i. unfold hex_stat_lines.
    destruct (Statistics.mean (map int16 (hex_tokens output)))
      as [[avg | avg] | e1];
      destruct (Statistics.stdev (map int16 (hex_tokens output)))
        as [sd | e2];
      destruct (Statistics.median (map int16 (hex_tokens output)))
        as [[med | med] | e3] eqn:Emed;
      try (exfalso; exact (Hm med eq_refl));
      simpl; intuition eauto. }
  assert (Hfallback :
            In InsufficientHexStats
              (hex_stat_lines (map int16 (hex_tokens output)))).
  { unfold hex_stat_lines.
    destruct (Statistics.mean (map int16 (hex_tokens output)))
      as [[avg | avg] | e1];
      destruct (Statistics.stdev (map int16 (hex_tokens output)))
        as [sd | e2];
      destruct (Statistics.median (map int16 (hex_tokens output)))
        as [[med | med] | e3] eqn:Emed;
      try (exfalso; exact (Hm med eq_refl));
      simpl; auto. }
  split; [| split].
  - apply in_report_hex; [reflexivity |]. rewrite Hlines, !in_app_iff. auto.
  - intros t H. apply in_report_hex in H; [| reflexivity].
    rewrite Hlines, !in_app_iff in H. simpl in H.
    destruct H as [[H | [H | []]] | [H | [H | []]]]; try discriminate.
    destruct (Hstat _ H) as [E | [t' E]]; discriminate.
  - intros x H. apply in_report_hex in H; [| reflexivity].
    rewrite Hlines, !in_app_iff in H. simpl in H.
    destruct H as [[H | [H | []]] | [H | [H | []]]]; try discriminate.
    destruct (Hstat _ H) as [E | [t' E]]; discriminate.
Qed.

(** C3, at the text ["0x1 0x2"].  Two address tokens are extracted; their
    mean 1.5 is a [float], its formatting raises, and the report holds
    the fallback statement and none of the mean, median and deviation
    statements. *)
Theorem hex_statistics_missing_with_two_addresses (so : set_order) :
  hex_tokens "0x1 0x2" = ["0x1"; "0x2"]%string
  /\ exists insights,
       insights_of so "0x1 0x2" = Ok insights
       /\ In InsufficientHexStats insights
       /\ (forall t, ~ In (AverageHex t) insights)
       /\ (forall t, ~ In (MedianHex t) insights)
       /\ (forall r, ~ In (StdevHex r) insights).
Proof.
  split; [reflexivity |].
  exists (report_lines so "0x1 0x2"). split.
  { apply insights_of_report, analysis_defined_without_sizes;
      [reflexivity | vm_compute; lia]. }
  destruct (@hex_statistics_lost_on_even_count so "0x1 0x2" eq_refl eq_refl)
    as (Hf & Hmed & Hsd).
  split; [exact Hf |]. split; [| split; assumption].
  intros t H. apply in_report_hex in H; [| reflexivity].
  assert (Htok : hex_tokens "0x1 0x2" = ["0x1"; "0x2"]%string) by reflexivity.
  rewrite Htok, hex_lines_many in H by (simpl; lia).
  assert (Hmean : Statistics.mean_num (map int16 ["0x1"; "0x2"]%string)
                  = PyFloat (IZR 3 / IZR 2)) by reflexivity.
  rewrite (hex_stat_lines_fractional_mean _ Hmean) in H.
  simpl in H. intuition discriminate.
Qed.

(** A statistics block that reaches the report in full: three addresses
    whose mean and median are integers. *)
Example hex_lines_three_addresses :
  hex_lines (hex_tokens "0x1 0x2 0x3")
  = [ TotalHex 3; UniqueHex 3;
      AverageHex "0000000000000002"; MedianHex "0000000000000002";
      StdevHex (Statistics.stdev_num [1; 2; 3]%Z);
      HexEntropy (entropy_formula [1; 2; 3]%Z) ].
Proof.
  assert (Htok : hex_tokens "0x1 0x2 0x3" = ["0x1"; "0x2"; "0x3"]%string)
    by reflexivity.
  assert (Hints : map int16 ["0x1"; "0x2"; "0x3"]%string = [1; 2; 3]%Z)
    by reflexivity.
  assert (Hsd : Statistics.stdev_num [1; 2; 3]%Z = 1%R).
  { unfold Statistics.stdev_num, Statistics.sum_sq_dev.
    replace (py_sum [1; 2; 3]%Z) with 6%Z by reflexivity.
    cbn [List.length fold_right Nat.sub INR].
    transitivity (sqrt 1); [f_equal; lra | apply sqrt_1]. }
  assert (Hstd : Statistics.stdev [1; 2; 3]%Z
                 = Ok (Statistics.stdev_num [1; 2; 3]%Z)).
  { rewrite stdev_ok by reflexivity. apply to_float_ok. rewrite Hsd.
    apply in_float_range_unit. lra. }
  assert (Hmean : Statistics.mean [1; 2; 3]%Z = Ok (PyInt 2)) by reflexivity.
  assert (Hmed : Statistics.median [1; 2; 3]%Z = Ok (PyInt 2)) by reflexivity.
  rewrite Htok, hex_lines_many by (simpl; lia).
  rewrite Hints. unfold hex_stat_lines. rewrite Hmean, Hstd, Hmed.
  reflexivity.
Qed.

(** ** Scenario C: one null address and nine repetitions of another *)

Lemma filter_none (A : Type) (f : A -> bool) (l : list A) :
  (forall x, In x l -> f x = false) -> filter f l = [].
Proof.
  induction l as [| x l IH]; intros H; simpl; [reflexivity |].
  rewrite (H x) by now left. apply IH. intros y Hy. apply H. now right.
Qed.

Lemma occ_map_int16 (tokens : list string) (a b : string) :
  (forall t, In t tokens -> t = a \/ t = b) ->
  int16 a <> int16 b ->
  occ Z.eqb (int16 b) (map int16 tokens) = occ String.eqb b tokens.
Proof.
  intros Hall Hab. induction tokens as [| t ts IH]; [reflexivity |].
  cbn [map occ]. rewrite IH by (intros u Hu; apply Hall; now right).
  f_equal. destruct (Hall t (or_introl eq_refl)) as [-> | ->].
  - rewrite (eqb_neq_K Z.eqb Z.eqb_eq) by congruence.
    destruct (String.eqb_spec b a) as [E | _]; [| reflexivity].
    subst. congruence.
  - now rewrite Z.eqb_refl, String.eqb_refl.
Qed.

(** An address is listed as highly repetitive exactly when its token
    occurs more than 10 times; the count that is listed is the number of
    occurrences. *)
Lemma repeated_address_threshold (so : set_order) (output : string)
    (addr : string) (count : nat) :
  In (RepeatedAddress addr count) (report_lines so output)
  <-> count = occ String.eqb addr (hex_tokens output) /\ (10 < count)%nat.
Proof.
  rewrite in_report_repetition by reflexivity.
  assert (Hrep : In (addr, count) (repeated_addresses (hex_tokens output))
                 <-> count = occ String.eqb addr (hex_tokens output)
                     /\ (10 < count)%nat).
  { unfold repeated_addresses.
    rewrite filter_In, (count_all_entry_iff String.eqb String.eqb_eq).
    cbn [snd]. rewrite Nat.ltb_lt. split; [tauto |].
    intros [-> H]. repeat split; [| assumption].
    apply (occ_In String.eqb String.eqb_eq). lia. }
  rewrite <- Hrep. unfold repetition_lines.
  destruct (repeated_addresses (hex_tokens output)) as [| item items] eqn:E.
  - simpl. intuition discriminate.
  - rewrite <- E. simpl. rewrite in_map_iff. split.
    + intros [H | [[a c] [H Hin]]]; [discriminate |].
      cbn [fst snd] in H. now inversion H; subst.
    + intros H. right. now exists (addr, count).
Qed.

Section ScenarioC.
Variable so : set_order.
Variable output : string.
Hypothesis one_null : occ String.eqb "0x0"%string (hex_tokens output) = 1%nat.
Hypothesis nine_beef : occ String.eqb "0xdeadbeef"%string (hex_tokens output) = 9%nat.
Hypothesis no_other :
  forall t, In t (hex_tokens output) -> t = "0x0"%string \/ t = "0xdeadbeef"%string.

Lemma scenario_C_null_token : In "0x0"%string (hex_tokens output).
Proof. apply (occ_In String.eqb String.eqb_eq). rewrite one_null. lia. Qed.

Lemma scenario_C_beef_token : In "0xdeadbeef"%string (hex_tokens output).
Proof. apply (occ_In String.eqb String.eqb_eq). rewrite nine_beef. lia. Qed.

Lemma scenario_C_unique : len_set (address_tokens output) = 2%nat.
Proof.
  unfold len_set.
  change 2%nat with (List.length [0; 3735928559]%Z).
  apply Permutation_length, NoDup_Permutation.
  - apply (dedup_NoDup Z.eqb Z.eqb_eq).
  - repeat constructor; simpl; intuition discriminate.
  - intros z. rewrite (dedup_In Z.eqb Z.eqb_eq). unfold address_tokens.
    rewrite in_map_iff. simpl. split.
    + intros [t [<- Ht]]. destruct (no_other t Ht) as [-> | ->]; auto.
    + intros [<- | [<- | []]].
      * exists "0x0"%string. split; [reflexivity | apply scenario_C_null_token].
      * exists "0xdeadbeef"%string.
        split; [reflexivity | apply scenario_C_beef_token].
Qed.

Lemma scenario_C_not_repeated : repeated_addresses (hex_tokens output) = [].
Proof.
  unfold repeated_addresses. apply filter_none. intros [k v] H.
  apply (count_all_entry String.eqb String.eqb_eq) in H as [Hk ->].
  cbn [snd]. destruct (no_other k Hk) as [-> | ->].
  - now rewrite one_null.
  - now rewrite nine_beef.
Qed.

Lemma scenario_C_report :
  In (UniqueHex 2) (report_lines so output)
  /\ In NullPointerInsight (report_lines so output)
  /\ In NoRepetitive (report_lines so output)
  /\ ~ In RepetitiveAlert (report_lines so output)
  /\ (forall addr count,
        ~ In (RepeatedAddress addr count) (report_lines so output)).
Proof.
  pose proof scenario_C_null_token as Hnull.
  assert (Hrep : repetition_lines (hex_tokens output) = [NoRepetitive])
    by (unfold repetition_lines; now rewrite scenario_C_not_repeated).
  split; [| split; [| split; [| split]]].
  - apply in_report_hex; [reflexivity |].
    unfold hex_lines. fold (address_tokens output).
    rewrite scenario_C_unique.
    destruct (hex_tokens output); [contradiction | simpl; auto].
  - apply in_report_interpretation; [reflexivity |].
    unfold interpretation_lines.
    assert (He : existsb (String.eqb "0x0") (hex_tokens output) = true).
    { apply existsb_exists. exists "0x0"%string.
      split; [assumption | apply String.eqb_refl]. }
    rewrite He.
    destruct (hex_tokens output); [contradiction |].
    rewrite !in_app_iff. simpl. auto.
  - apply in_report_repetition; [reflexivity |]. rewrite Hrep. now left.
  - intros H. apply in_report_repetition in H; [| reflexivity].
    rewrite Hrep in H. simpl in H. intuition discriminate.
  - intros addr count H. apply in_report_repetition in H; [| reflexivity].
    rewrite Hrep in H. simpl in H. intuition discriminate.
Qed.

End ScenarioC.

(** C8, as the code has it.  On a text whose address tokens are [0x0]
    once and [0xdeadbeef] nine times, a feature vector that is returned
    has 2 as its number of distinct addresses, and a report that is
    returned raises the null-pointer flag and says that no address is
    highly repetitive (nine occurrences are not more than ten); the
    address [0xdeadbeef] occurs nine times in the sequence of addresses.
    The vector and the report are returned exactly on the texts of
    [features_defined] and [analysis_defined]. *)
Theorem scenario_C_two_addresses (so : set_order) (output : string) :
  occ String.eqb "0x0"%string (hex_tokens output) = 1%nat ->
  occ String.eqb "0xdeadbeef"%string (hex_tokens output) = 9%nat ->
  (forall t, In t (hex_tokens output) ->
             t = "0x0"%string \/ t = "0xdeadbeef"%string) ->
  (forall v, extract_features output = Ok v ->
             exists r m s e : R, v = [r; m; s; e; 2%R])
  /\ (forall insights,
        insights_of so output = Ok insights ->
        In (UniqueHex 2) insights
        /\ In NullPointerInsight insights
        /\ In NoRepetitive insights
        /\ ~ In RepetitiveAlert insights
        /\ (forall addr count, ~ In (RepeatedAddress addr count) insights))
  /\ occ Z.eqb 0xdeadbeef%Z (address_tokens output) = 9%nat
  /\ ((exists v, extract_features output = Ok v) <-> features_defined output)
  /\ ((exists insights, insights_of so output = Ok insights)
      <-> analysis_defined output).
Proof.
  intros H1 H9 Hall. split; [| split; [| split; [| split]]].
  - intros v Hv. apply extract_features_ok in Hv as [-> _].
    do 4 eexists. unfold feature_values.
    rewrite (@scenario_C_unique output H1 H9 Hall). reflexivity.
  - intros insights Hi. apply insights_of_ok in Hi as [-> _].
    exact (@scenario_C_report so output H1 H9 Hall).
  - unfold address_tokens.
    change 0xdeadbeef%Z with (int16 "0xdeadbeef").
    rewrite (@occ_map_int16 (hex_tokens output) "0x0"%string "0xdeadbeef"%string Hall)
      by discriminate.
    exact H9.
  - split.
    + intros [v H]. now apply extract_features_ok in H.
    + intros H. eexists. now apply extract_features_defined.
  - split.
    + intros [insights H]. now apply insights_of_ok in H.
    + intros H. eexists. now apply insights_of_report.
Qed.

Lemma scenario_C_two_addresses_witness :
  exists r m s e : R,
    extract_features
      "0xdeadbeef 0xdeadbeef 0xdeadbeef 0x0 0xdeadbeef 0xdeadbeef 0xdeadbeef 0xdeadbeef 0xdeadbeef 0xdeadbeef"
    = Ok [r; m; s; e; 2%R].
Proof.
  set (text := "0xdeadbeef 0xdeadbeef 0xdeadbeef 0x0 0xdeadbeef 0xdeadbeef 0xdeadbeef 0xdeadbeef 0xdeadbeef 0xdeadbeef"%string).
  assert (Hd : features_defined text)
    by (apply features_defined_without_sizes; [reflexivity | vm_compute; lia]).
  assert (Hall : forall t, In t (hex_tokens text) ->
                           t = "0x0"%string \/ t = "0xdeadbeef"%string)
    by (intros t Ht; vm_compute in Ht; intuition).
  destruct (@scenario_C_two_addresses first_seen_order text eq_refl eq_refl
              Hall) as (Hv & _).
  destruct (Hv _ (extract_features_defined Hd)) as (r & m & s & e & E).
  exists r, m, s, e. rewrite (extract_features_defined Hd). now f_equal.
Defined.

(** C8 as stated fails: a text with these address tokens and an
    allocation size beyond the range of the floats gives neither a
    vector nor a report. *)
Lemma scenario_C_overflow :
  occ String.eqb "0x0"%string (hex_tokens scenario_C_overflow_text) = 1%nat
  /\ occ String.eqb "0xdeadbeef"%string (hex_tokens scenario_C_overflow_text)
     = 9%nat
  /\ (forall t, In t (hex_tokens scenario_C_overflow_text) ->
                t = "0x0"%string \/ t = "0xdeadbeef"%string)
  /\ extract_features scenario_C_overflow_text = Raise OverflowError
  /\ forall so, exists e, insights_of so scenario_C_overflow_text = Raise e.
Proof.
  split; [reflexivity |]. split; [reflexivity |].
  split; [intros t Ht; vm_compute in Ht; intuition |].
  destruct (@extract_features_huge scenario_C_overflow_text eq_refl eq_refl)
    as [Hraise Hnot].
  split; [exact Hraise |].
  intros so. destruct (@insights_of_undefined so scenario_C_overflow_text)
    as (e & He & _); [| now exists e].
  intros [Hd _]. contradiction.
Qed.

(** ** The null-pointer flag *)

Lemma insert_by_In (A : Type) (key : A -> Z) (x y : A) (l : list A) :
  In y (insert_by key x l) <-> y = x \/ In y l.
Proof.
  induction l as [| z l IH]; simpl; [intuition |].
  destruct (key x <=? key z)%Z; simpl; [intuition |].
  rewrite IH. intuition.
Qed.

Lemma sorted_In (A : Type) (key : A -> Z) (y : A) (l : list A) :
  In y (sorted key l) <-> In y l.
Proof.
  unfold sorted. induction l as [| x l IH]; simpl; [tauto |].
  rewrite insert_by_In, IH. intuition.
Qed.

Lemma iter_set_In (so : set_order) (l : list string) (t : string) :
  In t (iter_set so l) <-> In t l.
Proof.
  rewrite <- (dedup_In String.eqb String.eqb_eq l t). split.
  - apply Permutation_in, iter_set_perm.
  - apply Permutation_in, Permutation_sym, iter_set_perm.
Qed.

Lemma existsb_null_token (tokens : list string) :
  existsb (String.eqb "0x0") tokens = true <-> In "0x0"%string tokens.
Proof.
  rewrite existsb_exists. split.
  - intros [t [Ht E]]. apply String.eqb_eq in E. now subst.
  - intros H. exists "0x0"%string. split; [assumption | apply String.eqb_refl].
Qed.

Lemma null_insight_in_interpretations (so : set_order) (tokens : list string) :
  In NullPointerInsight (interpretation_lines so tokens)
  <-> In "0x0"%string tokens.
Proof.
  unfold interpretation_lines. destruct tokens as [| t ts] eqn:E.
  - simpl. intuition discriminate.
  - rewrite <- E. rewrite <- existsb_null_token, !in_app_iff. split.
    + intros [H | [H | H]].
      * simpl in H. intuition discriminate.
      * apply in_map_iff in H as [x [Hx _]]. discriminate.
      * destruct (existsb _ tokens); [reflexivity | contradiction].
    + intros ->. right. right. now left.
Qed.

(** C10, as the code has it.  In a report that is returned, the
    null-pointer insight is present exactly when the token [0x0] itself
    is among the address tokens; every token whose value is zero, however
    it is spelled, is interpreted as "NULL pointer". *)
Theorem null_pointer_flag_exact_token (so : set_order) (output : string)
    (insights : list insight) :
  insights_of so output = Ok insights ->
  (In NullPointerInsight insights <-> In "0x0"%string (hex_tokens output))
  /\ (forall t, In t (hex_tokens output) -> int16 t = 0%Z ->
                In (Interpretation t "NULL pointer") insights).
Proof.
  intros Hi. apply insights_of_ok in Hi as [-> _]. split.
  - rewrite in_report_interpretation by reflexivity.
    apply null_insight_in_interpretations.
  - intros t Ht Hz. apply in_report_interpretation; [reflexivity |].
    unfold interpretation_lines.
    destruct (hex_tokens output) as [| t0 ts] eqn:E; [contradiction |].
    rewrite <- E in *. rewrite !in_app_iff. right. left.
    apply in_map_iff. exists t. split.
    + now rewrite Hz.
    + apply sorted_In, iter_set_In. assumption.
Qed.

(** The zero address spelled with more digits: both tokens are read as
    0 and interpreted as "NULL pointer", and the flag is not raised. *)
Lemma null_pointer_flag_exact_token_witness :
  hex_tokens "leaked 0x00 and 0x0000" = ["0x00"; "0x0000"]%string
  /\ map int16 ["0x00"; "0x0000"]%string = [0; 0]%Z
  /\ exists insights,
       insights_of first_seen_order "leaked 0x00 and 0x0000" = Ok insights
       /\ In (Interpretation "0x00" "NULL pointer") insights
       /\ In (Interpretation "0x0000" "NULL pointer") insights
       /\ ~ In NullPointerInsight insights.
Proof.
  split; [reflexivity |]. split; [reflexivity |].
  assert (Hd : analysis_defined "leaked 0x00 and 0x0000")
    by (apply analysis_defined_without_sizes; [reflexivity | vm_compute; lia]).
  pose proof (insights_of_report first_seen_order Hd) as Hi.
  destruct (null_pointer_flag_exact_token _ _ Hi) as (Hflag & Hnull).
  eexists. split; [exact Hi |]. split; [| split].
  - apply Hnull; [vm_compute; tauto | reflexivity].
  - apply Hnull; [vm_compute; tauto | reflexivity].
  - rewrite Hflag. vm_compute. intuition discriminate.
Defined.

(** C10 as stated fails: the token [0x0] is in the text, and nothing is
    emitted, when the analysis raises on an allocation size beyond the
    range of the floats. *)
Lemma null_token_without_report :
  In "0x0"%string (hex_tokens null_token_overflow_text)
  /\ forall so,
       (exists e, insights_of so null_token_overflow_text = Raise e)
       /\ forall insights,
            insights_of so null_token_overflow_text <> Ok insights.
Proof.
  split; [vm_compute; tauto |].
  destruct (@extract_features_huge null_token_overflow_text eq_refl eq_refl)
    as [_ Hnot].
  intros so.
  destruct (@insights_of_undefined so null_token_overflow_text)
    as (e & He & _); [intros [Hd _]; contradiction |].
  split; [now exists e | intros insights; congruence].
Qed.

(** ** perform_ml_analysis below ten cycles *)

Lemma str_len_digit (n : nat) :
  (1 <= n <= 9)%nat ->
  exists d : ascii,
    str_len n = String d EmptyString /\ nat_of_ascii d = (48 + n)%nat.
Proof.
  intros [H1 H9].
  do 10 (destruct n as [| n]; [try lia; eexists; split; reflexivity |]).
  lia.
Qed.

(** C4. With the learning module available and a history of 1 to 9
    vectors, the report is the insufficient-data statement followed by the
    length of the history; the forest is not consulted, nor are the
    values of the vectors. *)
Theorem ml_insufficient_data
    (forest : list (list R) -> list R -> result Z)
    (str_vector : list R -> string) (str_exn : exn -> string)
    (feature_vector : list R) (aggregated : list (list R)) :
  (1 <= List.length aggregated <= 9)%nat ->
  perform_ml_analysis (Some forest) str_vector str_exn feature_vector
    aggregated
  = ("Machine Learning Analysis: Not enough data for robust anomaly detection (need at least 10 cycles)."
     ++ LF ++ "(DEBUG) Aggregated training samples so far: "
     ++ str_len (List.length aggregated))%string
  /\ exists d : ascii,
       str_len (List.length aggregated) = String d EmptyString
       /\ nat_of_ascii d = (48 + List.length aggregated)%nat.
Proof.
  intros H. split; [| now apply str_len_digit].
  unfold perform_ml_analysis.
  destruct (Nat.leb_spec 10 (List.length aggregated)); [lia | reflexivity].
Qed.

Lemma ml_insufficient_data_witness :
  perform_ml_analysis (Some (fun _ _ => Ok (-1)%Z)) (fun _ => EmptyString)
    (fun _ => EmptyString) [1; 2; 3; 4; 5]%R
    [[1; 2; 3; 4; 5]; [9; 9; 9; 9; 9]; [1; 2; 3; 4; 5]]%R
  = ("Machine Learning Analysis: Not enough data for robust anomaly detection (need at least 10 cycles)."
     ++ LF ++ "(DEBUG) Aggregated training samples so far: 3")%string.
Proof.
  apply (@ml_insufficient_data (fun _ _ => Ok (-1)%Z) (fun _ => EmptyString)
           (fun _ => EmptyString) [1; 2; 3; 4; 5]%R
           [[1; 2; 3; 4; 5]; [9; 9; 9; 9; 9]; [1; 2; 3; 4; 5]]%R).
  simpl. lia.
Defined.

(** ** analyze_scan_output *)

Section Rendering.
Variable so : set_order.
Variable fmt_2f fmt_2pct str_float : R -> string.

Lemma analyze_scan_output_defined (output : string) :
  analysis_defined output ->
  analyze_scan_output so fmt_2f fmt_2pct str_float output
  = Ok (join LF (map (render fmt_2f fmt_2pct str_float)
                   (report_lines so output))).
Proof.
  intros Hd. unfold analyze_scan_output. now rewrite insights_of_report.
Qed.

Lemma analyze_scan_output_ok (output report : string) :
  analyze_scan_output so fmt_2f fmt_2pct str_float output = Ok report ->
  analysis_defined output
  /\ report = join LF (map (render fmt_2f fmt_2pct str_float)
                         (report_lines so output)).
Proof.
  unfold analyze_scan_output.
  destruct (insights_of so output) as [insights | e] eqn:E; [| discriminate].
  apply insights_of_ok in E as [-> Hd]. cbn [rbind].
  intros H. inversion H. now split.
Qed.

Lemma analyze_scan_output_raise (output : string) (e : exn) :
  analyze_scan_output so fmt_2f fmt_2pct str_float output = Raise e ->
  (e = ValueError \/ e = OverflowError) /\ ~ analysis_defined output.
Proof.
  unfold analyze_scan_output.
  destruct (insights_of so output) as [insights | e'] eqn:E;
    [discriminate |].
  cbn [rbind]. intros H. inversion H. subst. now apply insights_of_raise in E.
Qed.

End Rendering.

(** ** The cycles of the loop *)

Lemma cycles_started_app (st : loop_state) (aggregated : list (list R))
    (c : nat) (events : list event) :
  (forall n, ~ In (CycleBanner n) events) ->
  cycles_started
    {| aggregated_features := aggregated; cycle := c;
       console := console st ++ events |}
  = cycles_started st.
Proof.
  intros H. unfold cycles_started. cbn [console]. rewrite flat_map_app.
  assert (Hnil : flat_map
                   (fun e => match e with CycleBanner n => [n] | _ => [] end)
                   events = []).
  { induction events as [| e events IH]; [reflexivity |].
    cbn [flat_map]. rewrite IH by (intros n Hn; apply (H n); now right).
    destruct e; try reflexivity. exfalso. apply (H cycle0). now left. }
  rewrite Hnil. apply app_nil_r.
Qed.

Lemma cycles_started_banner (st : loop_state) (aggregated : list (list R))
    (c : nat) (events : list event) :
  (forall n, ~ In (CycleBanner n) events) ->
  cycles_started
    {| aggregated_features := aggregated; cycle := c;
       console := console st ++ CycleBanner (cycle st) :: events |}
  = cycles_started st ++ [cycle st].
Proof.
  intros H.
  pose proof (@cycles_started_app
                {| aggregated_features := aggregated; cycle := c;
                   console := console st ++ [CycleBanner (cycle st)] |}
                aggregated c events H) as E.
  cbn [console] in E. rewrite <- app_assoc in E. cbn [app] in E.
  rewrite E. unfold cycles_started. cbn [console].
  rewrite flat_map_app. reflexivity.
Qed.

Ltac no_banner :=
  let n := fresh "n" in
  let H := fresh "H" in
  intros n H; cbn [In] in H;
  repeat (destruct H as [H | H]; [discriminate |]); try contradiction;
  try (destruct H; discriminate).

Section CycleSteps.
Variable so : set_order.
Variable fmt_2f fmt_2pct str_float : R -> string.
Variable IsolationForest : option (list (list R) -> list R -> result Z).
Variable str_vector : list R -> string.
Variable str_exn : exn -> string.

(** A cycle that nothing interrupts, whose process is launched and gives
    a text of the domain of the analysis. *)
Lemma scan_cycle_ok (b : target_behaviour) (st : loop_state)
    (stdout : string) :
  run_cycle b = Ok stdout ->
  analysis_defined stdout ->
  scan_cycle so fmt_2f fmt_2pct str_float IsolationForest str_vector
    str_exn None b st
  = ({| aggregated_features :=
          aggregated_features st ++ [feature_values stdout];
        cycle :=
          if converged (aggregated_features st ++ [feature_values stdout])
          then cycle st else (cycle st + 1)%nat;
        console :=
          console st
          ++ [ CycleBanner (cycle st); RawOutput stdout;
               AnalysisReport
                 (join LF (map (render fmt_2f fmt_2pct str_float)
                             (report_lines so stdout)));
               FeatureVector (feature_values stdout);
               MLReport
                 (perform_ml_analysis IsolationForest str_vector str_exn
                    (feature_values stdout)
                    (aggregated_features st ++ [feature_values stdout]));
               if converged (aggregated_features st
                             ++ [feature_values stdout])
               then QuitMessage else CycleFooter ] |},
     Ok (if converged (aggregated_features st ++ [feature_values stdout])
         then Break else Next)).
Proof.
  intros Hrun Hd.
  unfold scan_cycle, from_point, mbind, get, print, append_features,
    next_cycle, modify, lift, mret.
  rewrite Hrun, (analyze_scan_output_defined so fmt_2f fmt_2pct str_float Hd),
    (extract_features_defined (proj1 Hd)).
  cbn [aggregated_features cycle console].
  destruct (converged (aggregated_features st ++ [feature_values stdout]));
    cbn [aggregated_features cycle console];
    rewrite <- !app_assoc; reflexivity.
Qed.

(** A cycle whose launch or termination raises: only the banner is
    printed, and the variables of the loop are as they were. *)
Lemma scan_cycle_fail (b : target_behaviour) (st : loop_state) (e : exn) :
  run_cycle b = Raise e ->
  scan_cycle so fmt_2f fmt_2pct str_float IsolationForest str_vector
    str_exn None b st
  = ({| aggregated_features := aggregated_features st;
        cycle := cycle st;
        console := console st ++ [CycleBanner (cycle st)] |},
     Raise e).
Proof.
  intros Hrun.
  unfold scan_cycle, from_point, mbind, get, print, modify, lift.
  now rewrite Hrun.
Qed.

(** A cycle whose analysis raises: the banner and the text are printed,
    and the variables of the loop are as they were. *)
Lemma scan_cycle_analysis_fail (b : target_behaviour) (st : loop_state)
    (stdout : string) (e : exn) :
  run_cycle b = Ok stdout ->
  analyze_scan_output so fmt_2f fmt_2pct str_float stdout = Raise e ->
  scan_cycle so fmt_2f fmt_2pct str_float IsolationForest str_vector
    str_exn None b st
  = ({| aggregated_features := aggregated_features st;
        cycle := cycle st;
        console := console st ++ [CycleBanner (cycle st); RawOutput stdout] |},
     Raise e).
Proof.
  intros Hrun Han.
  unfold scan_cycle, from_point, mbind, get, print, modify, lift.
  rewrite Hrun, Han. cbn [aggregated_features cycle console].
  now rewrite <- app_assoc.
Qed.

Lemma scan_loop_next (b : target_behaviour) (rest : list target_behaviour)
    (stop : interruption) (st st' : loop_state) :
  scan_cycle so fmt_2f fmt_2pct str_float IsolationForest str_vector str_exn
    None b st
  = (st', Ok Next) ->
  scan_loop so fmt_2f fmt_2pct str_float IsolationForest str_vector str_exn
    (b :: rest) stop st
  = scan_loop so fmt_2f fmt_2pct str_float IsolationForest str_vector str_exn
      rest stop st'.
Proof. intros H. cbn [scan_loop]. now rewrite H. Qed.

(** The first cycle of a run cannot end the loop on convergence: there
    is one vector. *)
Lemma scan_cycle_first (b : target_behaviour) (st : loop_state)
    (stdout : string) :
  run_cycle b = Ok stdout ->
  analysis_defined stdout ->
  aggregated_features st = [] ->
  exists st',
    scan_cycle so fmt_2f fmt_2pct str_float IsolationForest str_vector
      str_exn None b st
    = (st', Ok Next)
    /\ aggregated_features st' = [feature_values stdout]
    /\ cycle st' = (cycle st + 1)%nat
    /\ cycles_started st' = cycles_started st ++ [cycle st].
Proof.
  intros Hrun Hd Hagg. rewrite (scan_cycle_ok b st Hrun Hd), Hagg.
  assert (Hc : converged ([] ++ [feature_values stdout]) = false)
    by reflexivity.
  rewrite Hc. eexists. split; [reflexivity |].
  cbn [aggregated_features cycle]. split; [reflexivity |].
  split; [reflexivity |].
  apply cycles_started_banner. no_banner.
Qed.

End CycleSteps.

(** ** The convergence test of the loop *)

Lemma converged_close (earlier : list (list R)) (previous current : list R) :
  List.length previous = 5%nat -> List.length current = 5%nat ->
  (forall i, (i < 5)%nat ->
             (Rabs (nth i current 0 - nth i previous 0) < 1 / 1000000)%R) ->
  converged ((earlier ++ [previous]) ++ [current]) = true.
Proof.
  intros Hp Hc Hclose. unfold converged.
  rewrite !length_app. cbn [List.length].
  destruct (Nat.leb_spec 2 (List.length earlier + 1 + 1)); [| lia].
  replace (List.length earlier + 1 + 1 - 1)%nat
    with (List.length (earlier ++ [previous]))
    by (rewrite length_app; simpl; lia).
  rewrite nth_middle.
  replace (List.length earlier + 1 + 1 - 2)%nat with (List.length earlier)
    by lia.
  rewrite <- app_assoc. cbn [app]. rewrite nth_middle.
  destruct previous as [| p0 [| p1 [| p2 [| p3 [| p4 [| ? ?]]]]]];
    try discriminate.
  destruct current as [| c0 [| c1 [| c2 [| c3 [| c4 [| ? ?]]]]]];
    try discriminate.
  pose proof (Hclose 0%nat ltac:(lia)) as H0.
  pose proof (Hclose 1%nat ltac:(lia)) as H1.
  pose proof (Hclose 2%nat ltac:(lia)) as H2.
  pose proof (Hclose 3%nat ltac:(lia)) as H3.
  pose proof (Hclose 4%nat ltac:(lia)) as H4.
  cbn [nth] in H0, H1, H2, H3, H4.
  cbn [combine map forallb fst snd].
  repeat match goal with
         | |- context [Rlt_dec ?a ?b] =>
             destruct (Rlt_dec a b); [| contradiction]
         end.
  reflexivity.
Qed.

(** The text of the steady process is in the domain of the analysis. *)
Lemma steady_output_defined : analysis_defined steady_output.
Proof.
  assert (Htok : Re.findall Re.re_allocating steady_output = ["1024"]%string)
    by reflexivity.
  assert (Hsizes : allocation_sizes steady_output = [1024]%Z) by reflexivity.
  assert (Hr : ratio_value steady_output = (INR 0 / INR 1)%R) by reflexivity.
  assert (Hm : mean_alloc_value steady_output = (IZR 1024 / INR 1)%R)
    by reflexivity.
  assert (Hs : stdev_alloc_value steady_output = 0%R) by reflexivity.
  split; [split; [| split; [| split]] |].
  - rewrite Hr. cbn [INR]. apply in_float_range_unit. lra.
  - rewrite Htok. constructor; [| constructor].
    apply Nat.leb_le. reflexivity.
  - rewrite Hm. cbn [INR]. apply (@in_float_range_le _ 1024); [reflexivity |].
    rewrite Rabs_pos_eq; lra.
  - rewrite Hs. apply in_float_range_0.
  - rewrite Hsizes. exact I.
Qed.

Section LoopProperties.
Variable so : set_order.
Variable fmt_2f fmt_2pct str_float : R -> string.
Variable IsolationForest : option (list (list R) -> list R -> result Z).
Variable str_vector : list R -> string.
Variable str_exn : exn -> string.

(** C5. When the vector that a cycle extracts is within 1e-6 of the
    previous one in each of the 5 elements, the loop ends in that cycle:
    whatever processes could still be launched and wherever the user
    would interrupt a later cycle, the only banner printed is the one of
    the current cycle.  The vector is appended and the loop ends on
    convergence when the analysis of the text returns; when it raises,
    its exception ends the loop in the same cycle. *)
Theorem convergence_stops_loop
    (b : target_behaviour) (rest : list target_behaviour)
    (stop : interruption) (st : loop_state)
    (stdout : string) (earlier : list (list R)) (previous current : list R) :
  run_cycle b = Ok stdout ->
  extract_features stdout = Ok current ->
  aggregated_features st = earlier ++ [previous] ->
  List.length previous = 5%nat ->
  List.length current = 5%nat ->
  (forall i, (i < 5)%nat ->
             (Rabs (nth i current 0 - nth i previous 0) < 1 / 1000000)%R) ->
  exists st' exit,
    scan_loop so fmt_2f fmt_2pct str_float IsolationForest str_vector
      str_exn (b :: rest) stop st
    = (st', exit)
    /\ cycles_started st' = cycles_started st ++ [cycle st]
    /\ (forall report,
          analyze_scan_output so fmt_2f fmt_2pct str_float stdout = Ok report ->
          exit = Converged
          /\ aggregated_features st' = aggregated_features st ++ [current])
    /\ (forall e,
          analyze_scan_output so fmt_2f fmt_2pct str_float stdout = Raise e ->
          exit = Propagated e
          /\ aggregated_features st' = aggregated_features st).
Proof.
  intros Hrun Hfeat Hagg Hp Hc Hclose.
  cbn [scan_loop].
  destruct (analyze_scan_output so fmt_2f fmt_2pct str_float stdout)
    as [report | e] eqn:Han.
  - destruct (analyze_scan_output_ok _ _ _ _ _ Han) as [Hd _].
    rewrite (scan_cycle_ok so fmt_2f fmt_2pct str_float IsolationForest
               str_vector str_exn b st Hrun Hd).
    apply extract_features_ok in Hfeat as [Hcur _]. rewrite <- Hcur.
    rewrite Hagg, (@converged_close earlier previous current Hp Hc Hclose).
    cbn [leave_cycle]. do 2 eexists. split; [reflexivity |].
    split; [apply cycles_started_banner; no_banner |].
    split; [intros r _; split; reflexivity | intros e He; discriminate].
  - rewrite (scan_cycle_analysis_fail so fmt_2f fmt_2pct str_float
               IsolationForest str_vector str_exn b st Hrun Han).
    cbn [leave_cycle]. do 2 eexists. split; [reflexivity |].
    split; [apply cycles_started_banner; no_banner |].
    split; [intros r Hr; discriminate |].
    intros e' He. inversion He. split; reflexivity.
Qed.

End LoopProperties.

(** Two cycles with the same output: the second one ends the loop, and
    the third process is never launched. *)
Lemma convergence_stops_loop_witness :
  exists st',
    scan_loop first_seen_order (fun _ => EmptyString) (fun _ => EmptyString)
      (fun _ => EmptyString) None (fun _ => EmptyString)
      (fun _ => EmptyString) [steady_target; steady_target; steady_target]
      AtLoopHead initial_state
    = (st', Converged)
    /\ List.length (aggregated_features st') = 2%nat
    /\ cycles_started st' = [0; 1]%nat.
Proof.
  assert (Hrun : run_cycle steady_target = Ok steady_output) by reflexivity.
  pose proof steady_output_defined as Hd.
  pose proof (extract_features_defined (proj1 Hd)) as Hv.
  pose proof (analyze_scan_output_defined first_seen_order
                (fun _ => EmptyString) (fun _ => EmptyString)
                (fun _ => EmptyString) Hd) as Han.
  pose proof (@scan_cycle_first first_seen_order (fun _ => EmptyString)
                (fun _ => EmptyString) (fun _ => EmptyString) None
                (fun _ => EmptyString) (fun _ => EmptyString)
                steady_target initial_state steady_output Hrun Hd eq_refl)
    as H1.
  destruct H1 as (st1 & Hstep & Hagg & Hcycle & Hstarted).
  assert (Hlen : List.length (feature_values steady_output) = 5%nat)
    by reflexivity.
  assert (Hclose : forall i, (i < 5)%nat ->
                     (Rabs (nth i (feature_values steady_output) 0
                            - nth i (feature_values steady_output) 0)
                      < 1 / 1000000)%R).
  { intros i _. unfold Rminus. rewrite Rplus_opp_r, Rabs_R0. lra. }
  pose proof (@convergence_stops_loop first_seen_order (fun _ => EmptyString)
                (fun _ => EmptyString) (fun _ => EmptyString) None
                (fun _ => EmptyString) (fun _ => EmptyString)
                steady_target [steady_target] AtLoopHead st1 steady_output []
                (feature_values steady_output) (feature_values steady_output)
                Hrun Hv Hagg Hlen Hlen Hclose) as H2.
  destruct H2 as (st2 & exit & Hloop & Hstarted2 & Hok & _).
  destruct (Hok _ Han) as [-> Hagg2].
  exists st2. split; [| split].
  - rewrite (@scan_loop_next _ _ _ _ _ _ _ _ [steady_target; steady_target]
               _ _ _ Hstep).
    exact Hloop.
  - rewrite Hagg2, Hagg. reflexivity.
  - rewrite Hstarted2, Hstarted, Hcycle. reflexivity.
Defined.

(** ** One cycle of the supervisor *)

(** C2 as stated fails: when both collections time out, the text that
    had been read does not come back; the cycle returns the empty
    string. *)
Lemma forced_termination_drops_captured_output :
  on_communicate_forced stubborn_target
  = Raise (TimeoutExpired "Iteration 0: Allocating 1024 bytes")
  /\ run_cycle stubborn_target = Ok EmptyString
  /\ run_cycle stubborn_target <> Ok "Iteration 0: Allocating 1024 bytes"%string.
Proof. repeat split. discriminate. Qed.

(** C2, as the code has it.  Once the process is launched, if the
    graceful signal succeeds or finds no process, and the first collection
    of the output either returns or times out, the cycle returns a text
    and raises nothing: every failure of the forced path (the kill or the
    second collection) is absorbed, and the text is then empty. *)
Theorem forced_termination_absorbed (b : target_behaviour) :
  on_launch b = Ok tt ->
  on_sigterm b = Ok tt \/ on_sigterm b = Raise ProcessLookupError ->
  (forall e, on_communicate b = Raise e ->
             exists captured, e = TimeoutExpired captured) ->
  (exists stdout, run_cycle b = Ok stdout)
  /\ (forall captured e,
        on_communicate b = Raise (TimeoutExpired captured) ->
        (_ <- on_sigkill b ;; on_communicate_forced b)%result = Raise e ->
        run_cycle b = Ok EmptyString).
Proof.
  intros Hlaunch Hterm Hcomm. unfold run_cycle, terminate_and_collect.
  rewrite Hlaunch. cbn [rbind].
  assert (Hsig :
    match on_sigterm b with
    | Ok _ => Ok tt
    | Raise ProcessLookupError => Ok tt
    | Raise e => Raise e
    end = Ok tt) by (destruct Hterm as [-> | ->]; reflexivity).
  rewrite Hsig. cbn [rbind]. split.
  - destruct (on_communicate b) as [out | e]; [eauto |].
    destruct (Hcomm e eq_refl) as [captured ->].
    destruct (_ <- on_sigkill b ;; on_communicate_forced b)%result; eauto.
  - intros captured e Hc Hforced. now rewrite Hc, Hforced.
Qed.

Lemma forced_termination_absorbed_witness :
  run_cycle stubborn_target = Ok EmptyString.
Proof.
  destruct (@forced_termination_absorbed stubborn_target eq_refl
              (or_introl eq_refl)) as [_ H].
  - intros e He. inversion He. eauto.
  - exact (H _ _ eq_refl eq_refl).
Defined.

(** Outside the forced path only two failures are caught: any other
    exception at the graceful signal leaves the cycle. *)
Lemma graceful_signal_failure_propagates (b : target_behaviour) (msg : string) :
  on_launch b = Ok tt ->
  on_sigterm b = Raise (OtherError msg) ->
  run_cycle b = Raise (OtherError msg).
Proof.
  intros Hl Hs. unfold run_cycle, terminate_and_collect.
  now rewrite Hl, Hs.
Qed.

(** ** The scans on sample texts *)

Example findall_allocating_sample :
  Re.findall Re.re_allocating scenario_B_text = ["1024"; "3072"]%string.
Proof. reflexivity. Qed.

Example findall_hex_sample :
  Re.findall Re.re_hex "at 0x7ffdeadBEEF, 0x0 and 0x00g 0x x0x1F"
  = ["0x7ffdeadBEEF"; "0x0"; "0x00"; "0x1F"]%string.
Proof. reflexivity. Qed.

Example findall_iteration_sample :
  Re.findall Re.re_iteration
    "Iteration 0:Iteration 12: Iteration : Iteration 3 :"
  = ["0"; "12"]%string.
Proof. reflexivity. Qed.

Example int16_sample :
  map int16 ["0x7ff"; "0x0"; "0x00"; "0x1F"]%string = [2047; 0; 0; 31]%Z.
Proof. reflexivity. Qed.

Example interpret_address_sample :
  map interpret_address [0; 0x7ffdeadbeef0; 0x401000; 0x55d0c0de0000; 42]%Z
  = [ "NULL pointer"; "Likely a stack address";
      "Likely an address in the code (text) segment";
      "Likely a heap or global variable address";
      "Unknown memory region" ]%string.
Proof. reflexivity. Qed.

Example null_page_sample :
  null_page_lines "(DEBUG) Null page mapping attempt failed: Operation not permitted"
  = [NullPageFailed].
Proof. reflexivity. Qed.

(** * Further properties of the analysis and of the loop *)

(** ** Substrings *)

Lemma strip_prefix_iff (p s r : string) :
  Re.strip_prefix p s = Some r <-> s = (p ++ r)%string.
Proof.
  revert s. induction p as [| a p IH]; intros s; simpl.
  - split; [intros H; now inversion H | now intros ->].
  - destruct s as [| b s]; [split; discriminate |].
    destruct (Ascii.eqb_spec a b) as [-> | Hne].
    + rewrite IH. split; [now intros -> | intros H; now inversion H].
    + split; [discriminate | intros H; inversion H; congruence].
Qed.

Lemma contains_unfold (needle hay : string) :
  Re.contains needle hay
  = match Re.strip_prefix needle hay with
    | Some _ => true
    | None =>
        match hay with
        | EmptyString => false
        | String _ hay' => Re.contains needle hay'
        end
    end.
Proof. destruct hay; reflexivity. Qed.

Lemma contains_iff (needle hay : string) :
  Re.contains needle hay = true
  <-> exists pre post, hay = (pre ++ needle ++ post)%string.
Proof.
  split.
  - induction hay as [| c hay IH]; simpl.
    + destruct (Re.strip_prefix needle "") as [r |] eqn:E; [| discriminate].
      intros _. apply strip_prefix_iff in E. exists EmptyString, r. exact E.
    + destruct (Re.strip_prefix needle (String c hay)) as [r |] eqn:E.
      * intros _. apply strip_prefix_iff in E. exists EmptyString, r. exact E.
      * intros H. destruct (IH H) as (pre & post & ->).
        now exists (String c pre), post.
  - intros (pre & post & ->). induction pre as [| c pre IH]; simpl.
    + assert (E : Re.strip_prefix needle (needle ++ post) = Some post)
        by now apply strip_prefix_iff.
      now rewrite contains_unfold, E.
    + destruct (Re.strip_prefix needle _); [reflexivity | exact IH].
Qed.

(** ** The frame of the report *)

Lemma block_lengths (so : set_order) (output : string) :
  (1 <= List.length (ratio_lines (iteration_count output)
                       (recovery_count output)))%nat
  /\ (1 <= List.length (allocation_lines (allocation_sizes output)))%nat
  /\ (1 <= List.length (hex_lines (hex_tokens output)))%nat
  /\ (1 <= List.length (repetition_lines (hex_tokens output)))%nat
  /\ (1 <= List.length (warning_lines (iteration_count output)
                          (recovery_count output)))%nat
  /\ (1 <= List.length (interpretation_lines so (hex_tokens output)))%nat.
Proof.
  repeat split.
  - unfold ratio_lines. destruct (0 <? _)%nat; simpl; lia.
  - unfold allocation_lines. destruct (allocation_sizes output); simpl; lia.
  - unfold hex_lines. destruct (hex_tokens output); simpl; lia.
  - unfold repetition_lines. destruct (repeated_addresses _); simpl; lia.
  - unfold warning_lines. destruct (high_ratio _ _); simpl; lia.
  - unfold interpretation_lines. destruct (hex_tokens output); simpl; lia.
Qed.

Lemma sample_output_analysed (so : set_order) :
  insights_of so sample_output = Ok (report_lines so sample_output).
Proof.
  apply insights_of_report, analysis_defined_without_sizes;
    [reflexivity | vm_compute; lia].
Qed.

Lemma steady_output_analysed (so : set_order) :
  insights_of so steady_output = Ok (report_lines so steady_output).
Proof. apply insights_of_report, steady_output_defined. Qed.

Lemma report_lines_length (so : set_order) (output : string) :
  (9 <= List.length (report_lines so output))%nat.
Proof.
  unfold report_lines. rewrite !length_app.
  destruct (block_lengths so output) as (H1 & H2 & H3 & H4 & H5 & H6).
  assert (H7 : (1 <= List.length (null_page_lines output))%nat).
  { unfold null_page_lines.
    destruct (Re.contains _ output); [simpl; lia |].
    destruct (Re.contains _ output); simpl; lia. }
  simpl List.length at 1 2. lia.
Qed.

(** X1. [analyze_scan_output] returns exactly on the texts whose
    allocation sizes are written with at most 4300 digits and whose
    ratio, mean, deviation and median of the sizes are within the range
    of the floats; the report is then the text of at least nine
    statements.  On every other text it raises [ValueError] or
    [OverflowError], and nothing else: the divisions by a count, the
    statistics on short lists and the logarithms are all guarded. *)
Theorem analyze_scan_output_domain (so : set_order)
    (fmt_2f fmt_2pct str_float : R -> string) (output : string) :
  (analysis_defined output ->
   exists insights,
     insights_of so output = Ok insights
     /\ analyze_scan_output so fmt_2f fmt_2pct str_float output
        = Ok (join LF (map (render fmt_2f fmt_2pct str_float) insights))
     /\ (9 <= List.length insights)%nat)
  /\ (~ analysis_defined output ->
      exists e,
        analyze_scan_output so fmt_2f fmt_2pct str_float output = Raise e
        /\ (e = ValueError \/ e = OverflowError))
  /\ (forall report,
        analyze_scan_output so fmt_2f fmt_2pct str_float output = Ok report ->
        analysis_defined output)
  /\ (forall e,
        analyze_scan_output so fmt_2f fmt_2pct str_float output = Raise e ->
        (e = ValueError \/ e = OverflowError) /\ ~ analysis_defined output).
Proof.
  split; [| split; [| split]].
  - intros Hd. exists (report_lines so output).
    split; [now apply insights_of_report |].
    split; [now apply analyze_scan_output_defined |].
    apply report_lines_length.
  - intros Hnot. destruct (insights_of_undefined so Hnot) as (e & He & Hk).
    exists e. split; [| exact Hk].
    unfold analyze_scan_output. now rewrite He.
  - intros report H. now apply analyze_scan_output_ok in H.
  - intros e H. now apply analyze_scan_output_raise in H.
Qed.

(** X2. The report opens with the number of iteration markers and the
    number of recovery markers and closes with one statement on the
    null page: the success statement when the text contains the success
    phrase (whether or not it also contains the failure phrase), the
    failure statement when it contains only the failure phrase, the
    not-detected statement otherwise.  No statement in between is of
    these kinds. *)
Theorem report_frame (so : set_order) (output : string)
    (insights : list insight) :
  insights_of so output = Ok insights ->
  exists middle,
    insights
    = TotalIterations (iteration_count output)
      :: SegfaultCount (recovery_count output)
      :: middle
      ++ [ if Re.contains "(DEBUG) Successfully mapped null page" output
           then NullPageMapped
           else if Re.contains "(DEBUG) Null page mapping attempt failed"
                     output
           then NullPageFailed
           else NullPageNotDetected ]
    /\ (forall i, In i middle -> (2 <= block_of i <= 7)%nat)
    /\ ((exists pre post,
           output = (pre ++ "(DEBUG) Successfully mapped null page" ++ post)%string)
        <-> Re.contains "(DEBUG) Successfully mapped null page" output = true)
    /\ ((exists pre post,
           output
           = (pre ++ "(DEBUG) Null page mapping attempt failed" ++ post)%string)
        <-> Re.contains "(DEBUG) Null page mapping attempt failed" output
            = true).
Proof.
  intros Hi. apply insights_of_ok in Hi as [-> _].
  exists (ratio_lines (iteration_count output) (recovery_count output)
          ++ allocation_lines (allocation_sizes output)
          ++ hex_lines (hex_tokens output)
          ++ repetition_lines (hex_tokens output)
          ++ warning_lines (iteration_count output) (recovery_count output)
          ++ interpretation_lines so (hex_tokens output)).
  split; [| split; [| split]].
  - unfold report_lines, null_page_lines.
    cbn [app]. do 2 f_equal. rewrite <- !app_assoc.
    do 6 f_equal.
    destruct (Re.contains _ output); [reflexivity |].
    destruct (Re.contains _ output); reflexivity.
  - intros i. rewrite !in_app_iff.
    pose proof (ratio_lines_block (iteration_count output)
                  (recovery_count output)) as B2.
    pose proof (allocation_lines_block (allocation_sizes output)) as B3.
    pose proof (hex_lines_block (hex_tokens output)) as B4.
    pose proof (repetition_lines_block (hex_tokens output)) as B5.
    pose proof (warning_lines_block (iteration_count output)
                  (recovery_count output)) as B6.
    pose proof (interpretation_lines_block so (hex_tokens output)) as B7.
    rewrite Forall_forall in B2, B3, B4, B5, B6, B7.
    intros [H | [H | [H | [H | [H | H]]]]];
      [ rewrite (B2 _ H) | rewrite (B3 _ H) | rewrite (B4 _ H)
      | rewrite (B5 _ H) | rewrite (B6 _ H) | rewrite (B7 _ H) ]; lia.
  - symmetry. apply contains_iff.
  - symmetry. apply contains_iff.
Qed.

Lemma report_frame_witness :
  exists middle,
    report_lines first_seen_order sample_output
    = TotalIterations 2 :: SegfaultCount 1 :: middle ++ [NullPageFailed].
Proof.
  destruct (@report_frame _ _ _ (sample_output_analysed first_seen_order))
    as (middle & E & _).
  exists middle. exact E.
Defined.

(** ** The statements on iterations and recoveries *)

Lemma in_report_ratio (so : set_order) (output : string) (i : insight) :
  block_of i = 2%nat ->
  (In i (report_lines so output)
   <-> i = SegfaultCount (recovery_count output)
       \/ In i (ratio_lines (iteration_count output) (recovery_count output))).
Proof.
  intros Hb. rewrite in_report_cases. split; [| tauto].
  intros [-> | [-> | [H | [H | [H | [H | [H | [H | H]]]]]]]];
    try discriminate; try tauto; other_block.
Qed.

Lemma in_report_warning (so : set_order) (output : string) (i : insight) :
  block_of i = 6%nat ->
  (In i (report_lines so output)
   <-> In i (warning_lines (iteration_count output) (recovery_count output))).
Proof.
  intros Hb. rewrite in_report_cases. split; [| tauto].
  intros [-> | [-> | [H | [H | [H | [H | [H | [H | H]]]]]]]];
    try discriminate; try assumption; other_block.
Qed.

(** X3. The report states the successful iterations and the ratio exactly
    when there is an iteration marker, and says that no iteration was
    detected otherwise; the number of successful iterations is the
    difference of the two counts, negative exactly when the recovery
    markers outnumber the iteration markers. *)
Theorem ratio_statements (so : set_order) (output : string)
    (insights : list insight) :
  insights_of so output = Ok insights ->
  (forall z, In (SuccessfulIterations z) insights
                  <-> (0 < iteration_count output)%nat
                      /\ z = (Z.of_nat (iteration_count output)
                              - Z.of_nat (recovery_count output))%Z)
  /\ (forall r, In (SegfaultRatio r) insights
                <-> (0 < iteration_count output)%nat
                    /\ r = (INR (recovery_count output)
                            / INR (iteration_count output))%R)
  /\ (In NoIterationsDetected insights <-> iteration_count output = 0%nat)
  /\ ((exists z, In (SuccessfulIterations z) insights /\ (z < 0)%Z)
      <-> (0 < iteration_count output < recovery_count output)%nat).
Proof.
  intros Hi. apply insights_of_ok in Hi as [-> _].
  set (n := iteration_count output). set (s := recovery_count output).
  assert (Hsucc : forall z, In (SuccessfulIterations z) (report_lines so output)
                            <-> (0 < n)%nat /\ z = (Z.of_nat n - Z.of_nat s)%Z).
  { intros z. rewrite in_report_ratio by reflexivity. fold n s.
    unfold ratio_lines. destruct (Nat.ltb_spec 0 n); simpl.
    - split.
      + intros [H' | [H' | [H' | []]]]; try discriminate.
        inversion H'. auto.
      + intros [_ ->]. auto.
    - split; [intuition discriminate | lia]. }
  split; [exact Hsucc |]. split; [| split].
  - intros r. rewrite in_report_ratio by reflexivity. fold n s.
    unfold ratio_lines. destruct (Nat.ltb_spec 0 n); simpl.
    + split.
      * intros [H' | [H' | [H' | []]]]; try discriminate.
        inversion H'. auto.
      * intros [_ ->]. auto.
    + split; [intuition discriminate | lia].
  - rewrite in_report_ratio by reflexivity. fold n s.
    unfold ratio_lines. destruct (Nat.ltb_spec 0 n); simpl.
    + split; [intuition discriminate | lia].
    + split; [lia | auto].
  - split.
    + intros [z [Hz Hneg]]. apply Hsucc in Hz. lia.
    + intros H. exists (Z.of_nat n - Z.of_nat s)%Z. split; [| lia].
      apply Hsucc. split; [lia | reflexivity].
Qed.

Lemma ratio_statements_witness :
  In (SuccessfulIterations 1) (report_lines first_seen_order sample_output)
  /\ ~ In NoIterationsDetected (report_lines first_seen_order sample_output).
Proof.
  destruct (@ratio_statements _ _ _ (sample_output_analysed first_seen_order))
    as (Hsucc & _ & Hnone & _).
  split.
  - apply Hsucc. split; [vm_compute; lia | reflexivity].
  - rewrite Hnone. vm_compute. discriminate.
Defined.

Lemma high_ratio_iff (n s : nat) :
  high_ratio n s = true <-> (0 < n)%nat /\ (3 * n < 10 * s)%nat.
Proof.
  unfold high_ratio. destruct (Nat.ltb_spec 0 n) as [Hn | Hn];
    [| split; [discriminate | lia]].
  assert (Hpos : (0 < INR n)%R) by now apply lt_0_INR.
  destruct (Rgt_dec (INR s / INR n) (3 / 10)) as [Hgt | Hle].
  - split; [| reflexivity]. intros _. split; [assumption |].
    apply INR_lt. rewrite !mult_INR. simpl INR.
    assert (H : (3 / 10 * INR n < INR s / INR n * INR n)%R)
      by (apply Rmult_lt_compat_r; assumption).
    unfold Rdiv in H at 2. rewrite Rmult_assoc, Rinv_l in H by lra. lra.
  - split; [discriminate |]. intros [_ H]. exfalso. apply Hle.
    apply lt_INR in H. rewrite !mult_INR in H. simpl INR in H.
    apply Rmult_lt_reg_r with (INR n); [assumption |].
    unfold Rdiv at 2. rewrite Rmult_assoc, Rinv_l by lra. lra.
Qed.

(** X4. The report carries the warning on frequent segmentation faults
    exactly when there is an iteration marker and more than three
    recovery markers for ten iteration markers; in every other case it
    carries the statement that the frequency is within limits, and never
    both. *)
Theorem warning_threshold (so : set_order) (output : string)
    (insights : list insight) :
  insights_of so output = Ok insights ->
  (In HighSegfaultWarning insights
   <-> (0 < iteration_count output)%nat
       /\ (3 * iteration_count output < 10 * recovery_count output)%nat)
  /\ (In SegfaultWithinLimits insights <-> ~ In HighSegfaultWarning insights).
Proof.
  intros Hi. apply insights_of_ok in Hi as [-> _].
  rewrite !in_report_warning by reflexivity.
  rewrite <- high_ratio_iff. unfold warning_lines.
  destruct (high_ratio _ _); simpl; intuition discriminate.
Qed.

(** One recovery for two iterations is more than three for ten. *)
Lemma warning_threshold_witness :
  In HighSegfaultWarning (report_lines first_seen_order sample_output).
Proof.
  apply (proj1 (@warning_threshold _ _ _ (sample_output_analysed first_seen_order))).
  vm_compute. lia.
Defined.

(** ** The report and the feature vector *)

Lemma in_hex_stat_lines_kind (ints : list Z) (i : insight) :
  In i (hex_stat_lines ints) ->
  i = InsufficientHexStats
  \/ (exists t, i = AverageHex t) \/ (exists t, i = MedianHex t)
  \/ (exists r, i = StdevHex r).
Proof.
  unfold hex_stat_lines.
  destruct (Statistics.mean ints) as [[avg | avg] | e1];
    destruct (Statistics.stdev ints) as [sd | e2];
    destruct (Statistics.median ints) as [[med | med] | e3];
    simpl; intuition eauto.
Qed.

Lemma in_hex_lines_unique (tokens : list string) (u : nat) :
  In (UniqueHex u) (hex_lines tokens) ->
  tokens <> [] /\ u = len_set (map int16 tokens).
Proof.
  unfold hex_lines. destruct tokens as [| t ts] eqn:E;
    [simpl; intuition discriminate |].
  rewrite <- E. rewrite !in_app_iff. intros [H | H].
  - simpl in H. destruct H as [H | [H | []]]; [discriminate |].
    inversion H. split; [subst; discriminate | reflexivity].
  - exfalso. destruct (1 <? _)%nat.
    + rewrite in_app_iff in H. destruct H as [H | H].
      * apply in_hex_stat_lines_kind in H.
        destruct H as [H | [[? H] | [[? H] | [? H]]]]; discriminate.
      * simpl in H. intuition discriminate.
    + simpl in H. intuition discriminate.
Qed.

Lemma in_hex_lines_total (tokens : list string) (n : nat) :
  In (TotalHex n) (hex_lines tokens) ->
  tokens <> [] /\ n = List.length tokens.
Proof.
  unfold hex_lines. destruct tokens as [| t ts] eqn:E;
    [simpl; intuition discriminate |].
  rewrite <- E. rewrite !in_app_iff. intros [H | H].
  - simpl in H. destruct H as [H | [H | []]]; [| discriminate].
    inversion H. split; [subst; discriminate | reflexivity].
  - exfalso. destruct (1 <? _)%nat.
    + rewrite in_app_iff in H. destruct H as [H | H].
      * apply in_hex_stat_lines_kind in H.
        destruct H as [H | [[? H] | [[? H] | [? H]]]]; discriminate.
      * simpl in H. intuition discriminate.
    + simpl in H. intuition discriminate.
Qed.

Lemma in_hex_lines_entropy (tokens : list string) (e : R) :
  In (HexEntropy e) (hex_lines tokens) ->
  e = entropy_formula (map int16 tokens).
Proof.
  unfold hex_lines. destruct tokens as [| t ts] eqn:E;
    [simpl; intuition discriminate |].
  rewrite <- E. rewrite !in_app_iff. intros [H | H].
  - simpl in H. intuition discriminate.
  - destruct (1 <? _)%nat.
    + rewrite in_app_iff in H. destruct H as [H | H].
      * apply in_hex_stat_lines_kind in H.
        destruct H as [H | [[? H] | [[? H] | [? H]]]]; discriminate.
      * simpl in H. destruct H as [H | []]. now inversion H.
    + simpl in H. intuition discriminate.
Qed.

Lemma in_allocation_lines_average (sizes : list Z) (m : R) :
  In (AverageAlloc m) (allocation_lines sizes) ->
  sizes <> [] /\ m = (IZR (py_sum sizes) / INR (List.length sizes))%R.
Proof.
  unfold allocation_lines. destruct sizes as [| z zs] eqn:E;
    [simpl; intuition discriminate |].
  rewrite <- E. rewrite in_app_iff. intros [H | H].
  - simpl in H. destruct H as [H | [H | []]]; [| discriminate].
    inversion H. split; [subst; discriminate | reflexivity].
  - destruct (1 <? _)%nat; simpl in H; intuition discriminate.
Qed.

Lemma in_allocation_lines_stdev (sizes : list Z) (s : R) :
  In (StdevAlloc s) (allocation_lines sizes) ->
  (1 <? List.length sizes)%nat = true /\ s = Statistics.stdev_num sizes.
Proof.
  unfold allocation_lines. destruct sizes as [| z zs] eqn:E;
    [simpl; intuition discriminate |].
  rewrite <- E. rewrite in_app_iff. intros [H | H].
  - simpl in H. intuition discriminate.
  - destruct (1 <? List.length sizes)%nat; simpl in H.
    + destruct H as [H | [H | []]]; [| discriminate].
      inversion H. auto.
    + intuition discriminate.
Qed.

Lemma in_ratio_lines_ratio (n s : nat) (r : R) :
  In (SegfaultRatio r) (ratio_lines n s) ->
  (0 <? n)%nat = true /\ r = (INR s / INR n)%R.
Proof.
  unfold ratio_lines. destruct (0 <? n)%nat; simpl.
  - intros [H | [H | []]]; [discriminate |]. inversion H. auto.
  - intuition discriminate.
Qed.

(** X5. The report and the feature vector of one text agree: when the
    analysis returns a report, so does [extract_features] return a
    vector, and the ratio, the average allocation, the deviation of the
    allocations, the entropy and the number of distinct addresses that
    the report states are the five elements of the vector. *)
Theorem report_agrees_with_features (so : set_order) (output : string)
    (insights : list insight) :
  insights_of so output = Ok insights ->
  exists r m s e u,
    extract_features output = Ok [r; m; s; e; u]
    /\ (forall x, In (SegfaultRatio x) insights -> x = r)
    /\ (forall x, In (AverageAlloc x) insights -> x = m)
    /\ (forall x, In (StdevAlloc x) insights -> x = s)
    /\ (forall x, In (HexEntropy x) insights -> x = e)
    /\ (forall k, In (UniqueHex k) insights -> INR k = u).
Proof.
  intros Hi. apply insights_of_ok in Hi as [-> [Hd _]].
  do 5 eexists.
  split; [apply (extract_features_defined Hd) |].
  repeat split.
  - intros x H. apply in_report_ratio in H; [| reflexivity].
    destruct H as [H | H]; [discriminate |].
    apply in_ratio_lines_ratio in H as [Hn ->].
    unfold ratio_value. now rewrite Hn.
  - intros x H. apply in_report_allocation in H; [| reflexivity].
    apply in_allocation_lines_average in H as [Hne ->].
    unfold mean_alloc_value.
    destruct (allocation_sizes output); [congruence | reflexivity].
  - intros x H. apply in_report_allocation in H; [| reflexivity].
    apply in_allocation_lines_stdev in H as [Hlen ->].
    unfold stdev_alloc_value. now rewrite Hlen.
  - intros x H. apply in_report_hex in H; [| reflexivity].
    now apply in_hex_lines_entropy in H.
  - intros k H. apply in_report_hex in H; [| reflexivity].
    apply in_hex_lines_unique in H as [_ ->]. reflexivity.
Qed.

Lemma report_agrees_with_features_witness :
  exists r m s e u,
    extract_features steady_output = Ok [r; m; s; e; u]
    /\ (forall x, In (AverageAlloc x)
                    (report_lines first_seen_order steady_output) -> x = m).
Proof.
  destruct (@report_agrees_with_features _ _ _
              (steady_output_analysed first_seen_order))
    as (r & m & s & e & u & Hv & _ & Hm & _).
  exists r, m, s, e, u. split; assumption.
Defined.

Lemma dedup_length_le (A : Type) (eqb : A -> A -> bool) (l : list A) :
  (List.length (dedup eqb l) <= List.length l)%nat.
Proof.
  induction l as [| x l IH]; simpl; [lia |].
  pose proof (filter_length_le (fun y => negb (eqb x y)) (dedup eqb l)). lia.
Qed.

(** X6. When the text has address tokens the report states their number
    and the number of distinct address values; the second is at least 1
    and at most the first.  Without address tokens neither statement
    is made. *)
Theorem unique_at_most_total (so : set_order) (output : string)
    (insights : list insight) :
  insights_of so output = Ok insights ->
  (forall n, In (TotalHex n) insights
             <-> hex_tokens output <> []
                 /\ n = List.length (hex_tokens output))
  /\ (forall u, In (UniqueHex u) insights
                <-> hex_tokens output <> []
                    /\ u = len_set (address_tokens output))
  /\ (hex_tokens output <> [] ->
      (1 <= len_set (address_tokens output)
         <= List.length (hex_tokens output))%nat).
Proof.
  intros Hi. apply insights_of_ok in Hi as [-> _].
  split; [| split].
  - intros n. rewrite in_report_hex by reflexivity.
    split; [apply in_hex_lines_total |]. intros [Hne ->].
    unfold hex_lines. destruct (hex_tokens output); [congruence |].
    rewrite in_app_iff. left. now left.
  - intros u. rewrite in_report_hex by reflexivity.
    split; [apply in_hex_lines_unique |]. intros [Hne ->].
    unfold hex_lines, address_tokens.
    destruct (hex_tokens output); [congruence |].
    rewrite in_app_iff. left. right. now left.
  - intros Hne. unfold len_set, address_tokens. split.
    + destruct (hex_tokens output) as [| t ts]; [congruence |]. simpl. lia.
    + rewrite <- (length_map int16 (hex_tokens output)).
      apply dedup_length_le.
Qed.

(** Three tokens, two distinct values. *)
Lemma unique_at_most_total_witness :
  In (TotalHex 3) (report_lines first_seen_order sample_output)
  /\ In (UniqueHex 2) (report_lines first_seen_order sample_output).
Proof.
  destruct (@unique_at_most_total _ _ _
              (sample_output_analysed first_seen_order))
    as (Htotal & Hunique & _).
  split.
  - apply Htotal. split; [vm_compute; discriminate | reflexivity].
  - apply Hunique. split; [vm_compute; discriminate | reflexivity].
Defined.

(** ** The allocation statistics *)

Lemma fold_add_acc (l : list Z) (a : Z) :
  fold_left Z.add l a = (a + fold_left Z.add l 0)%Z.
Proof.
  revert a. induction l as [| x l IH]; intros a; simpl; [lia |].
  rewrite (IH (a + x)%Z), (IH x). lia.
Qed.

Lemma py_sum_cons (x : Z) (l : list Z) : py_sum (x :: l) = (x + py_sum l)%Z.
Proof. unfold py_sum. simpl. apply fold_add_acc. Qed.

Lemma py_sum_between (l : list Z) (lo hi : Z) :
  (forall x, In x l -> (lo <= x <= hi)%Z) ->
  (Z.of_nat (List.length l) * lo <= py_sum l
   <= Z.of_nat (List.length l) * hi)%Z.
Proof.
  induction l as [| x l IH]; intros H; [unfold py_sum; simpl; lia |].
  rewrite py_sum_cons. cbn [List.length]. rewrite Nat2Z.inj_succ.
  specialize (IH (fun y Hy => H y (or_intror Hy))).
  pose proof (H x (or_introl eq_refl)). lia.
Qed.

Lemma fold_min_spec (l : list Z) (a : Z) :
  (fold_left Z.min l a <= a)%Z
  /\ (forall x, In x l -> (fold_left Z.min l a <= x)%Z)
  /\ (fold_left Z.min l a = a \/ In (fold_left Z.min l a) l).
Proof.
  revert a. induction l as [| y l IH]; intros a; simpl.
  - split; [lia |]. split; [tauto | auto].
  - destruct (IH (Z.min a y)) as (H1 & H2 & H3). split; [lia |]. split.
    + intros x [<- | Hx]; [lia | now apply H2].
    + destruct H3 as [H3 | H3]; [| auto].
      destruct (Z.min_spec a y) as [[_ E] | [_ E]]; rewrite E in *;
        [auto | right; left; now symmetry].
Qed.

Lemma fold_max_spec (l : list Z) (a : Z) :
  (a <= fold_left Z.max l a)%Z
  /\ (forall x, In x l -> (x <= fold_left Z.max l a)%Z)
  /\ (fold_left Z.max l a = a \/ In (fold_left Z.max l a) l).
Proof.
  revert a. induction l as [| y l IH]; intros a; simpl.
  - split; [lia |]. split; [tauto | auto].
  - destruct (IH (Z.max a y)) as (H1 & H2 & H3). split; [lia |]. split.
    + intros x [<- | Hx]; [lia | now apply H2].
    + destruct H3 as [H3 | H3]; [| auto].
      destruct (Z.max_spec a y) as [[_ E] | [_ E]]; rewrite E in *;
        [right; left; now symmetry | auto].
Qed.

Lemma py_min_spec (l : list Z) :
  l <> [] -> In (py_min l) l /\ (forall x, In x l -> (py_min l <= x)%Z).
Proof.
  destruct l as [| a l]; [congruence |]. intros _. unfold py_min.
  destruct (fold_min_spec l a) as (H1 & H2 & H3). split.
  - destruct H3 as [-> | H3]; [now left | now right].
  - intros x [<- | Hx]; [assumption | now apply H2].
Qed.

Lemma py_max_spec (l : list Z) :
  l <> [] -> In (py_max l) l /\ (forall x, In x l -> (x <= py_max l)%Z).
Proof.
  destruct l as [| a l]; [congruence |]. intros _. unfold py_max.
  destruct (fold_max_spec l a) as (H1 & H2 & H3). split.
  - destruct H3 as [-> | H3]; [now left | now right].
  - intros x [<- | Hx]; [assumption | now apply H2].
Qed.

Lemma in_allocation_lines_range (sizes : list Z) (lo hi : Z) :
  In (AllocRange lo hi) (allocation_lines sizes)
  <-> sizes <> [] /\ lo = py_min sizes /\ hi = py_max sizes.
Proof.
  unfold allocation_lines. destruct sizes as [| z zs] eqn:E.
  - simpl. split; [intuition discriminate | intros [H _]; congruence].
  - rewrite <- E. rewrite in_app_iff. split.
    + intros [H | H].
      * simpl in H. destruct H as [H | [H | []]]; [discriminate |].
        inversion H. subst lo hi. split; [subst; discriminate | auto].
      * destruct (1 <? _)%nat; simpl in H; intuition discriminate.
    + intros (_ & -> & ->). left. right. now left.
Qed.

(** X7. The allocation range is stated, in a report that is returned,
    exactly when the text has an allocation marker, and it is made of
    the smallest and the largest allocation size of the text: both are
    sizes that occur in the text, and every size lies between them. *)
Theorem allocation_range_bounds (so : set_order) (output : string)
    (insights : list insight) :
  insights_of so output = Ok insights ->
  (allocation_sizes output <> []
   <-> exists lo hi, In (AllocRange lo hi) insights)
  /\ (forall lo hi,
        In (AllocRange lo hi) insights ->
        In lo (allocation_sizes output)
        /\ In hi (allocation_sizes output)
        /\ (forall x, In x (allocation_sizes output) -> (lo <= x <= hi)%Z)).
Proof.
  intros Hi. apply insights_of_ok in Hi as [-> _].
  set (sizes := allocation_sizes output). split.
  - split.
    + intros Hne. exists (py_min sizes), (py_max sizes).
      apply in_report_allocation; [reflexivity |].
      now apply in_allocation_lines_range.
    + intros (lo & hi & H). apply in_report_allocation in H; [| reflexivity].
      now apply in_allocation_lines_range in H.
  - intros lo hi H. apply in_report_allocation in H; [| reflexivity].
    apply in_allocation_lines_range in H as (Hne & -> & ->).
    destruct (py_min_spec Hne) as [Hmin_in Hmin].
    destruct (py_max_spec Hne) as [Hmax_in Hmax].
    split; [assumption |]. split; [assumption |].
    intros x Hx; split; auto.
Qed.

Lemma allocation_range_bounds_witness :
  exists lo hi,
    In (AllocRange lo hi) (report_lines first_seen_order steady_output)
    /\ In lo (allocation_sizes steady_output).
Proof.
  destruct (@allocation_range_bounds _ _ _
              (steady_output_analysed first_seen_order)) as [Hiff Hrange].
  assert (Hne : allocation_sizes steady_output <> [])
    by (vm_compute; discriminate).
  destruct (proj1 Hiff Hne) as (lo & hi & H).
  exists lo, hi. split; [exact H | exact (proj1 (Hrange lo hi H))].
Defined.

Lemma Rsq_nonneg (a : R) : (0 <= a * a)%R.
Proof. exact (Rle_0_sqr a). Qed.

Lemma sq_dev_fold_nonneg (m : R) (l : list Z) :
  (0 <= fold_right (fun x acc => (IZR x - m) * (IZR x - m) + acc) 0 l)%R.
Proof.
  induction l as [| x l IH]; simpl; [lra |].
  pose proof (Rsq_nonneg (IZR x - m)). lra.
Qed.

Lemma sum_sq_dev_zero_iff (data : list Z) :
  Statistics.sum_sq_dev data = 0%R
  <-> forall x, In x data ->
        IZR x = (IZR (py_sum data) / INR (List.length data))%R.
Proof.
  unfold Statistics.sum_sq_dev.
  generalize (IZR (py_sum data) / INR (List.length data))%R as m. intros m.
  induction data as [| x l IH]; simpl; [tauto |].
  pose proof (sq_dev_fold_nonneg m l) as Hl0.
  pose proof (Rsq_nonneg (IZR x - m)) as Hx0. split.
  - intros H0 y [<- | Hy].
    + assert (Hsq : ((IZR x - m) * (IZR x - m) = 0)%R) by lra.
      apply Rmult_integral in Hsq. lra.
    + apply IH; [lra | assumption].
  - intros Hall.
    assert (Hx : IZR x = m) by (apply Hall; now left).
    assert (Hl : fold_right
                   (fun x acc => ((IZR x - m) * (IZR x - m) + acc)%R) 0%R l
                 = 0%R) by (apply IH; intros y Hy; apply Hall; now right).
    rewrite Hl, Hx. lra.
Qed.

Lemma py_sum_constant (data : list Z) (a : Z) :
  (forall x, In x data -> x = a) ->
  py_sum data = (Z.of_nat (List.length data) * a)%Z.
Proof.
  induction data as [| x l IH]; intros H; [reflexivity |].
  rewrite py_sum_cons, IH by (intros y Hy; apply H; now right).
  rewrite (H x (or_introl eq_refl)). cbn [List.length]. lia.
Qed.

Lemma stdev_num_zero_iff (data : list Z) :
  (1 < List.length data)%nat ->
  (Statistics.stdev_num data = 0%R
   <-> forall x y, In x data -> In y data -> x = y).
Proof.
  intros Hlen. unfold Statistics.stdev_num.
  assert (Hn1 : (0 < INR (List.length data - 1))%R)
    by (apply lt_0_INR; lia).
  assert (Hn : (0 < INR (List.length data))%R) by (apply lt_0_INR; lia).
  assert (Hss : (0 <= Statistics.sum_sq_dev data)%R).
  { unfold Statistics.sum_sq_dev.
    generalize (IZR (py_sum data) / INR (List.length data))%R as m. intros m.
    apply sq_dev_fold_nonneg. }
  assert (Hq : (0 <= Statistics.sum_sq_dev data / INR (List.length data - 1))%R).
  { apply Rmult_le_pos; [assumption |]. left. now apply Rinv_0_lt_compat. }
  split.
  - intros H0. apply sqrt_eq_0 in H0; [| assumption].
    assert (Hz : Statistics.sum_sq_dev data = 0%R).
    { apply Rmult_eq_compat_r with (r := INR (List.length data - 1)) in H0.
      unfold Rdiv in H0. rewrite Rmult_assoc, Rinv_l in H0 by lra. lra. }
    rewrite sum_sq_dev_zero_iff in Hz.
    intros x y Hx Hy. apply eq_IZR. now rewrite (Hz x Hx), (Hz y Hy).
  - intros Hall.
    assert (Hz : Statistics.sum_sq_dev data = 0%R).
    { apply sum_sq_dev_zero_iff.
      destruct data as [| a l]; [simpl in Hlen; lia |].
      intros x Hx.
      rewrite (@py_sum_constant (a :: l) a)
        by (intros y Hy; apply Hall; [assumption | now left]).
      rewrite mult_IZR, <- INR_IZR_INZ, (Hall x a Hx (or_introl eq_refl)).
      field. lra. }
    rewrite Hz. unfold Rdiv. rewrite Rmult_0_l. apply sqrt_0.
Qed.

(** X8. The third feature of a vector that is returned, the deviation
    of the allocation sizes, is 0 exactly when all the allocation sizes
    of the text are equal (which includes the texts with no size or a
    single one). *)
Theorem stdev_feature_zero_iff (output : string) (r m s e u : R) :
  extract_features output = Ok [r; m; s; e; u] ->
  (s = 0%R
   <-> forall x y, In x (allocation_sizes output) ->
                   In y (allocation_sizes output) -> x = y).
Proof.
  intros H. apply extract_features_ok in H as [Hv _].
  unfold feature_values in Hv. inversion Hv. subst. clear Hv.
  unfold stdev_alloc_value.
  destruct (Nat.ltb_spec 1 (List.length (allocation_sizes output))) as [H | H].
  - now apply stdev_num_zero_iff.
  - split; [| reflexivity]. intros _ x y Hx Hy.
    destruct (allocation_sizes output) as [| a [| b l]];
      [contradiction | | simpl in H; lia].
    destruct Hx as [<- | []]. destruct Hy as [<- | []]. reflexivity.
Qed.

Lemma stdev_feature_zero_iff_witness :
  stdev_alloc_value steady_output = 0%R.
Proof.
  apply (@stdev_feature_zero_iff steady_output _ _ _ _ _
           (extract_features_defined (proj1 steady_output_defined))).
  intros x y Hx Hy. vm_compute in Hx, Hy.
  destruct Hx as [<- | []]. destruct Hy as [<- | []]. reflexivity.
Defined.

(** ** The frequency dictionaries *)

Lemma count_all_keys_NoDup (K : Type) (eqb : K -> K -> bool)
    (eqb_eq : forall x y, eqb x y = true <-> x = y) (xs : list K) :
  NoDup (map fst (Dict.count_all eqb xs)).
Proof.
  unfold Dict.count_all. apply (count_fold_keys_NoDup eqb eqb_eq).
  constructor.
Qed.

(** X9. The dictionary that the counting loop builds, over address
    values in [calculate_entropy] and over address tokens in
    [analyze_scan_output], has one entry for each distinct item of the
    list and no other, and the entry holds the number of occurrences of
    the item, which is at least 1. *)
Theorem frequency_dictionary_counts :
  (forall (address_list : list Z) (addr : Z) (count : nat),
      In (addr, count) (Dict.count_all Z.eqb address_list)
      <-> In addr address_list /\ count = occ Z.eqb addr address_list)
  /\ (forall (hex_addresses : list string) (addr : string) (count : nat),
        In (addr, count) (Dict.count_all String.eqb hex_addresses)
        <-> In addr hex_addresses
            /\ count = occ String.eqb addr hex_addresses)
  /\ (forall address_list : list Z,
        NoDup (map fst (Dict.count_all Z.eqb address_list))
        /\ Forall (fun count => (1 <= count)%nat)
             (Dict.values (Dict.count_all Z.eqb address_list)))
  /\ (forall hex_addresses : list string,
        NoDup (map fst (Dict.count_all String.eqb hex_addresses))
        /\ Forall (fun count => (1 <= count)%nat)
             (Dict.values (Dict.count_all String.eqb hex_addresses))).
Proof.
  split; [intros; apply (count_all_entry_iff Z.eqb Z.eqb_eq) |].
  split; [intros; apply (count_all_entry_iff String.eqb String.eqb_eq) |].
  split.
  - intros l. split; [apply (count_all_keys_NoDup Z.eqb Z.eqb_eq) |].
    apply Forall_forall. intros v Hv. unfold Dict.values in Hv.
    apply in_map_iff in Hv as [[k v'] [<- Hin]]. cbn [snd].
    apply (count_all_entry_iff Z.eqb Z.eqb_eq) in Hin as [Hk ->].
    now apply (occ_pos Z.eqb Z.eqb_eq).
  - intros l. split; [apply (count_all_keys_NoDup String.eqb String.eqb_eq) |].
    apply Forall_forall. intros v Hv. unfold Dict.values in Hv.
    apply in_map_iff in Hv as [[k v'] [<- Hin]]. cbn [snd].
    apply (count_all_entry_iff String.eqb String.eqb_eq) in Hin as [Hk ->].
    now apply (occ_pos String.eqb String.eqb_eq).
Qed.

(** ** The statements on repeated addresses *)

(** X10. An address token is listed as highly repetitive exactly when it
    occurs more than 10 times in the text (10 occurrences are not
    enough), with its number of occurrences; tokens are counted as they
    are spelled.  The alert heads the list exactly when some token
    qualifies, and the statement that nothing is repetitive is made
    exactly when none does. *)
Theorem repetition_statements (so : set_order) (output : string)
    (insights : list insight) :
  insights_of so output = Ok insights ->
  (forall addr count,
      In (RepeatedAddress addr count) insights
      <-> count = occ String.eqb addr (hex_tokens output)
          /\ (10 < count)%nat)
  /\ (In RepetitiveAlert insights
      <-> exists addr, (10 < occ String.eqb addr (hex_tokens output))%nat)
  /\ (In NoRepetitive insights
      <-> forall addr, (occ String.eqb addr (hex_tokens output) <= 10)%nat).
Proof.
  intros Hi. apply insights_of_ok in Hi as [-> _].
  assert (Hlisted : forall addr count,
            In (RepeatedAddress addr count) (report_lines so output)
            <-> count = occ String.eqb addr (hex_tokens output)
                /\ (10 < count)%nat)
    by (intros; apply repeated_address_threshold).
  split; [exact Hlisted |].
  assert (Hitems : forall addr count,
            In (addr, count) (repeated_addresses (hex_tokens output))
            <-> In (RepeatedAddress addr count) (report_lines so output)).
  { intros addr count. rewrite in_report_repetition by reflexivity.
    unfold repetition_lines.
    destruct (repeated_addresses (hex_tokens output)) as [| it its] eqn:E.
    - simpl. intuition discriminate.
    - rewrite <- E. simpl. rewrite in_map_iff. split.
      + intros H. right. now exists (addr, count).
      + intros [H | [[a c] [H Hin]]]; [discriminate |].
        cbn [fst snd] in H. now inversion H; subst. }
  rewrite !in_report_repetition by reflexivity. unfold repetition_lines.
  destruct (repeated_addresses (hex_tokens output)) as [| [a c] its] eqn:E.
  - assert (Hnone : forall addr,
              (occ String.eqb addr (hex_tokens output) <= 10)%nat).
    { intros addr.
      destruct (Nat.le_gt_cases (occ String.eqb addr (hex_tokens output)) 10)
        as [H | H]; [assumption |].
      exfalso.
      apply (Hitems addr (occ String.eqb addr (hex_tokens output))).
      apply Hlisted. split; [reflexivity | assumption]. }
    simpl. split.
    + split; [intuition discriminate |].
      intros [addr H]. specialize (Hnone addr). lia.
    + split; [intros _; exact Hnone | auto].
  - assert (Hsome : (10 < occ String.eqb a (hex_tokens output))%nat).
    { assert (Hin : In (a, c) ((a, c) :: its)) by now left.
      apply Hitems, Hlisted in Hin. destruct Hin as [-> H]. exact H. }
    simpl. split.
    + split; [intros _; now exists a | auto].
    + split.
      * intros [H | [H | H]]; try discriminate.
        apply in_map_iff in H as [x [H _]]. discriminate.
      * intros H. specialize (H a). lia.
Qed.

(** A token that occurs eleven times is listed. *)
Lemma repetition_statements_witness :
  In (RepeatedAddress "0x1f" 11)
    (report_lines first_seen_order
       "0x1f 0x1f 0x1f 0x1f 0x1f 0x1f 0x1f 0x1f 0x1f 0x1f 0x1f")
  /\ In RepetitiveAlert
       (report_lines first_seen_order
          "0x1f 0x1f 0x1f 0x1f 0x1f 0x1f 0x1f 0x1f 0x1f 0x1f 0x1f").
Proof.
  set (text := "0x1f 0x1f 0x1f 0x1f 0x1f 0x1f 0x1f 0x1f 0x1f 0x1f 0x1f"%string).
  assert (Hd : analysis_defined text)
    by (apply analysis_defined_without_sizes; [reflexivity | vm_compute; lia]).
  destruct (@repetition_statements _ _ _
              (insights_of_report first_seen_order Hd))
    as (Hlisted & Halert & _).
  split.
  - apply Hlisted. split; [reflexivity | lia].
  - apply Halert. exists "0x1f"%string.
    assert (Hocc : occ String.eqb "0x1f"%string (hex_tokens text) = 11%nat)
      by reflexivity.
    rewrite Hocc. lia.
Defined.

(** ** The statistics of the address values *)

Lemma median_num_odd_is_int (data : list Z) :
  Nat.odd (List.length data) = true ->
  exists z, Statistics.median_num data = PyInt z.
Proof.
  intros Ho. unfold Statistics.median_num.
  rewrite sorted_length, Ho. eauto.
Qed.

Lemma hex_lines_few (tokens : list string) (i : insight) :
  (List.length tokens <= 1)%nat ->
  In i (hex_lines tokens) ->
  i = NoHexFound \/ i = NotEnoughHexData
  \/ (exists n, i = TotalHex n) \/ (exists n, i = UniqueHex n).
Proof.
  intros H. unfold hex_lines. rewrite length_map.
  destruct (Nat.ltb_spec 1 (List.length tokens)); [lia |].
  destruct tokens; simpl; intuition eauto.
Qed.

Section HexStatistics.
Variable ints : list Z.
Hypothesis many : (1 < List.length ints)%nat.

Lemma ints_not_nil : ints <> [].
Proof. destruct ints; [simpl in many; lia | discriminate]. Qed.

(** The three statements: an integral mean, a deviation within the range
    of the floats, an odd number of addresses. *)
Lemma hex_stat_lines_full :
  (py_sum ints mod Z.of_nat (List.length ints) = 0)%Z ->
  in_float_range (Statistics.stdev_num ints) ->
  Nat.odd (List.length ints) = true ->
  exists med,
    hex_stat_lines ints
    = [ AverageHex (hex16 (py_sum ints / Z.of_nat (List.length ints)));
        MedianHex (hex16 med);
        StdevHex (Statistics.stdev_num ints) ].
Proof.
  intros Hmod Hsd Hodd.
  destruct (median_num_odd_is_int ints Hodd) as [med Hmed]. exists med.
  unfold hex_stat_lines.
  rewrite (mean_ok ints_not_nil), (median_ok ints_not_nil),
    stdev_ok by now apply Nat.ltb_lt.
  unfold Statistics.mean_num.
  rewrite (proj2 (Z.eqb_eq _ _) Hmod), Hmed, (to_float_ok Hsd).
  reflexivity.
Qed.

(** The mean alone, then the fallback: an even number of addresses,
    whose median is a [float]. *)
Lemma hex_stat_lines_mean_only :
  (py_sum ints mod Z.of_nat (List.length ints) = 0)%Z ->
  in_float_range (Statistics.stdev_num ints) ->
  Nat.odd (List.length ints) = false ->
  representable (Statistics.median_num ints) ->
  hex_stat_lines ints
  = [ AverageHex (hex16 (py_sum ints / Z.of_nat (List.length ints)));
      InsufficientHexStats ].
Proof.
  intros Hmod Hsd Hodd Hrep.
  destruct (@median_num_even_is_float ints) as [r Hmed].
  { unfold Nat.odd in Hodd. now destruct (Nat.even (List.length ints)). }
  unfold hex_stat_lines.
  rewrite (mean_ok ints_not_nil), (median_ok ints_not_nil),
    stdev_ok by now apply Nat.ltb_lt.
  unfold Statistics.mean_num.
  rewrite (proj2 (Z.eqb_eq _ _) Hmod), (to_float_ok Hsd),
    (@convert_ok _ Hrep), Hmed.
  reflexivity.
Qed.

(** The fallback alone, in every other case. *)
Lemma hex_stat_lines_fallback :
  ~ ((py_sum ints mod Z.of_nat (List.length ints) = 0)%Z
     /\ in_float_range (Statistics.stdev_num ints)
     /\ representable (Statistics.median_num ints)) ->
  hex_stat_lines ints = [InsufficientHexStats].
Proof.
  intros Hnot.
  destruct (Z.eqb_spec (py_sum ints mod Z.of_nat (List.length ints)) 0)
    as [Hmod | Hmod].
  - unfold hex_stat_lines.
    rewrite (mean_ok ints_not_nil), (median_ok ints_not_nil),
      stdev_ok by now apply Nat.ltb_lt.
    unfold Statistics.mean_num.
    rewrite (proj2 (Z.eqb_eq _ _) Hmod). cbn [Statistics.convert].
    destruct (in_float_range_dec (Statistics.stdev_num ints)) as [Hsd | Hsd];
      [rewrite (to_float_ok Hsd) | now rewrite (to_float_overflow Hsd)].
    rewrite convert_overflow; [reflexivity | tauto].
  - apply (@hex_stat_lines_fractional_mean ints
             (IZR (py_sum ints) / IZR (Z.of_nat (List.length ints)))).
    unfold Statistics.mean_num.
    destruct (Z.eqb_spec (py_sum ints mod Z.of_nat (List.length ints)) 0);
      [contradiction | reflexivity].
Qed.

End HexStatistics.

(** X11. In a report that is returned, the statement of the average
    address is present exactly when there are at least two address
    tokens, their mean is an integer, their deviation is within the
    range of the floats and so is their median; the statements of the
    median and of the deviation need in addition an odd number of
    tokens, since the median of an even number is a float that the
    hexadecimal format refuses.  With at least two tokens, the fallback
    statement is made in all the other cases. *)
Theorem hex_statistics_statements (so : set_order) (output : string)
    (insights : list insight) :
  insights_of so output = Ok insights ->
  (forall t,
      In (AverageHex t) insights
      <-> (1 < List.length (address_tokens output))%nat
          /\ (py_sum (address_tokens output)
              mod Z.of_nat (List.length (address_tokens output)) = 0)%Z
          /\ in_float_range (Statistics.stdev_num (address_tokens output))
          /\ representable (Statistics.median_num (address_tokens output))
          /\ t = hex16 (py_sum (address_tokens output)
                        / Z.of_nat (List.length (address_tokens output))))
  /\ (forall r,
        In (StdevHex r) insights
        <-> (1 < List.length (address_tokens output))%nat
            /\ (py_sum (address_tokens output)
                mod Z.of_nat (List.length (address_tokens output)) = 0)%Z
            /\ in_float_range (Statistics.stdev_num (address_tokens output))
            /\ Nat.odd (List.length (address_tokens output)) = true
            /\ r = Statistics.stdev_num (address_tokens output))
  /\ ((exists t, In (MedianHex t) insights)
      <-> exists r, In (StdevHex r) insights)
  /\ (In InsufficientHexStats insights
      <-> (1 < List.length (address_tokens output))%nat
          /\ ~ exists r, In (StdevHex r) insights).
Proof.
  intros Hi. apply insights_of_ok in Hi as [-> _].
  unfold address_tokens. set (tokens := hex_tokens output).
  set (ints := map int16 tokens).
  assert (Hlen : List.length ints = List.length tokens)
    by apply length_map.
  assert (Hin : forall i, block_of i = 4%nat ->
            (In i (report_lines so output) <-> In i (hex_lines tokens)))
    by (intros i Hb; now apply in_report_hex).
  destruct (Nat.lt_ge_cases 1 (List.length tokens)) as [Hmany | Hfew].
  - assert (Hmany' : (1 < List.length ints)%nat) by now rewrite Hlen.
    assert (Hstat : forall i,
              (i = InsufficientHexStats \/ (exists t, i = AverageHex t)
               \/ (exists t, i = MedianHex t) \/ (exists r, i = StdevHex r)) ->
              (In i (report_lines so output) <-> In i (hex_stat_lines ints))).
    { intros i Hk.
      assert (Hb : block_of i = 4%nat)
        by (destruct Hk as [-> | [[? ->] | [[? ->] | [? ->]]]]; reflexivity).
      rewrite (Hin i Hb), hex_lines_many by assumption.
      fold ints. rewrite !in_app_iff. simpl. split; [| tauto].
      intros [[H | [H | []]] | [H | [H | []]]]; try assumption;
        destruct Hk as [-> | [[? ->] | [[? ->] | [? ->]]]]; discriminate. }
    destruct (Z.eqb_spec (py_sum ints mod Z.of_nat (List.length ints)) 0)
      as [Hmod | Hmod];
      [destruct (in_float_range_dec (Statistics.stdev_num ints)) as [Hsd | Hsd];
       [destruct (representable_dec (Statistics.median_num ints))
          as [Hrep | Hrep] | ] | ].
    + destruct (Nat.odd (List.length ints)) eqn:Hodd.
      * destruct (@hex_stat_lines_full ints Hmany' Hmod Hsd Hodd) as [med Hlines].
        rewrite Hlines in Hstat.
        assert (Hsdin : In (StdevHex (Statistics.stdev_num ints))
                          (report_lines so output))
          by (apply Hstat; [eauto 6 | simpl; auto]).
        split; [| split; [| split]].
        -- intros t. rewrite Hstat by eauto. simpl. split.
           ++ intros [H | [H | [H | []]]]; try discriminate.
              inversion H. auto 6.
           ++ intros (_ & _ & _ & _ & ->). now left.
        -- intros r. rewrite Hstat by eauto 6. simpl. split.
           ++ intros [H | [H | [H | []]]]; try discriminate.
              inversion H. auto 6.
           ++ intros (_ & _ & _ & _ & ->). auto.
        -- split; [intros _; eauto |].
           intros _. exists (hex16 med). apply Hstat; [eauto 6 | simpl; auto].
        -- rewrite Hstat by eauto. simpl. split.
           ++ intuition discriminate.
           ++ intros [_ H]. exfalso. apply H.
              exists (Statistics.stdev_num ints). exact Hsdin.
      * rewrite (@hex_stat_lines_mean_only ints Hmany' Hmod Hsd Hodd Hrep) in Hstat.
        assert (Hnosd : ~ exists r, In (StdevHex r) (report_lines so output)).
        { intros [r H]. apply Hstat in H; [| eauto 6]. simpl in H.
          intuition discriminate. }
        split; [| split; [| split]].
        -- intros t. rewrite Hstat by eauto. simpl. split.
           ++ intros [H | [H | []]]; try discriminate. inversion H. auto 6.
           ++ intros (_ & _ & _ & _ & ->). now left.
        -- intros r. split.
           ++ intros H. exfalso. apply Hnosd. eauto.
           ++ intros (_ & _ & _ & H & _). discriminate.
        -- split; [| intros H; contradiction].
           intros [t H]. apply Hstat in H; [| eauto 6]. simpl in H.
           intuition discriminate.
        -- rewrite Hstat by eauto. simpl. split; [auto | auto].
    + assert (Hodd : Nat.odd (List.length ints) = false).
      { destruct (Nat.odd (List.length ints)) eqn:Hodd; [| reflexivity].
        destruct (median_num_odd_is_int ints Hodd) as [med Hmed].
        exfalso. apply Hrep. now rewrite Hmed. }
      rewrite (@hex_stat_lines_fallback ints Hmany') in Hstat by tauto.
      assert (Hnosd : ~ exists r, In (StdevHex r) (report_lines so output)).
      { intros [r H]. apply Hstat in H; [| eauto 6]. simpl in H.
        intuition discriminate. }
      split; [| split; [| split]].
      * intros t. rewrite Hstat by eauto. simpl. split.
        -- intuition discriminate.
        -- intros (_ & _ & _ & H & _). contradiction.
      * intros r. split.
        -- intros H. exfalso. apply Hnosd. eauto.
        -- intros (_ & _ & _ & H & _). congruence.
      * split; [| intros H; contradiction].
        intros [t H]. apply Hstat in H; [| eauto 6]. simpl in H.
        intuition discriminate.
      * rewrite Hstat by eauto. simpl. split; [auto | auto].
    + rewrite (@hex_stat_lines_fallback ints Hmany') in Hstat by tauto.
      assert (Hnosd : ~ exists r, In (StdevHex r) (report_lines so output)).
      { intros [r H]. apply Hstat in H; [| eauto 6]. simpl in H.
        intuition discriminate. }
      split; [| split; [| split]].
      * intros t. rewrite Hstat by eauto. simpl. split.
        -- intuition discriminate.
        -- intros (_ & _ & H & _). contradiction.
      * intros r. split.
        -- intros H. exfalso. apply Hnosd. eauto.
        -- intros (_ & _ & H & _). contradiction.
      * split; [| intros H; contradiction].
        intros [t H]. apply Hstat in H; [| eauto 6]. simpl in H.
        intuition discriminate.
      * rewrite Hstat by eauto. simpl. split; [auto | auto].
    + rewrite (@hex_stat_lines_fallback ints Hmany') in Hstat by tauto.
      assert (Hnosd : ~ exists r, In (StdevHex r) (report_lines so output)).
      { intros [r H]. apply Hstat in H; [| eauto 6]. simpl in H.
        intuition discriminate. }
      split; [| split; [| split]].
      * intros t. rewrite Hstat by eauto. simpl. split.
        -- intuition discriminate.
        -- intros (_ & H & _). contradiction.
      * intros r. split.
        -- intros H. exfalso. apply Hnosd. eauto.
        -- intros (_ & H & _). contradiction.
      * split; [| intros H; contradiction].
        intros [t H]. apply Hstat in H; [| eauto 6]. simpl in H.
        intuition discriminate.
      * rewrite Hstat by eauto. simpl. split; [auto | auto].
  - assert (Hnone : forall i,
              (i = InsufficientHexStats \/ (exists t, i = AverageHex t)
               \/ (exists t, i = MedianHex t) \/ (exists r, i = StdevHex r)) ->
              ~ In i (report_lines so output)).
    { intros i Hk H.
      assert (Hb : block_of i = 4%nat)
        by (destruct Hk as [-> | [[? ->] | [[? ->] | [? ->]]]]; reflexivity).
      rewrite (Hin i Hb) in H. apply hex_lines_few in H; [| assumption].
      destruct H as [-> | [-> | [[? ->] | [? ->]]]];
        destruct Hk as [Hk | [[? Hk] | [[? Hk] | [? Hk]]]]; discriminate. }
    rewrite Hlen.
    split; [| split; [| split]].
    + intros t. split; [| lia]. intros H. exfalso. revert H.
      apply Hnone. eauto.
    + intros r. split; [| lia]. intros H. exfalso. revert H.
      apply Hnone. eauto 6.
    + split; intros [x H]; exfalso; revert H; apply Hnone; eauto 6.
    + split; [| lia]. intros H. exfalso. revert H. apply Hnone. auto.
Qed.

(** Three addresses 1, 2, 3: the three statements are in the report. *)
Lemma hex_statistics_statements_witness :
  In (AverageHex "0000000000000002")
    (report_lines first_seen_order "0x1 0x2 0x3")
  /\ ~ In InsufficientHexStats (report_lines first_seen_order "0x1 0x2 0x3").
Proof.
  assert (Hd : analysis_defined "0x1 0x2 0x3")
    by (apply analysis_defined_without_sizes; [reflexivity | vm_compute; lia]).
  destruct (@hex_statistics_statements _ _ _
              (insights_of_report first_seen_order Hd))
    as (Havg & Hsd & _ & Hfallback).
  assert (Hints : address_tokens "0x1 0x2 0x3" = [1; 2; 3]%Z) by reflexivity.
  assert (Hval : Statistics.stdev_num [1; 2; 3]%Z = 1%R).
  { unfold Statistics.stdev_num, Statistics.sum_sq_dev.
    replace (py_sum [1; 2; 3]%Z) with 6%Z by reflexivity.
    cbn [List.length fold_right Nat.sub INR].
    transitivity (sqrt 1); [f_equal; lra | apply sqrt_1]. }
  assert (Hrange : in_float_range (Statistics.stdev_num [1; 2; 3]%Z))
    by (rewrite Hval; apply in_float_range_unit; lra).
  split.
  - apply Havg. rewrite Hints.
    split; [simpl; lia |]. split; [reflexivity |].
    split; [exact Hrange |]. split; [exact I | reflexivity].
  - rewrite Hfallback, Hints. intros [_ Hno]. apply Hno.
    exists (Statistics.stdev_num [1; 2; 3]%Z). apply Hsd. rewrite Hints.
    split; [simpl; lia |]. split; [reflexivity |].
    split; [exact Hrange |]. split; reflexivity.
Defined.

(** ** The entropy of the address values *)

Lemma ln_le_minus_1 (y : R) : (0 < y)%R -> (ln y <= y - 1)%R.
Proof.
  intros Hy. pose proof (exp_ineq1_le (y - 1)) as H.
  replace (1 + (y - 1))%R with y in H by lra.
  destruct H as [H | H].
  - left. rewrite <- (ln_exp (y - 1)). now apply ln_increasing.
  - right. rewrite H at 1. apply ln_exp.
Qed.

Section Counting.
Variable K : Type.
Variable eqb : K -> K -> bool.
Hypothesis eqb_eq : forall x y, eqb x y = true <-> x = y.

Lemma set_sum (k : K) (v : nat) (d : Dict.t K) :
  (list_sum (Dict.values (Dict.set eqb k v d)) + Dict.get eqb k 0 d
   = list_sum (Dict.values d) + v)%nat.
Proof.
  unfold Dict.values.
  induction d as [| [k0 v0] d IH]; simpl.
  - lia.
  - destruct (eqb k k0); simpl; lia.
Qed.

Lemma set_incr_sum (k : K) (d : Dict.t K) :
  list_sum (Dict.values (Dict.count_step eqb d k))
  = S (list_sum (Dict.values d)).
Proof.
  unfold Dict.count_step.
  pose proof (set_sum k (Dict.get eqb k 0 d + 1) d). lia.
Qed.

Lemma count_fold_sum (xs : list K) (d : Dict.t K) :
  list_sum (Dict.values (fold_left (Dict.count_step eqb) xs d))
  = (list_sum (Dict.values d) + List.length xs)%nat.
Proof.
  revert d. induction xs as [| x xs IH]; intros d; simpl; [lia |].
  rewrite IH, set_incr_sum. lia.
Qed.

(** The counts of the distinct items add up to the number of items. *)
Lemma occ_sum_dedup (l : list K) :
  list_sum (map (fun k => occ eqb k l) (dedup eqb l)) = List.length l.
Proof.
  rewrite <- (Permutation_list_sum
                (Permutation_map (fun k => occ eqb k l)
                   (count_all_keys eqb eqb_eq l))).
  rewrite <- (count_all_values eqb eqb_eq).
  unfold Dict.count_all. now rewrite count_fold_sum.
Qed.

Lemma occ_all_equal (k : K) (l : list K) :
  occ eqb k l = List.length l <-> forall x, In x l -> x = k.
Proof.
  induction l as [| y l IH]; simpl; [tauto |].
  pose proof (occ_le_length eqb k l).
  destruct (eqb k y) eqn:E.
  - apply eqb_eq in E. subst y. split.
    + intros H0 x [<- | Hx]; [reflexivity |]. apply IH; [lia | assumption].
    + intros Hall. simpl. f_equal. apply IH. auto.
  - split; [lia |]. intros Hall. exfalso.
    rewrite (Hall y (or_introl eq_refl)) in E.
    now rewrite (eqb_refl_K eqb eqb_eq) in E.
Qed.

End Counting.

Lemma Rsum_map_INR (A : Type) (f : A -> nat) (l : list A) :
  Rsum (map (fun k => INR (f k)) l) = INR (list_sum (map f l)).
Proof.
  induction l as [| x l IH]; [reflexivity |].
  cbn [map list_sum Rsum fold_right]. rewrite plus_INR.
  unfold Rsum in IH. now rewrite IH.
Qed.

Lemma plogp_zero_iff (total count : nat) :
  (1 <= count <= total)%nat ->
  (plogp total count = 0%R <-> count = total).
Proof.
  intros [H1 H2]. unfold plogp, Rlog2.
  assert (Ht : (0 < INR total)%R) by (apply lt_0_INR; lia).
  assert (Hc : (0 < INR count)%R) by (apply lt_0_INR; lia).
  assert (Hp : (0 < INR count / INR total)%R) by now apply Rdiv_lt_0_compat.
  pose proof ln2_pos as Hln2.
  split.
  - intros H0. apply Rmult_integral in H0. destruct H0 as [H0 | H0]; [lra |].
    assert (Hln : ln (INR count / INR total) = 0%R).
    { apply Rmult_eq_compat_r with (r := ln 2) in H0.
      unfold Rdiv in H0 at 1. rewrite Rmult_assoc, Rinv_l in H0 by lra. lra. }
    rewrite <- ln_1 in Hln. apply ln_inv in Hln; [| assumption | lra].
    apply INR_eq.
    apply Rmult_eq_compat_r with (r := INR total) in Hln.
    unfold Rdiv in Hln. rewrite Rmult_assoc, Rinv_l in Hln by lra. lra.
  - intros ->. replace (INR total / INR total)%R with 1%R by (field; lra).
    rewrite ln_1. lra.
Qed.

Lemma Rsum_nonpos_zero (l : list R) :
  Forall (fun x => (x <= 0)%R) l -> Rsum l = 0%R ->
  Forall (fun x => x = 0%R) l.
Proof.
  induction 1 as [| x l Hx Hl IH]; intros H0; constructor.
  - pose proof (Rsum_nonpos Hl). simpl in H0. lra.
  - apply IH. pose proof (Rsum_nonpos Hl). simpl in H0. lra.
Qed.

Lemma entropy_terms_nonpos (values : list Z) :
  Forall (fun x => (x <= 0)%R)
    (map (fun k => plogp (List.length values) (occ Z.eqb k values))
       (dedup Z.eqb values)).
Proof.
  apply Forall_forall. intros t Ht. apply in_map_iff in Ht as [k [<- Hk]].
  apply plogp_nonpos. split.
  - apply (occ_pos Z.eqb Z.eqb_eq).
    exact (proj1 (dedup_In Z.eqb Z.eqb_eq values k) Hk).
  - apply occ_le_length.
Qed.

(** X12. The entropy that [calculate_entropy] returns is 0 exactly when
    all the addresses of the list are equal (the empty list included):
    one address repeated any number of times carries no entropy, two
    different addresses always carry some. *)
Theorem entropy_zero_iff_constant (address_list : list Z) :
  calculate_entropy address_list = Ok 0%R
  <-> forall x y, In x address_list -> In y address_list -> x = y.
Proof.
  rewrite calculate_entropy_formula.
  assert (Hform : entropy_formula address_list
    = (- Rsum (map (fun k => plogp (List.length address_list)
                               (occ Z.eqb k address_list))
                 (dedup Z.eqb address_list)))%R) by reflexivity.
  pose proof (entropy_terms_nonpos address_list) as Hnonpos.
  split.
  - intros H. inversion H as [H0]. rewrite Hform in H0.
    assert (Hz : Rsum (map (fun k => plogp (List.length address_list)
                                       (occ Z.eqb k address_list))
                         (dedup Z.eqb address_list)) = 0%R) by lra.
    pose proof (Rsum_nonpos_zero Hnonpos Hz) as Hall.
    rewrite Forall_forall in Hall.
    assert (Hfull : forall k, In k address_list ->
                      occ Z.eqb k address_list = List.length address_list).
    { intros k Hk. apply plogp_zero_iff.
      - split; [now apply (occ_pos Z.eqb Z.eqb_eq) | apply occ_le_length].
      - apply Hall. apply in_map_iff. exists k. split; [reflexivity |].
        now apply (dedup_In Z.eqb Z.eqb_eq). }
    intros x y Hx Hy.
    apply (proj1 (occ_all_equal Z.eqb Z.eqb_eq y address_list) (Hfull y Hy)).
    assumption.
  - intros Hall. f_equal. rewrite Hform.
    assert (Hz : Rsum (map (fun k => plogp (List.length address_list)
                                       (occ Z.eqb k address_list))
                         (dedup Z.eqb address_list)) = 0%R).
    { rewrite (map_ext_in _ (fun _ => 0%R)).
      - rewrite Rsum_const. lra.
      - intros k Hk0.
        pose proof (proj1 (dedup_In Z.eqb Z.eqb_eq address_list k) Hk0) as Hk.
        apply plogp_zero_iff.
        + split; [now apply (occ_pos Z.eqb Z.eqb_eq) | apply occ_le_length].
        + apply (occ_all_equal Z.eqb Z.eqb_eq). intros x Hx. now apply Hall. }
    lra.
Qed.

Lemma gibbs_term (total count m : nat) :
  (1 <= count)%nat -> (1 <= total)%nat -> (1 <= m)%nat ->
  (- plogp total count
   <= INR count / INR total * Rlog2 (INR m)
      + (1 / INR m - INR count / INR total) / ln 2)%R.
Proof.
  intros Hc Ht Hm. unfold plogp, Rlog2.
  assert (Ht' : (0 < INR total)%R) by (apply lt_0_INR; lia).
  assert (Hc' : (0 < INR count)%R) by (apply lt_0_INR; lia).
  assert (Hm' : (0 < INR m)%R) by (apply lt_0_INR; lia).
  set (p := (INR count / INR total)%R).
  assert (Hp : (0 < p)%R) by now apply Rdiv_lt_0_compat.
  pose proof ln2_pos as Hln2.
  assert (Hinv : (0 < / (p * INR m))%R)
    by (apply Rinv_0_lt_compat, Rmult_lt_0_compat; assumption).
  pose proof (ln_le_minus_1 Hinv) as Hg.
  rewrite ln_Rinv, ln_mult in Hg
    by (try assumption; now apply Rmult_lt_0_compat).
  assert (Hkey : (- (p * ln p) - p * ln (INR m) <= 1 / INR m - p)%R).
  { assert (Hmul : (p * (- (ln p + ln (INR m))) <= p * (/ (p * INR m) - 1))%R)
      by (apply Rmult_le_compat_l; lra).
    replace (p * (/ (p * INR m) - 1))%R with (1 / INR m - p)%R in Hmul
      by (field; lra).
    lra. }
  assert (Hdiv : ((- (p * ln p) - p * ln (INR m)) / ln 2
                  <= (1 / INR m - p) / ln 2)%R).
  { unfold Rdiv. apply Rmult_le_compat_r; [| exact Hkey].
    left. now apply Rinv_0_lt_compat. }
  replace (- (p * (ln p / ln 2)))%R
    with ((- (p * ln p) - p * ln (INR m)) / ln 2 + p * (ln (INR m) / ln 2))%R
    by (field; lra).
  lra.
Qed.

Lemma gibbs_sum (total m : nat) (counts : list nat) :
  (1 <= total)%nat -> (1 <= m)%nat ->
  Forall (fun c => (1 <= c)%nat) counts ->
  (- Rsum (map (plogp total) counts)
   <= INR (list_sum counts) / INR total * Rlog2 (INR m)
      + (INR (List.length counts) / INR m
         - INR (list_sum counts) / INR total) / ln 2)%R.
Proof.
  intros Ht Hm. induction 1 as [| c counts Hc _ IH].
  - simpl. unfold Rdiv. rewrite !Rmult_0_l. lra.
  - change (Rsum (map (plogp total) (c :: counts)))
      with (plogp total c + Rsum (map (plogp total) counts))%R.
    change (list_sum (c :: counts)) with (c + list_sum counts)%nat.
    change (List.length (c :: counts)) with (S (List.length counts)).
    pose proof (gibbs_term Hc Ht Hm) as Hterm.
    rewrite plus_INR, S_INR.
    assert (Ht' : (0 < INR total)%R) by (apply lt_0_INR; lia).
    assert (Hm' : (0 < INR m)%R) by (apply lt_0_INR; lia).
    pose proof ln2_pos as Hln2.
    replace ((INR c + INR (list_sum counts)) / INR total * Rlog2 (INR m)
             + ((INR (List.length counts) + 1) / INR m
                - (INR c + INR (list_sum counts)) / INR total) / ln 2)%R
      with ((INR c / INR total * Rlog2 (INR m)
             + (1 / INR m - INR c / INR total) / ln 2)
            + (INR (list_sum counts) / INR total * Rlog2 (INR m)
               + (INR (List.length counts) / INR m
                  - INR (list_sum counts) / INR total) / ln 2))%R
      by (field; lra).
    lra.
Qed.

(** X13. With at least one address the entropy is at most the base-2
    logarithm of the number of distinct addresses, hence at most that of
    the number of addresses. *)
Theorem entropy_at_most_log2_distinct (address_list : list Z) :
  address_list <> [] ->
  exists entropy,
    calculate_entropy address_list = Ok entropy
    /\ (entropy <= Rlog2 (INR (len_set address_list)))%R
    /\ (entropy <= Rlog2 (INR (List.length address_list)))%R.
Proof.
  intros Hne. exists (entropy_formula address_list).
  split; [apply calculate_entropy_formula |].
  set (n := List.length address_list).
  assert (Hn : (1 <= n)%nat)
    by (subst n; destruct address_list; [congruence | simpl; lia]).
  assert (Hm : (1 <= len_set address_list)%nat).
  { unfold len_set. destruct address_list; [congruence | simpl; lia]. }
  assert (Hle : (len_set address_list <= n)%nat) by apply dedup_length_le.
  assert (Hbound : (entropy_formula address_list
                    <= Rlog2 (INR (len_set address_list)))%R).
  { pose proof (@gibbs_sum n (len_set address_list)
                  (map (fun k => occ Z.eqb k address_list)
                     (dedup Z.eqb address_list)) Hn Hm) as G.
    rewrite map_map, length_map, (occ_sum_dedup Z.eqb Z.eqb_eq) in G.
    fold n in G. fold (len_set address_list) in G.
    assert (Hn' : (0 < INR n)%R) by (apply lt_0_INR; lia).
    assert (Hm' : (0 < INR (len_set address_list))%R) by (apply lt_0_INR; lia).
    pose proof ln2_pos as Hln2.
    replace (INR n / INR n * Rlog2 (INR (len_set address_list))
             + (INR (len_set address_list) / INR (len_set address_list)
                - INR n / INR n) / ln 2)%R
      with (Rlog2 (INR (len_set address_list))) in G by (field; lra).
    apply G. apply Forall_forall. intros c Hc.
    apply in_map_iff in Hc as [k [<- Hk]].
    apply (occ_pos Z.eqb Z.eqb_eq).
    exact (proj1 (dedup_In Z.eqb Z.eqb_eq address_list k) Hk). }
  split; [exact Hbound |].
  eapply Rle_trans; [exact Hbound |].
  unfold Rlog2. unfold Rdiv. apply Rmult_le_compat_r.
  - left. apply Rinv_0_lt_compat, ln2_pos.
  - apply le_INR in Hle. destruct Hle as [Hlt | Heq].
    + left. apply ln_increasing; [apply lt_0_INR; lia | assumption].
    + right. now rewrite Heq.
Qed.

Lemma entropy_at_most_log2_distinct_witness :
  exists entropy,
    calculate_entropy [7; 7; 9; 7]%Z = Ok entropy
    /\ (entropy <= Rlog2 (INR 2))%R.
Proof.
  destruct (@entropy_at_most_log2_distinct [7; 7; 9; 7]%Z)
    as (e & He & Hb & _); [discriminate |].
  exists e. split; [exact He | exact Hb].
Defined.

(** ** interpret_address *)

Lemma interpret_address_null_iff (addr : Z) :
  interpret_address addr = "NULL pointer"%string <-> addr = 0%Z.
Proof.
  unfold interpret_address.
  destruct (Z.eqb_spec addr 0) as [H0 | H0]; [tauto |].
  split; [| contradiction].
  destruct (_ && _); [discriminate |].
  destruct (_ && _); [discriminate |].
  destruct (_ && _); discriminate.
Qed.

(** X14. The four ranges of [interpret_address] do not overlap, so each
    address has the label of the one range that holds it: zero is the
    null pointer, and an address outside the stack, code and heap ranges
    (negative, below 0x400000, from 0x800000 to below 0x100000000, or
    above 0x7fffffffffff) is an unknown region. *)
Theorem interpret_address_ranges (addr : Z) :
  (interpret_address addr = "NULL pointer"%string <-> addr = 0%Z)
  /\ (interpret_address addr = "Likely a stack address"%string
      <-> (0x7ff000000000 <= addr <= 0x7fffffffffff)%Z)
  /\ (interpret_address addr
      = "Likely an address in the code (text) segment"%string
      <-> (0x400000 <= addr < 0x800000)%Z)
  /\ (interpret_address addr
      = "Likely a heap or global variable address"%string
      <-> (0x100000000 <= addr < 0x7ff000000000)%Z)
  /\ (interpret_address addr = "Unknown memory region"%string
      <-> (addr < 0 \/ 0 < addr < 0x400000
           \/ 0x800000 <= addr < 0x100000000 \/ 0x7fffffffffff < addr)%Z).
Proof.
  unfold interpret_address.
  destruct (Z.eqb_spec addr 0) as [H0 | H0];
    [repeat split; intros; try discriminate; try lia |].
  destruct (Z.leb_spec 0x7ff000000000 addr) as [H1 | H1];
    destruct (Z.leb_spec addr 0x7fffffffffff) as [H2 | H2]; cbn [andb];
    [repeat split; intros; try discriminate; try lia | | |];
    (destruct (Z.leb_spec 0x400000 addr) as [H3 | H3];
     destruct (Z.ltb_spec addr 0x800000) as [H4 | H4]; cbn [andb];
     [repeat split; intros; try discriminate; try lia | | |];
     (destruct (Z.leb_spec 0x100000000 addr) as [H5 | H5];
      destruct (Z.ltb_spec addr 0x7ff000000000) as [H6 | H6]; cbn [andb];
      repeat split; intros; try discriminate; try lia)).
Qed.

(** ** The interpretations of the addresses *)

Section SortedByKey.
Variable A : Type.
Variable key : A -> Z.

Lemma insert_by_perm (x : A) (l : list A) :
  Permutation (insert_by key x l) (x :: l).
Proof.
  induction l as [| y l IH]; simpl; [reflexivity |].
  destruct (key x <=? key y)%Z; [reflexivity |].
  rewrite IH. apply perm_swap.
Qed.

Lemma sorted_perm (l : list A) : Permutation (sorted key l) l.
Proof.
  unfold sorted. induction l as [| x l IH]; simpl; [reflexivity |].
  rewrite insert_by_perm. now constructor.
Qed.

Lemma insert_by_sorted (x : A) (l : list A) :
  StronglySorted (fun a b => (key a <= key b)%Z) l ->
  StronglySorted (fun a b => (key a <= key b)%Z) (insert_by key x l).
Proof.
  induction 1 as [| y l Hl IH Hy]; simpl.
  - constructor; constructor.
  - destruct (Z.leb_spec (key x) (key y)) as [Hxy | Hxy].
    + constructor; [now constructor |].
      constructor; [assumption |].
      rewrite Forall_forall in *. intros z Hz. specialize (Hy z Hz). lia.
    + constructor; [assumption |].
      rewrite Forall_forall in *. intros z Hz.
      apply insert_by_In in Hz as [-> | Hz]; [lia | now apply Hy].
Qed.

Lemma sorted_sorted (l : list A) :
  StronglySorted (fun a b => (key a <= key b)%Z) (sorted key l).
Proof.
  unfold sorted. induction l as [| x l IH]; simpl; [constructor |].
  now apply insert_by_sorted.
Qed.

End SortedByKey.

Lemma interpreted_addresses_app (l1 l2 : list insight) :
  interpreted_addresses (l1 ++ l2)
  = interpreted_addresses l1 ++ interpreted_addresses l2.
Proof. apply flat_map_app. Qed.

Lemma interpreted_addresses_other (k : nat) (l : list insight) :
  Forall (fun i => block_of i = k) l -> k <> 7%nat ->
  interpreted_addresses l = [].
Proof.
  intros H Hk. induction H as [| i l Hi _ IH]; [reflexivity |].
  unfold interpreted_addresses in *. cbn [flat_map]. rewrite IH.
  destruct i; try reflexivity. simpl in Hi. congruence.
Qed.

Lemma interpreted_addresses_block (so : set_order) (tokens : list string) :
  interpreted_addresses (interpretation_lines so tokens)
  = match tokens with
    | [] => []
    | _ :: _ => sorted int16 (iter_set so tokens)
    end.
Proof.
  unfold interpretation_lines. destruct tokens as [| t ts] eqn:E;
    [reflexivity |].
  rewrite <- E. rewrite !interpreted_addresses_app.
  assert (Hmap : forall l : list string,
            interpreted_addresses
              (map (fun addr =>
                      Interpretation addr (interpret_address (int16 addr))) l)
            = l).
  { induction l as [| a l IH]; [reflexivity |].
    unfold interpreted_addresses in *. simpl. now rewrite IH. }
  rewrite Hmap.
  destruct (existsb _ tokens); simpl; now rewrite app_nil_r.
Qed.

Lemma interpreted_addresses_report (so : set_order) (output : string) :
  interpreted_addresses (report_lines so output)
  = match hex_tokens output with
    | [] => []
    | _ :: _ => sorted int16 (iter_set so (hex_tokens output))
    end.
Proof.
  unfold report_lines. rewrite !interpreted_addresses_app.
  rewrite (interpreted_addresses_other (@ratio_lines_block _ _))
    by discriminate.
  rewrite (interpreted_addresses_other (@allocation_lines_block _))
    by discriminate.
  rewrite (interpreted_addresses_other (@hex_lines_block _)) by discriminate.
  rewrite (interpreted_addresses_other (@repetition_lines_block _))
    by discriminate.
  rewrite (interpreted_addresses_other (@warning_lines_block _ _))
    by discriminate.
  rewrite (interpreted_addresses_other (@null_page_lines_block _))
    by discriminate.
  rewrite interpreted_addresses_block. cbn [interpreted_addresses flat_map app].
  now rewrite app_nil_r.
Qed.

(** X15. A report that is returned interprets every distinct address
    token of the text exactly once, in ascending order of the address
    values, whatever the iteration order of the set; the meaning given
    to a token is that of [interpret_address] at its value. *)
Theorem interpretations_sorted_and_complete (so : set_order)
    (output : string) (insights : list insight) :
  insights_of so output = Ok insights ->
  Permutation (interpreted_addresses insights)
    (dedup String.eqb (hex_tokens output))
  /\ StronglySorted (fun a b => (int16 a <= int16 b)%Z)
       (interpreted_addresses insights)
  /\ (forall addr meaning,
        In (Interpretation addr meaning) insights ->
        meaning = interpret_address (int16 addr)).
Proof.
  intros Hi. apply insights_of_ok in Hi as [-> _].
  rewrite interpreted_addresses_report. split; [| split].
  - destruct (hex_tokens output) as [| t ts] eqn:E; [reflexivity |].
    rewrite <- E. rewrite sorted_perm. apply iter_set_perm.
  - destruct (hex_tokens output); [constructor | apply sorted_sorted].
  - intros addr meaning H.
    apply in_report_interpretation in H; [| reflexivity].
    unfold interpretation_lines in H.
    destruct (hex_tokens output) as [| t ts] eqn:E;
      [simpl in H; intuition discriminate |].
    rewrite <- E in H. rewrite !in_app_iff in H.
    destruct H as [H | [H | H]].
    + simpl in H. intuition discriminate.
    + apply in_map_iff in H as [a [H _]]. now inversion H.
    + destruct (existsb _ _); simpl in H; intuition discriminate.
Qed.

(** The sample text has three address tokens, two of them alike: its
    report interprets two addresses, the smaller one first. *)
Lemma interpretations_sorted_and_complete_witness :
  Permutation
    (interpreted_addresses (report_lines first_seen_order sample_output))
    ["0x7ffd10"; "0x0"]%string
  /\ StronglySorted (fun a b => (int16 a <= int16 b)%Z)
       (interpreted_addresses (report_lines first_seen_order sample_output)).
Proof.
  destruct (@interpretations_sorted_and_complete _ _ _
              (sample_output_analysed first_seen_order))
    as (Hperm & Hsorted & _).
  assert (Hd : dedup String.eqb (hex_tokens sample_output)
               = ["0x7ffd10"; "0x0"]%string) by reflexivity.
  rewrite Hd in Hperm. split; [exact Hperm | exact Hsorted].
Defined.

(** ** What the scans return *)

Lemma span_spec (f : ascii -> bool) (s run rest : string) :
  Re.span f s = (run, rest) ->
  s = (run ++ rest)%string /\ all_chars f run = true.
Proof.
  revert run rest. induction s as [| c s IH]; intros run rest; simpl.
  - intros H. inversion H. auto.
  - destruct (f c) eqn:Hc.
    + destruct (Re.span f s) as [run' rest'] eqn:E. intros H. inversion H.
      subst. destruct (IH run' rest eq_refl) as [-> Hall].
      split; [reflexivity |]. simpl. now rewrite Hc.
    + intros H. inversion H. auto.
Qed.

Lemma string_app_assoc (a b c : string) :
  ((a ++ b) ++ c)%string = (a ++ b ++ c)%string.
Proof. induction a as [| x a IH]; simpl; [reflexivity | now rewrite IH]. Qed.

Lemma string_app_nil_r (a : string) : (a ++ "")%string = a.
Proof. induction a as [| x a IH]; simpl; [reflexivity | now rewrite IH]. Qed.

Lemma match_run_spec (group : bool) (lit1 lit2 : string)
    (cls : ascii -> bool) (s out : string) (len : nat) :
  Re.match_run group lit1 cls lit2 s = Some (out, len) ->
  exists run rest,
    s = (lit1 ++ run ++ lit2 ++ rest)%string
    /\ run <> EmptyString
    /\ all_chars cls run = true
    /\ out = (if group then run else lit1 ++ run ++ lit2)%string
    /\ len = String.length (lit1 ++ run ++ lit2).
Proof.
  unfold Re.match_run.
  destruct (Re.strip_prefix lit1 s) as [s1 |] eqn:E1; [| discriminate].
  destruct (Re.span cls s1) as [run s2] eqn:E2.
  destruct run as [| c run]; [discriminate |].
  destruct (Re.strip_prefix lit2 s2) as [rest |] eqn:E3; [| discriminate].
  intros H. inversion H. clear H.
  apply strip_prefix_iff in E1, E3. apply span_spec in E2 as [E2 Hall].
  exists (String c run), rest. subst.
  repeat split; try assumption. discriminate.
Qed.

Lemma findall_skip_In (m : Re.matcher) (skip : nat) (s g : string) :
  In g (Re.findall_skip m skip s) ->
  exists pre s' len, s = (pre ++ s')%string /\ m s' = Some (g, len).
Proof.
  revert skip. induction s as [| c s IH]; intros skip; simpl; [tauto |].
  destruct skip as [| k].
  - destruct (m (String c s)) as [[g0 len] |] eqn:E.
    + intros [<- | H].
      * now exists EmptyString, (String c s), len.
      * destruct (IH _ H) as (pre & s' & len' & -> & Hm).
        now exists (String c pre), s', len'.
    + intros H. destruct (IH _ H) as (pre & s' & len' & -> & Hm).
      now exists (String c pre), s', len'.
  - intros H. destruct (IH _ H) as (pre & s' & len' & -> & Hm).
    now exists (String c pre), s', len'.
Qed.

(** X16. What the scans return is in the text: every address token is
    [0x] followed by one or more hexadecimal digits and occurs in the
    text; every allocation size and every iteration number is a
    non-empty run of decimal digits that occurs in the text between the
    words of its marker; every recovery match is the recovery phrase. *)
Theorem scans_return_what_the_text_holds (output : string) :
  (forall t,
      In t (hex_tokens output) ->
      exists digits,
        t = ("0x" ++ digits)%string
        /\ digits <> EmptyString
        /\ all_chars Re.is_hexdigit digits = true
        /\ exists pre post, output = (pre ++ t ++ post)%string)
  /\ (forall d,
        In d (Re.findall Re.re_allocating output) ->
        d <> EmptyString
        /\ all_chars Re.is_digit d = true
        /\ exists pre post,
             output = (pre ++ "Allocating " ++ d ++ " bytes" ++ post)%string)
  /\ (forall d,
        In d (Re.findall Re.re_iteration output) ->
        d <> EmptyString
        /\ all_chars Re.is_digit d = true
        /\ exists pre post,
             output = (pre ++ "Iteration " ++ d ++ ":" ++ post)%string)
  /\ (forall p,
        In p (Re.findall Re.re_segfault output) ->
        p = "Caught segmentation fault"%string
        /\ exists pre post, output = (pre ++ p ++ post)%string).
Proof.
  split; [| split; [| split]].
  - intros t H. apply findall_skip_In in H as (pre & s' & len & -> & Hm).
    apply match_run_spec in Hm as (run & rest & -> & Hne & Hall & -> & _).
    cbn [append]. rewrite string_app_nil_r.
    exists run. repeat split; try assumption.
    exists pre, rest. reflexivity.
  - intros d H. apply findall_skip_In in H as (pre & s' & len & -> & Hm).
    apply match_run_spec in Hm as (run & rest & -> & Hne & Hall & -> & _).
    repeat split; try assumption. now exists pre, rest.
  - intros d H. apply findall_skip_In in H as (pre & s' & len & -> & Hm).
    apply match_run_spec in Hm as (run & rest & -> & Hne & Hall & -> & _).
    repeat split; try assumption. now exists pre, rest.
  - intros p H. apply findall_skip_In in H as (pre & s' & len & -> & Hm).
    unfold Re.re_segfault, Re.match_literal in Hm.
    destruct (Re.strip_prefix _ s') as [rest |] eqn:E; [| discriminate].
    inversion Hm. subst. apply strip_prefix_iff in E. subst s'.
    split; [reflexivity |]. now exists pre, rest.
Qed.

Lemma findall_literal_none_iff (lit : string) (s : string) :
  Re.strip_prefix lit EmptyString = None ->
  (Re.findall (Re.match_literal lit) s = [] <-> Re.contains lit s = false).
Proof.
  intros Hlit. unfold Re.findall.
  induction s as [| c s IH]; simpl.
  - rewrite Hlit. tauto.
  - unfold Re.match_literal at 1.
    destruct (Re.strip_prefix lit (String c s)).
    + split; discriminate.
    + exact IH.
Qed.

Lemma strip_prefix_app (p s r : string) :
  Re.strip_prefix p s = Some r -> s = (p ++ r)%string.
Proof.
  revert s. induction p as [| a p IH]; intros s H; simpl in H.
  - now inversion H.
  - destruct s as [| b s]; [discriminate |].
    destruct (Ascii.eqb_spec a b) as [-> |]; [| discriminate].
    simpl. f_equal. now apply IH.
Qed.

(** A phrase whose first character does not come back in it matches at
    no position inside one of its occurrences. *)
Lemma no_match_inside (c : ascii) (p l r pre suf : string) :
  forallb (fun a => negb (Ascii.eqb c a)) (list_ascii_of_string l) = true ->
  (pre ++ suf)%string = (l ++ r)%string ->
  (String.length pre < String.length l)%nat ->
  Re.strip_prefix (String c p) suf = None.
Proof.
  revert pre. induction l as [| a l IH]; intros pre Hl Heq Hlen;
    [simpl in Hlen; lia |].
  simpl in Hl. apply andb_prop in Hl as [Ha Hl].
  destruct pre as [| b pre]; simpl in Heq.
  - subst suf. simpl. now destruct (Ascii.eqb c a).
  - inversion Heq. apply (IH pre); [assumption | assumption |].
    simpl in Hlen. lia.
Qed.

(** The scan for a phrase counts its occurrences, when none of them can
    start inside another one. *)
Lemma findall_literal_counts (c : ascii) (p : string) :
  forallb (fun a => negb (Ascii.eqb c a)) (list_ascii_of_string p) = true ->
  forall (s : string) (skip : nat),
    (skip <= String.length p)%nat ->
    (forall pre suf, s = (pre ++ suf)%string ->
                     (String.length pre < skip)%nat ->
                     Re.strip_prefix (String c p) suf = None) ->
    List.length (Re.findall_skip (Re.match_literal (String c p)) skip s)
    = occurrences (String c p) s.
Proof.
  intros Hp. induction s as [| x s IH]; intros skip Hskip Hno.
  - reflexivity.
  - cbn [Re.findall_skip occurrences]. destruct skip as [| k].
    + unfold Re.match_literal at 1.
      destruct (Re.strip_prefix (String c p) (String x s)) as [r |] eqn:E.
      * cbn [List.length String.length Nat.pred Nat.add]. f_equal.
        apply IH; [lia |]. intros pre suf Hs Hpre.
        apply strip_prefix_app in E. simpl in E. inversion E. subst x.
        apply (@no_match_inside c p p r pre suf Hp); [congruence | exact Hpre].
      * cbn [Nat.add]. apply IH; [lia |]. intros pre suf _ Hpre. lia.
    + rewrite (Hno EmptyString (String x s)); [| reflexivity | simpl; lia].
      cbn [Nat.add]. apply IH; [lia |]. intros pre suf Hs Hpre.
      apply (Hno (String x pre) suf); [simpl; now rewrite Hs | simpl; lia].
Qed.

(** X17. The number of recoveries is the number of positions of the text
    at which the recovery phrase occurs: the scan misses no occurrence
    and counts none twice.  In particular it is 0 exactly when the text
    does not contain the phrase. *)
Theorem recovery_count_counts_occurrences (output : string) :
  recovery_count output = occurrences "Caught segmentation fault" output
  /\ (recovery_count output = 0%nat
      <-> ~ exists pre post,
            output = (pre ++ "Caught segmentation fault" ++ post)%string).
Proof.
  split.
  - unfold recovery_count, Re.findall, Re.re_segfault.
    apply findall_literal_counts; [reflexivity | lia |].
    intros pre suf _ H. lia.
  - unfold recovery_count. rewrite length_zero_iff_nil.
    unfold Re.re_segfault. rewrite findall_literal_none_iff by reflexivity.
    rewrite <- contains_iff.
    destruct (Re.contains "Caught segmentation fault" output);
      split; intros H; try reflexivity; try discriminate; congruence.
Qed.

(** ** The address tokens of value zero *)

Lemma hexdigit_zero (c : ascii) :
  Re.is_hexdigit c = true -> digit_val c = 0%Z -> c = "0"%char.
Proof.
  destruct c as [[] [] [] [] [] [] [] []]; vm_compute;
    intros H1 H2; try discriminate; reflexivity.
Qed.

Lemma zeros_length (n : nat) : String.length (zeros n) = n.
Proof. induction n as [| n IH]; simpl; congruence. Qed.

Lemma digits_acc_zero_iff (digits : string) (acc : Z) :
  (0 <= acc)%Z ->
  all_chars Re.is_hexdigit digits = true ->
  (digits_acc 16 acc digits = 0%Z
   <-> acc = 0%Z /\ digits = zeros (String.length digits)).
Proof.
  revert acc. induction digits as [| c ds IH]; intros acc Hacc Hall.
  - simpl. tauto.
  - cbn [all_chars] in Hall. apply andb_prop in Hall as [Hc Hds].
    pose proof (digit_val_nonneg c) as Hv.
    cbn [digits_acc String.length zeros].
    rewrite IH by (try assumption; lia). split.
    + intros [H0 Hz].
      assert (acc = 0%Z /\ digit_val c = 0%Z) as [-> Hd] by lia.
      split; [reflexivity |].
      rewrite (hexdigit_zero c Hc Hd). now f_equal.
    + intros [-> Hz]. inversion Hz as [[Hc0 Hds0]]. subst c.
      split; [reflexivity |]. now rewrite <- Hds0.
Qed.

(** X18. An address token of the text has the value 0, and so the
    interpretation "NULL pointer", exactly when it is [0x] followed by
    zeros only. *)
Theorem zero_tokens_are_runs_of_zeros (output : string) (t : string) :
  In t (hex_tokens output) ->
  (int16 t = 0%Z <-> exists n, t = ("0x" ++ zeros (S n))%string)
  /\ (interpret_address (int16 t) = "NULL pointer"%string <-> int16 t = 0%Z).
Proof.
  intros Ht. split; [| apply interpret_address_null_iff].
  apply findall_skip_In in Ht as (pre & s' & len & _ & Hm).
  apply match_run_spec in Hm as (run & rest & _ & Hne & Hall & -> & _).
  cbn [append]. rewrite string_app_nil_r.
  change (int16 ("0x" ++ run)) with (digits_acc 16 0 run).
  rewrite digits_acc_zero_iff by (try assumption; lia). split.
  - intros [_ Hz]. destruct run as [| c run]; [congruence |].
    exists (String.length run). now rewrite Hz at 1.
  - intros [n Hn]. split; [reflexivity |].
    assert (Hrun : run = zeros (S n)) by now inversion Hn.
    rewrite Hrun, zeros_length. reflexivity.
Qed.

Lemma zero_tokens_are_runs_of_zeros_witness :
  int16 "0x000" = 0%Z <-> exists n, "0x000"%string = ("0x" ++ zeros (S n))%string.
Proof.
  apply (@zero_tokens_are_runs_of_zeros "at 0x000 and 0x1f" "0x000").
  vm_compute. tauto.
Defined.

(** ** The scans never overlap *)

Lemma string_length_app (a b : string) :
  String.length (a ++ b) = (String.length a + String.length b)%nat.
Proof. induction a as [| x a IH]; simpl; [reflexivity | now rewrite IH]. Qed.

Lemma findall_skip_length (m : Re.matcher) (minlen : nat) :
  (forall s g len, m s = Some (g, len) ->
                   (minlen <= len <= String.length s)%nat) ->
  forall (s : string) (skip : nat),
    (minlen * List.length (Re.findall_skip m skip s)
     <= String.length s - skip)%nat.
Proof.
  intros Hm. induction s as [| c s IH]; intros skip; simpl; [lia |].
  destruct skip as [| k].
  - destruct (m (String c s)) as [[g len] |] eqn:E.
    + apply Hm in E. simpl in E. specialize (IH (Nat.pred len)).
      cbn [List.length]. rewrite Nat.mul_succ_r. lia.
    + specialize (IH 0%nat). lia.
  - apply IH.
Qed.

Lemma match_run_length (group : bool) (lit1 lit2 : string)
    (cls : ascii -> bool) (s g : string) (len : nat) :
  Re.match_run group lit1 cls lit2 s = Some (g, len) ->
  (String.length lit1 + 1 + String.length lit2 <= len <= String.length s)%nat.
Proof.
  intros H. apply match_run_spec in H
    as (run & rest & -> & Hne & _ & _ & ->).
  rewrite !string_length_app.
  destruct run as [| c run]; [congruence |]. simpl. lia.
Qed.

(** X19. The matches of a scan do not overlap: an iteration marker takes
    at least 12 characters of the text, a recovery phrase 25, an
    allocation marker 18 and an address token 3, so each count times
    that length is at most the length of the text. *)
Theorem scan_counts_bounded (output : string) :
  (12 * iteration_count output <= String.length output)%nat
  /\ (25 * recovery_count output <= String.length output)%nat
  /\ (18 * List.length (allocation_sizes output) <= String.length output)%nat
  /\ (3 * List.length (hex_tokens output) <= String.length output)%nat.
Proof.
  unfold iteration_count, recovery_count, allocation_sizes, hex_tokens,
    Re.findall.
  rewrite length_map. repeat split.
  - rewrite <- (Nat.sub_0_r (String.length output)).
    apply findall_skip_length. intros s g len H.
    apply match_run_length in H. simpl in H. lia.
  - rewrite <- (Nat.sub_0_r (String.length output)).
    apply findall_skip_length. intros s g len H.
    unfold Re.re_segfault, Re.match_literal in H.
    destruct (Re.strip_prefix _ s) as [rest |] eqn:E; [| discriminate].
    inversion H. subst. apply strip_prefix_iff in E. subst s.
    rewrite string_length_app. simpl. lia.
  - rewrite <- (Nat.sub_0_r (String.length output)).
    apply findall_skip_length. intros s g len H.
    apply match_run_length in H. simpl in H. lia.
  - rewrite <- (Nat.sub_0_r (String.length output)).
    apply findall_skip_length. intros s g len H.
    apply match_run_length in H. simpl in H. lia.
Qed.

(** ** Which failures leave a cycle *)

(** X20. A cycle raises exactly in three cases: the launch fails; the
    graceful signal fails with anything but a missing process; the first
    collection of the output fails with anything but a timeout.  In
    every other case it returns a text, and a failure of the forced
    signal or of the second collection never leaves the cycle. *)
Theorem run_cycle_raises_iff (b : target_behaviour) (e : exn) :
  run_cycle b = Raise e
  <-> on_launch b = Raise e
      \/ (on_launch b = Ok tt
          /\ on_sigterm b = Raise e /\ e <> ProcessLookupError)
      \/ (on_launch b = Ok tt
          /\ (on_sigterm b = Ok tt \/ on_sigterm b = Raise ProcessLookupError)
          /\ on_communicate b = Raise e
          /\ forall captured, e <> TimeoutExpired captured).
Proof.
  unfold run_cycle, terminate_and_collect.
  destruct (on_launch b) as [[] | e0]; cbn [rbind].
  - destruct (on_sigterm b) as [[] | e1]; cbn [rbind].
    + destruct (on_communicate b) as [out | e2].
      * split; [discriminate |].
        intros [H | [(_ & H & _) | (_ & _ & H & _)]]; discriminate.
      * destruct e2;
          try (split;
               [ intros H; inversion H; subst; right; right;
                 repeat split; auto; discriminate
               | intros [H | [(_ & H & _) | (_ & _ & H & _)]];
                 try discriminate; now inversion H ]).
        destruct (_ <- on_sigkill b ;; on_communicate_forced b)%result;
          (split; [discriminate |]);
          intros [H | [(_ & H & _) | (_ & _ & H & Hne)]]; try discriminate;
          inversion H; subst; exfalso; now apply (Hne captured).
    + destruct e1;
        try (split;
             [ intros H; inversion H; subst; right; left;
               repeat split; auto; discriminate
             | intros [H | [(_ & H & _) | (_ & [H | H] & _)]];
               try discriminate; now inversion H ]).
      destruct (on_communicate b) as [out | e2].
      * split; [discriminate |].
        intros [H | [(_ & H & Hne) | (_ & _ & H & _)]]; try discriminate.
        inversion H. congruence.
      * destruct e2;
          try (split;
               [ intros H; inversion H; subst; right; right;
                 repeat split; auto; discriminate
               | intros [H | [(_ & H & Hne) | (_ & _ & H & _)]];
                 try discriminate;
                 [inversion H; congruence | now inversion H] ]).
        destruct (_ <- on_sigkill b ;; on_communicate_forced b)%result;
          (split; [discriminate |]);
          intros [H | [(_ & H & Hne) | (_ & _ & H & Hne)]]; try discriminate;
          inversion H; subst; exfalso;
          solve [congruence | now apply (Hne captured)].
  - split.
    + intros H. inversion H. now left.
    + intros [H | [(H & _) | (H & _)]]; try discriminate. now inversion H.
Qed.

(** ** The history of the loop *)

Section LoopHistory.
Variable so : set_order.
Variable fmt_2f fmt_2pct str_float : R -> string.
Variable IsolationForest : option (list (list R) -> list R -> result Z).
Variable str_vector : list R -> string.
Variable str_exn : exn -> string.

(** X21. When the launch of the process or its termination raises, the
    loop ends at once with that exception: after the banner of the cycle
    no text, report or vector is printed, no vector is appended, the
    cycle counter is unchanged and none of the remaining processes is
    launched. *)
Theorem failure_ends_loop (b : target_behaviour)
    (rest : list target_behaviour) (stop : interruption) (st : loop_state)
    (e : exn) :
  run_cycle b = Raise e ->
  scan_loop so fmt_2f fmt_2pct str_float IsolationForest str_vector str_exn
    (b :: rest) stop st
  = ({| aggregated_features := aggregated_features st;
        cycle := cycle st;
        console := console st ++ [CycleBanner (cycle st)] |},
     Propagated e).
Proof.
  intros Hrun. cbn [scan_loop].
  now rewrite (@scan_cycle_fail so fmt_2f fmt_2pct str_float IsolationForest
                 str_vector str_exn b st e Hrun).
Qed.

Ltac cycle_verdict :=
  repeat match goal with
         | |- _ /\ _ => split
         | |- exists v, List.length v = 5%nat /\ _ =>
             eexists; split; [| reflexivity]; reflexivity
         | |- exists p, Some _ = Some p /\ _ =>
             eexists; split; [reflexivity |];
             cbn [vector_appended_before]
         | |- _ = _ => reflexivity || assumption
         end.

(** How one cycle leaves the variables of the loop, whatever the process
    answers and wherever the user interrupts it. *)
Lemma scan_cycle_outcome (interrupt : option interrupt_point)
    (b : target_behaviour) (st : loop_state) :
  exists st' r,
    scan_cycle so fmt_2f fmt_2pct str_float IsolationForest str_vector
      str_exn interrupt b st
    = (st', r)
    /\ cycles_started st' = cycles_started st ++ [cycle st]
    /\ match r with
       | Ok Next =>
           interrupt = None
           /\ cycle st' = (cycle st + 1)%nat
           /\ (exists v, List.length v = 5%nat
                         /\ aggregated_features st'
                            = aggregated_features st ++ [v])
           /\ converged (aggregated_features st') = false
       | Ok Break =>
           interrupt = None
           /\ cycle st' = cycle st
           /\ (exists v, List.length v = 5%nat
                         /\ aggregated_features st'
                            = aggregated_features st ++ [v])
           /\ converged (aggregated_features st') = true
       | Ok KeyboardInterrupt =>
           cycle st' = cycle st
           /\ exists p,
                interrupt = Some p
                /\ if vector_appended_before p
                   then exists v, List.length v = 5%nat
                                  /\ aggregated_features st'
                                     = aggregated_features st ++ [v]
                   else aggregated_features st' = aggregated_features st
       | Raise e =>
           cycle st' = cycle st
           /\ aggregated_features st' = aggregated_features st
           /\ (run_cycle b = Raise e
               \/ exists stdout,
                    run_cycle b = Ok stdout
                    /\ analyze_scan_output so fmt_2f fmt_2pct str_float
                         stdout
                       = Raise e)
       end.
Proof.
  destruct (run_cycle b) as [stdout | e] eqn:Hrun.
  - destruct (analyze_scan_output so fmt_2f fmt_2pct str_float stdout)
      as [report | e] eqn:Han.
    + destruct (@analyze_scan_output_ok _ _ _ _ _ _ Han) as [Hd _].
      pose proof (extract_features_defined (proj1 Hd)) as Hext.
      destruct (converged (aggregated_features st ++ [feature_values stdout]))
        eqn:Hconv;
        destruct interrupt as [[] |];
        unfold scan_cycle, from_point, mbind, get, print, append_features,
          next_cycle, modify, lift, mret;
        cbn [interrupt_point_eqb];
        rewrite ?Hrun, ?Han, ?Hext;
        cbn [aggregated_features cycle console];
        rewrite ?Hconv;
        do 2 eexists; (split; [reflexivity |]);
        cbn [aggregated_features cycle console];
        (split;
         [rewrite <- ?app_assoc; apply cycles_started_banner; no_banner |]);
        cycle_verdict.
    + destruct interrupt as [[] |];
        unfold scan_cycle, from_point, mbind, get, print, append_features,
          next_cycle, modify, lift, mret;
        cbn [interrupt_point_eqb];
        rewrite ?Hrun, ?Han;
        cbn [aggregated_features cycle console];
        do 2 eexists; (split; [reflexivity |]);
        cbn [aggregated_features cycle console];
        (split;
         [rewrite <- ?app_assoc; apply cycles_started_banner; no_banner |]);
        cycle_verdict;
        try (right; exists stdout; split; [reflexivity | exact Han]).
  - destruct interrupt as [[] |];
      unfold scan_cycle, from_point, mbind, get, print, append_features,
        next_cycle, modify, lift, mret;
      cbn [interrupt_point_eqb];
      rewrite ?Hrun;
      cbn [aggregated_features cycle console];
      do 2 eexists; (split; [reflexivity |]);
      cbn [aggregated_features cycle console];
      (split;
       [rewrite <- ?app_assoc; apply cycles_started_banner; no_banner |]);
      cycle_verdict; try (left; reflexivity).
Qed.

(** The invariant at the head of the loop. *)
Lemma scan_loop_invariant (targets : list target_behaviour)
    (stop : interruption) (st : loop_state) :
  Forall (fun v => List.length v = 5%nat) (aggregated_features st) ->
  cycle st = List.length (aggregated_features st) ->
  cycles_started st = seq 0 (cycle st) ->
  exists st' exit,
    scan_loop so fmt_2f fmt_2pct str_float IsolationForest str_vector
      str_exn targets stop st
    = (st', exit)
    /\ Forall (fun v => List.length v = 5%nat) (aggregated_features st')
    /\ match exit with
       | Converged =>
           List.length (aggregated_features st') = (cycle st' + 1)%nat
           /\ cycles_started st' = seq 0 (cycle st' + 1)
           /\ converged (aggregated_features st') = true
       | Interrupted =>
           match stop with
           | AtLoopHead =>
               List.length (aggregated_features st') = cycle st'
               /\ cycles_started st' = seq 0 (cycle st')
           | InCycle _ p =>
               List.length (aggregated_features st')
               = (cycle st' + if vector_appended_before p then 1 else 0)%nat
               /\ cycles_started st' = seq 0 (cycle st' + 1)
           end
       | Propagated e =>
           List.length (aggregated_features st') = cycle st'
           /\ cycles_started st' = seq 0 (cycle st' + 1)
           /\ exists b,
                (In b targets \/ exists p, stop = InCycle b p)
                /\ (run_cycle b = Raise e
                    \/ exists stdout,
                         run_cycle b = Ok stdout
                         /\ analyze_scan_output so fmt_2f fmt_2pct str_float
                              stdout
                            = Raise e)
       end.
Proof.
  revert st. induction targets as [| b rest IH]; intros st Hlen Hcyc Hstarted.
  - cbn [scan_loop]. destruct stop as [| b p].
    + unfold print, modify. cbn [fst].
      do 2 eexists. split; [reflexivity |]. cbn [aggregated_features cycle].
      split; [assumption |]. split; [now symmetry |].
      rewrite cycles_started_app; [assumption | no_banner].
    + destruct (scan_cycle_outcome (Some p) b st)
        as (st1 & r & Hstep & Hs & Hr).
      rewrite Hstep. unfold leave_cycle.
      destruct r as [[| |] | e].
      * destruct Hr as [Hr _]. discriminate.
      * destruct Hr as [Hr _]. discriminate.
      * destruct Hr as (Hc & q & Hq & Hagg). inversion Hq. subst q.
        unfold print, modify. cbn [fst].
        do 2 eexists. split; [reflexivity |].
        cbn [aggregated_features cycle].
        rewrite cycles_started_app by no_banner.
        rewrite Hs, Hc, Hstarted, seq_app.
        destruct (vector_appended_before p).
        -- destruct Hagg as (v & Hv & ->).
           split; [apply Forall_app; split;
                   [assumption | constructor; [exact Hv | constructor]] |].
           rewrite length_app. cbn [List.length]. split; [lia | reflexivity].
        -- rewrite Hagg. split; [assumption |]. split; [lia | reflexivity].
      * destruct Hr as (Hc & Hagg & Hfrom).
        do 2 eexists. split; [reflexivity |].
        rewrite Hagg, Hs, Hc, Hstarted, seq_app.
        split; [assumption |]. split; [now symmetry |].
        split; [reflexivity |].
        exists b. split; [right; now exists p | exact Hfrom].
  - cbn [scan_loop].
    destruct (scan_cycle_outcome None b st) as (st1 & r & Hstep & Hs & Hr).
    rewrite Hstep. unfold leave_cycle.
    destruct r as [[| |] | e].
    + destruct Hr as (_ & Hc & (v & Hv & Hagg) & _).
      destruct (IH st1) as (st' & exit & Hloop & Hl & Hexit).
      * rewrite Hagg. apply Forall_app. split; [assumption |].
        constructor; [exact Hv | constructor].
      * rewrite Hagg, Hc, length_app, Hcyc. reflexivity.
      * rewrite Hs, Hc, Hstarted, seq_app. reflexivity.
      * exists st', exit. split; [exact Hloop |]. split; [assumption |].
        destruct exit; try assumption.
        destruct Hexit as (H1 & H2 & b' & Hb' & Hr').
        split; [assumption |]. split; [assumption |].
        exists b'. split; [| assumption].
        destruct Hb' as [Hb' | Hb']; [left; now right | now right].
    + destruct Hr as (_ & Hc & (v & Hv & Hagg) & Hconv).
      exists st1, Converged. split; [reflexivity |].
      split.
      * rewrite Hagg. apply Forall_app. split; [assumption |].
        constructor; [exact Hv | constructor].
      * split; [| split; [| exact Hconv]].
        -- rewrite Hagg, Hc, length_app, Hcyc. reflexivity.
        -- rewrite Hs, Hc, Hstarted, seq_app. reflexivity.
    + destruct Hr as (_ & q & Hq & _). discriminate.
    + destruct Hr as (Hc & Hagg & Hfrom).
      do 2 eexists. split; [reflexivity |].
      rewrite Hagg, Hs, Hc, Hstarted, seq_app.
      split; [assumption |]. split; [now symmetry |].
      split; [reflexivity |].
      exists b. split; [left; now left | exact Hfrom].
Qed.

(** X22. A run of the loop from its initial state keeps vectors of five
    elements and prints the banners 0, 1, 2, ... in order.  When the
    loop ends on convergence the last cycle is not counted by the cycle
    counter, which is one less than the number of vectors.  When the
    user interrupts the loop between two cycles, the counter is the
    number of vectors and of banners; when the interrupt arrives inside
    a cycle, the banner of that cycle is printed and its vector is kept
    only from line 538 on.  An exception that leaves the loop comes from
    the launch or the termination of a process, or is the [ValueError]
    or [OverflowError] of the analysis of a captured text; the counter
    is then the number of vectors and the banner of the cycle is
    printed. *)
Theorem scan_loop_history (targets : list target_behaviour)
    (stop : interruption) :
  exists st' exit,
    scan_loop so fmt_2f fmt_2pct str_float IsolationForest str_vector
      str_exn targets stop initial_state
    = (st', exit)
    /\ Forall (fun v => List.length v = 5%nat) (aggregated_features st')
    /\ match exit with
       | Converged =>
           List.length (aggregated_features st') = (cycle st' + 1)%nat
           /\ cycles_started st' = seq 0 (cycle st' + 1)
       | Interrupted =>
           match stop with
           | AtLoopHead =>
               List.length (aggregated_features st') = cycle st'
               /\ cycles_started st' = seq 0 (cycle st')
           | InCycle _ p =>
               List.length (aggregated_features st')
               = (cycle st' + if vector_appended_before p then 1 else 0)%nat
               /\ cycles_started st' = seq 0 (cycle st' + 1)
           end
       | Propagated e =>
           List.length (aggregated_features st') = cycle st'
           /\ cycles_started st' = seq 0 (cycle st' + 1)
           /\ exists b,
                (In b targets \/ exists p, stop = InCycle b p)
                /\ (run_cycle b = Raise e
                    \/ (e = ValueError \/ e = OverflowError)
                       /\ exists stdout,
                            run_cycle b = Ok stdout
                            /\ analyze_scan_output so fmt_2f fmt_2pct
                                 str_float stdout
                               = Raise e)
       end.
Proof.
  destruct (@scan_loop_invariant targets stop initial_state)
    as (st' & exit & Hloop & Hlen & Hexit);
    [constructor | reflexivity | reflexivity |].
  exists st', exit. split; [exact Hloop |]. split; [exact Hlen |].
  destruct exit; [| exact Hexit |].
  - destruct Hexit as (H1 & H2 & _). now split.
  - destruct Hexit as (H1 & H2 & b & Hb & Hfrom).
    split; [exact H1 |]. split; [exact H2 |].
    exists b. split; [exact Hb |].
    destruct Hfrom as [Hfrom | (stdout & Hrun & Han)]; [now left | right].
    split; [exact (proj1 (@analyze_scan_output_raise _ _ _ _ _ _ Han)) |].
    now exists stdout.
Qed.

End LoopHistory.

(** ** Convergence *)

Lemma two_last (A : Type) (l : list A) :
  (2 <= List.length l)%nat ->
  exists earlier previous current, l = earlier ++ [previous; current].
Proof.
  intros H.
  destruct (@exists_last _ l) as (l1 & current & ->);
    [destruct l; [simpl in H; lia | discriminate] |].
  rewrite length_app in H. simpl in H.
  destruct (@exists_last _ l1) as (earlier & previous & ->);
    [destruct l1; [simpl in H; lia | discriminate] |].
  exists earlier, previous, current. now rewrite <- app_assoc.
Qed.

Lemma converged_inv (aggregated : list (list R)) :
  converged aggregated = true ->
  Forall (fun v => List.length v = 5%nat) aggregated ->
  exists earlier previous current,
    aggregated = earlier ++ [previous; current]
    /\ within_tolerance current previous.
Proof.
  intros Hconv Hlen. unfold converged in Hconv.
  destruct (Nat.leb_spec 2 (List.length aggregated)) as [H2 | H2];
    [| discriminate].
  destruct (two_last aggregated H2) as (earlier & previous & current & ->).
  exists earlier, previous, current. split; [reflexivity |].
  rewrite length_app in Hconv. cbn [List.length] in Hconv.
  replace (List.length earlier + 2 - 1)%nat
    with (List.length (earlier ++ [previous])) in Hconv
    by (rewrite length_app; simpl; lia).
  replace (earlier ++ [previous; current])
    with ((earlier ++ [previous]) ++ [current]) in Hconv
    by (now rewrite <- app_assoc).
  rewrite nth_middle in Hconv.
  replace (List.length earlier + 2 - 2)%nat with (List.length earlier)
    in Hconv by lia.
  rewrite <- app_assoc in Hconv. cbn [app] in Hconv.
  rewrite nth_middle in Hconv.
  apply Forall_app in Hlen as [_ Hlen].
  inversion Hlen as [| ? ? Hp Hlen']. subst.
  inversion Hlen' as [| ? ? Hc _]. subst.
  destruct previous as [| p0 [| p1 [| p2 [| p3 [| p4 [| ? ?]]]]]];
    try discriminate.
  destruct current as [| c0 [| c1 [| c2 [| c3 [| c4 [| ? ?]]]]]];
    try discriminate.
  cbn [combine map forallb fst snd] in Hconv.
  repeat match type of Hconv with
         | context [Rlt_dec ?a ?b] =>
             destruct (Rlt_dec a b); [| discriminate]
         end.
  intros i Hi.
  destruct i as [| [| [| [| [| i]]]]]; cbn [nth]; try assumption. lia.
Qed.

Section Convergence.
Variable so : set_order.
Variable fmt_2f fmt_2pct str_float : R -> string.
Variable IsolationForest : option (list (list R) -> list R -> result Z).
Variable str_vector : list R -> string.
Variable str_exn : exn -> string.

(** X23. The loop ends on convergence only when it has analysed at
    least two cycles and the vectors of the last two are within 1e-6 of
    each other in each of their five elements. *)
Theorem converged_exit_means_close (targets : list target_behaviour)
    (stop : interruption) (st' : loop_state) :
  scan_loop so fmt_2f fmt_2pct str_float IsolationForest str_vector str_exn
    targets stop initial_state
  = (st', Converged) ->
  exists earlier previous current,
    aggregated_features st' = earlier ++ [previous; current]
    /\ within_tolerance current previous
    /\ (2 <= List.length (cycles_started st'))%nat.
Proof.
  intros Hloop.
  destruct (@scan_loop_invariant so fmt_2f fmt_2pct str_float IsolationForest
              str_vector str_exn targets stop initial_state)
    as (st1 & exit & Hloop1 & Hlen & Hexit);
    [constructor | reflexivity | reflexivity |].
  rewrite Hloop in Hloop1. inversion Hloop1. subst st1 exit.
  destruct Hexit as (Hn & Hstarted & Hconv).
  destruct (@converged_inv _ Hconv Hlen)
    as (earlier & previous & current & Hagg & Hclose).
  exists earlier, previous, current. split; [exact Hagg |].
  split; [exact Hclose |].
  rewrite Hstarted, length_seq. rewrite Hagg, length_app in Hn.
  simpl in Hn. lia.
Qed.

(** Two cycles in a row with the same captured text, which the analysis
    accepts. *)
Lemma same_output_converges (b1 b2 : target_behaviour) (stdout : string) :
  run_cycle b1 = Ok stdout ->
  run_cycle b2 = Ok stdout ->
  analysis_defined stdout ->
  exists st',
    (forall rest stop,
        scan_loop so fmt_2f fmt_2pct str_float IsolationForest str_vector
          str_exn (b1 :: b2 :: rest) stop initial_state
        = (st', Converged))
    /\ aggregated_features st'
       = [feature_values stdout; feature_values stdout]
    /\ cycle st' = 1%nat
    /\ cycles_started st' = [0; 1]%nat.
Proof.
  intros H1 H2 Hd.
  destruct (@scan_cycle_first so fmt_2f fmt_2pct str_float IsolationForest
              str_vector str_exn b1 initial_state stdout H1 Hd eq_refl)
    as (st1 & Hstep1 & Hagg1 & Hc1 & Hs1).
  pose proof (@scan_cycle_ok so fmt_2f fmt_2pct str_float IsolationForest
                str_vector str_exn b2 st1 stdout H2 Hd) as Hstep2.
  assert (Hsecond : converged (aggregated_features st1
                               ++ [feature_values stdout]) = true).
  { rewrite Hagg1.
    apply (@converged_close [] (feature_values stdout)
             (feature_values stdout)); [reflexivity | reflexivity |].
    intros i _. unfold Rminus. rewrite Rplus_opp_r, Rabs_R0. lra. }
  rewrite Hsecond in Hstep2.
  eexists. split; [| split; [| split]].
  - intros rest stop.
    rewrite (@scan_loop_next so fmt_2f fmt_2pct str_float IsolationForest
               str_vector str_exn b1 (b2 :: rest) stop initial_state st1
               Hstep1).
    cbn [scan_loop]. rewrite Hstep2. reflexivity.
  - cbn [aggregated_features]. now rewrite Hagg1.
  - cbn [cycle]. now rewrite Hc1.
  - rewrite cycles_started_banner by no_banner. now rewrite Hs1, Hc1.
Qed.

(** X24. When the first two cycles of a run capture the same text and
    the analysis of that text returns, the loop ends on convergence in
    the second cycle whatever processes could still be launched and
    wherever the user would interrupt it: two equal vectors are kept and
    the banners 0 and 1 are the only ones printed.  When the analysis of
    that text raises, its exception leaves the loop in the first cycle:
    no vector is kept and the banner 0 is the only one printed. *)
Theorem same_output_twice_stops (b1 b2 : target_behaviour)
    (stdout : string) :
  run_cycle b1 = Ok stdout ->
  run_cycle b2 = Ok stdout ->
  (forall report,
      analyze_scan_output so fmt_2f fmt_2pct str_float stdout = Ok report ->
      exists st' v,
        (forall rest stop,
            scan_loop so fmt_2f fmt_2pct str_float IsolationForest str_vector
              str_exn (b1 :: b2 :: rest) stop initial_state
            = (st', Converged))
        /\ extract_features stdout = Ok v
        /\ aggregated_features st' = [v; v]
        /\ cycles_started st' = [0; 1]%nat)
  /\ (forall e,
        analyze_scan_output so fmt_2f fmt_2pct str_float stdout = Raise e ->
        exists st',
          (forall rest stop,
              scan_loop so fmt_2f fmt_2pct str_float IsolationForest
                str_vector str_exn (b1 :: b2 :: rest) stop initial_state
              = (st', Propagated e))
          /\ aggregated_features st' = []
          /\ cycles_started st' = [0]%nat).
Proof.
  intros H1 H2. split.
  - intros report Han.
    destruct (@analyze_scan_output_ok _ _ _ _ _ _ Han) as [Hd _].
    destruct (same_output_converges b1 b2 H1 H2 Hd)
      as (st' & Hloop & Hagg & _ & Hstarted).
    exists st', (feature_values stdout).
    split; [exact Hloop |].
    split; [exact (extract_features_defined (proj1 Hd)) |].
    split; [exact Hagg | exact Hstarted].
  - intros e Han. eexists. split; [| split].
    + intros rest stop. cbn [scan_loop].
      rewrite (@scan_cycle_analysis_fail so fmt_2f fmt_2pct str_float
                 IsolationForest str_vector str_exn b1 initial_state stdout
                 e H1 Han).
      reflexivity.
    + reflexivity.
    + reflexivity.
Qed.

End Convergence.

Lemma same_output_twice_stops_witness :
  exists st' v,
    scan_loop first_seen_order (fun _ => EmptyString) (fun _ => EmptyString)
      (fun _ => EmptyString) None (fun _ => EmptyString)
      (fun _ => EmptyString) [steady_target; steady_target; stubborn_target]
      AtLoopHead initial_state
    = (st', Converged)
    /\ aggregated_features st' = [v; v]
    /\ cycles_started st' = [0; 1]%nat.
Proof.
  assert (Hrun : run_cycle steady_target = Ok steady_output) by reflexivity.
  destruct (@same_output_twice_stops first_seen_order (fun _ => EmptyString)
              (fun _ => EmptyString) (fun _ => EmptyString) None
              (fun _ => EmptyString) (fun _ => EmptyString)
              steady_target steady_target steady_output Hrun Hrun)
    as [Hreturns _].
  destruct (Hreturns _
              (@analyze_scan_output_defined first_seen_order
                 (fun _ => EmptyString) (fun _ => EmptyString)
                 (fun _ => EmptyString) steady_output steady_output_defined))
    as (st' & v & Hloop & _ & Hagg & Hstarted).
  exists st', v. split; [apply Hloop |]. split; assumption.
Defined.

Lemma converged_exit_means_close_witness :
  exists st' earlier previous current,
    scan_loop first_seen_order (fun _ => EmptyString) (fun _ => EmptyString)
      (fun _ => EmptyString) None (fun _ => EmptyString)
      (fun _ => EmptyString) [steady_target; steady_target] AtLoopHead
      initial_state
    = (st', Converged)
    /\ aggregated_features st' = earlier ++ [previous; current]
    /\ within_tolerance current previous.
Proof.
  assert (Hrun : run_cycle steady_target = Ok steady_output) by reflexivity.
  destruct (@same_output_converges first_seen_order (fun _ => EmptyString)
              (fun _ => EmptyString) (fun _ => EmptyString) None
              (fun _ => EmptyString) (fun _ => EmptyString)
              steady_target steady_target steady_output Hrun Hrun
              steady_output_defined)
    as (st' & Hloop & _).
  destruct (@converged_exit_means_close first_seen_order
              (fun _ => EmptyString) (fun _ => EmptyString)
              (fun _ => EmptyString) None (fun _ => EmptyString)
              (fun _ => EmptyString) [steady_target; steady_target]
              AtLoopHead st' (Hloop [] AtLoopHead))
    as (earlier & previous & current & Hagg & Hclose & _).
  exists st', earlier, previous, current.
  split; [apply Hloop |]. split; assumption.
Defined.

Lemma failure_ends_loop_witness :
  scan_loop first_seen_order (fun _ => EmptyString) (fun _ => EmptyString)
    (fun _ => EmptyString) None (fun _ => EmptyString) (fun _ => EmptyString)
    [ {| on_launch := Raise (OtherError "FileNotFoundError");
         on_sigterm := Ok tt;
         on_communicate := Ok EmptyString;
         on_sigkill := Ok tt;
         on_communicate_forced := Ok EmptyString |};
      steady_target ]
    AtLoopHead initial_state
  = ({| aggregated_features := []; cycle := 0; console := [CycleBanner 0] |},
     Propagated (OtherError "FileNotFoundError")).
Proof.
  apply (@failure_ends_loop first_seen_order (fun _ => EmptyString)
           (fun _ => EmptyString) (fun _ => EmptyString) None
           (fun _ => EmptyString) (fun _ => EmptyString)
           {| on_launch := Raise (OtherError "FileNotFoundError");
              on_sigterm := Ok tt;
              on_communicate := Ok EmptyString;
              on_sigkill := Ok tt;
              on_communicate_forced := Ok EmptyString |}
           [steady_target] AtLoopHead initial_state
           (OtherError "FileNotFoundError")).
  reflexivity.
Defined.

(** ** What one cycle prints *)

(** X25. A cycle that nothing interrupts, whose process gives a text
    that the analysis accepts, prints, in this order, its banner, the
    text, the analysis report, the feature vector, the machine-learning
    report and then either the quit message (and the loop ends) or the
    footer (and the loop goes on).  The machine-learning report is
    computed on the history that already holds the vector of the cycle,
    so with the module available it is the insufficient-data statement
    as long as fewer than nine vectors were kept before the cycle. *)
Theorem cycle_console (so : set_order)
    (fmt_2f fmt_2pct str_float : R -> string)
    (IsolationForest : option (list (list R) -> list R -> result Z))
    (str_vector : list R -> string) (str_exn : exn -> string)
    (b : target_behaviour) (st : loop_state) (stdout report : string) :
  run_cycle b = Ok stdout ->
  analyze_scan_output so fmt_2f fmt_2pct str_float stdout = Ok report ->
  exists st' v,
    extract_features stdout = Ok v
    /\ scan_cycle so fmt_2f fmt_2pct str_float IsolationForest str_vector
         str_exn None b st
       = (st', Ok (if converged (aggregated_features st ++ [v])
                   then Break else Next))
    /\ console st'
       = console st
         ++ [ CycleBanner (cycle st); RawOutput stdout; AnalysisReport report;
              FeatureVector v;
              MLReport (perform_ml_analysis IsolationForest str_vector
                          str_exn v (aggregated_features st ++ [v]));
              if converged (aggregated_features st ++ [v])
              then QuitMessage else CycleFooter ]
    /\ (forall forest,
          IsolationForest = Some forest ->
          (List.length (aggregated_features st) < 9)%nat ->
          perform_ml_analysis IsolationForest str_vector str_exn v
            (aggregated_features st ++ [v])
          = ("Machine Learning Analysis: Not enough data for robust anomaly detection (need at least 10 cycles)."
             ++ LF ++ "(DEBUG) Aggregated training samples so far: "
             ++ str_len (List.length (aggregated_features st) + 1))%string).
Proof.
  intros Hrun Han.
  destruct (@analyze_scan_output_ok _ _ _ _ _ _ Han) as [Hd Hreport].
  exists (fst (scan_cycle so fmt_2f fmt_2pct str_float IsolationForest
                 str_vector str_exn None b st)),
    (feature_values stdout).
  rewrite (@scan_cycle_ok so fmt_2f fmt_2pct str_float IsolationForest
             str_vector str_exn b st stdout Hrun Hd).
  cbn [fst console].
  split; [exact (extract_features_defined (proj1 Hd)) |].
  split; [reflexivity |]. split; [now rewrite Hreport |].
  intros forest -> Hlt. unfold perform_ml_analysis.
  rewrite length_app. cbn [List.length].
  destruct (Nat.leb_spec 10 (List.length (aggregated_features st) + 1));
    [lia | reflexivity].
Qed.

Lemma cycle_console_witness :
  exists st' c v,
    scan_cycle first_seen_order (fun _ => EmptyString) (fun _ => EmptyString)
      (fun _ => EmptyString) (Some (fun _ _ => Ok 1%Z))
      (fun _ => EmptyString) (fun _ => EmptyString) None steady_target
      initial_state
    = (st', Ok c)
    /\ extract_features steady_output = Ok v.
Proof.
  assert (Hrun : run_cycle steady_target = Ok steady_output) by reflexivity.
  destruct (@cycle_console first_seen_order (fun _ => EmptyString)
              (fun _ => EmptyString) (fun _ => EmptyString)
              (Some (fun _ _ => Ok 1%Z)) (fun _ => EmptyString)
              (fun _ => EmptyString) steady_target initial_state
              steady_output _ Hrun
              (@analyze_scan_output_defined first_seen_order
                 (fun _ => EmptyString) (fun _ => EmptyString)
                 (fun _ => EmptyString) steady_output steady_output_defined))
    as (st' & v & H1 & H2 & _).
  exists st', (if converged (aggregated_features initial_state ++ [v])
               then Break else Next), v.
  split; [exact H2 | exact H1].
Defined.

(** ** Distinct values and distinct spellings *)

Lemma dedup_map_incl (tokens : list string) :
  incl (dedup Z.eqb (map int16 tokens))
       (map int16 (dedup String.eqb tokens)).
Proof.
  intros z Hz.
  pose proof (proj1 (dedup_In Z.eqb Z.eqb_eq (map int16 tokens) z) Hz) as Hin.
  apply in_map_iff in Hin as [t [<- Ht]]. apply in_map.
  exact (proj2 (dedup_In String.eqb String.eqb_eq tokens t) Ht).
Qed.

(** X26. Addresses are counted as distinct by value but interpreted and
    counted for repetition by spelling: in a report that is returned,
    the number of distinct values that the report states is at most the
    number of interpretations it lists. *)
Theorem unique_values_at_most_interpretations (so : set_order)
    (output : string) (insights : list insight) :
  insights_of so output = Ok insights ->
  List.length (interpreted_addresses insights)
  = List.length (dedup String.eqb (hex_tokens output))
  /\ forall u, In (UniqueHex u) insights ->
               (u <= List.length (interpreted_addresses insights))%nat.
Proof.
  intros Hi. apply insights_of_ok in Hi as [-> _].
  assert (Hlen : List.length (interpreted_addresses (report_lines so output))
                 = List.length (dedup String.eqb (hex_tokens output))).
  { rewrite interpreted_addresses_report.
    destruct (hex_tokens output) as [| t ts] eqn:E; [reflexivity |].
    rewrite <- E. apply Permutation_length.
    rewrite sorted_perm. apply iter_set_perm. }
  split; [exact Hlen |].
  intros u H. apply in_report_hex in H; [| reflexivity].
  apply in_hex_lines_unique in H as [_ ->]. rewrite Hlen.
  unfold len_set.
  rewrite <- (length_map int16 (dedup String.eqb (hex_tokens output))).
  apply NoDup_incl_length;
    [apply (dedup_NoDup Z.eqb Z.eqb_eq) | apply dedup_map_incl].
Qed.

(** The report of the sample text lists two interpretations. *)
Lemma unique_values_at_most_interpretations_witness :
  List.length
    (interpreted_addresses (report_lines first_seen_order sample_output))
  = 2%nat.
Proof.
  destruct (@unique_values_at_most_interpretations _ _ _
              (sample_output_analysed first_seen_order)) as [Hlen _].
  assert (Hd : List.length (dedup String.eqb (hex_tokens sample_output))
               = 2%nat) by reflexivity.
  rewrite Hd in Hlen. exact Hlen.
Defined.

(** Two spellings of one value: one distinct value, two
    interpretations. *)
Example two_spellings_of_zero :
  hex_tokens "0x0 0x00" = ["0x0"; "0x00"]%string
  /\ len_set (address_tokens "0x0 0x00") = 1%nat
  /\ List.length (dedup String.eqb (hex_tokens "0x0 0x00")) = 2%nat.
Proof. repeat split. Qed.
